(** * The directory persistence backend (taskflow/persistence/backends/impl_dir.py)

    A shallow embedding of [DirBackend] / [Connection]: logbooks, flow
    details and task details stored as JSON documents in a directory tree,
    child membership kept as symbolic links, a per-file read cache keyed by
    modification time, and named inter-process locks.

    The operating system is modelled by a finite map from paths to nodes;
    Python exceptions by an error result; the file cache, the clock and the
    log of lock events and disk reads are threaded through a state monad. *)

From stdpp Require Import gmap strings list fin_maps.
From Stdlib Require Import ZArith.

Local Open Scope string_scope.
Local Open Scope Z_scope.
Local Open Scope list_scope.
Local Open Scope stdpp_scope.

(** ** Paths and file-system nodes *)

(** A path is the list of its components below the configured storage root
    ([conf['path']]); the root itself is [[]].  Identifiers (uuids) are
    single components. *)
Abbreviation path := (list string).

(** [os.path.join(a, b)] for a single component [b]. *)
Definition path_join (a : path) (b : string) : path := a ++ [b].

Inductive errno := ENOENT | EEXIST | ENOTDIR | EISDIR | ELOOP.

Global Instance errno_eq_dec : EqDecision errno.
Proof. solve_decision. Defined.

(** Python 2 exception classes that the backend distinguishes.
    [EnvironmentError] carries [e.errno] (which may be [None]);
    [NotFound] and [StorageError] are the subclasses of
    [exc.TaskFlowException]; [StorageError] keeps its cause. *)
Inductive exn :=
| EnvironmentError (code : option errno)
| ValueError
| KeyError
| RuntimeError
| NotFound
| StorageError (cause : exn).

Global Instance exn_eq_dec : EqDecision exn.
Proof. solve_decision. Defined.

Definition is_TaskFlowException (e : exn) : bool :=
  match e with
  | NotFound | StorageError _ => true
  | _ => false
  end.

Definition is_EnvironmentError (e : exn) : bool :=
  match e with
  | EnvironmentError _ => true
  | _ => false
  end.

(** ** Entities (taskflow.persistence.logbook) *)

Record TaskDetail := mkTaskDetail {
  td_uuid : string;
  td_state : string;
  td_results : string;
  td_meta : string
}.

Record FlowDetail := mkFlowDetail {
  fd_uuid : string;
  fd_state : string;
  fd_meta : string;
  fd_tasks : list TaskDetail
}.

Record LogBook := mkLogBook {
  lb_uuid : string;
  lb_created_at : option Z;
  lb_updated_at : option Z;
  lb_meta : string;
  lb_flows : list FlowDetail
}.

Global Instance TaskDetail_eq_dec : EqDecision TaskDetail.
Proof. solve_decision. Defined.
Global Instance FlowDetail_eq_dec : EqDecision FlowDetail.
Proof. solve_decision. Defined.
Global Instance LogBook_eq_dec : EqDecision LogBook.
Proof. solve_decision. Defined.

(** [FlowDetail.find], [FlowDetail.add], and the same for [LogBook]:
    children are kept in a list, [add] appends. *)
Definition fd_find (fd : FlowDetail) (uuid : string) : option TaskDetail :=
  List.find (λ td, bool_decide (td_uuid td = uuid)) (fd_tasks fd).

Definition fd_add (fd : FlowDetail) (td : TaskDetail) : FlowDetail :=
  mkFlowDetail (fd_uuid fd) (fd_state fd) (fd_meta fd) (fd_tasks fd ++ [td]).

Definition lb_find (lb : LogBook) (uuid : string) : option FlowDetail :=
  List.find (λ fd, bool_decide (fd_uuid fd = uuid)) (lb_flows lb).

Definition lb_add (lb : LogBook) (fd : FlowDetail) : LogBook :=
  mkLogBook (lb_uuid lb) (lb_created_at lb) (lb_updated_at lb) (lb_meta lb)
            (lb_flows lb ++ [fd]).

(** ** Stored documents

    The JSON text of a metadata file is kept in decoded form:
    [jsonutils.dumps] and [misc.decode_json] are the two directions of an
    opaque codec.  [Garbage] is content that does not decode. *)
Inductive doc :=
| TaskDoc (state results meta : string)
| FlowDoc (state meta : string)
| BookDoc (created_at : Z) (updated_at : option Z) (meta : string)
| Garbage (raw : string).

Global Instance doc_eq_dec : EqDecision doc.
Proof. solve_decision. Defined.

Inductive node :=
| File (mtime : Z) (data : doc)
| Dir
| Link (target : path).

Global Instance node_eq_dec : EqDecision node.
Proof. solve_decision. Defined.

Definition is_link (n : node) : bool :=
  match n with Link _ => true | _ => false end.

(** ** Locks *)

Inductive lock_name := L_init | L_book | L_flow | L_task.

Global Instance lock_name_eq_dec : EqDecision lock_name.
Proof. solve_decision. Defined.

(** The names as the code passes them: ["init"], ["book"], ["flow"] and
    ["task"]. *)
Definition lock_file_name (l : lock_name) : string :=
  match l with
  | L_init => "init"
  | L_book => "book"
  | L_flow => "flow"
  | L_task => "task"
  end.

Inductive lock_event :=
| Acquire (l : lock_name)
| Release (l : lock_name).

Global Instance lock_event_eq_dec : EqDecision lock_event.
Proof. solve_decision. Defined.

(** ** Program state *)

(** A cache entry is the dict [cache_info]: empty ([None]) or holding
    ['mtime'] and ['data']. *)
Abbreviation cache_entry := (option (Z * doc)).

Record state := mkState {
  fs : gmap path node;
  file_cache : gmap path cache_entry;
  clock : Z;
  lock_log : list lock_event;
  disk_reads : list path
}.

Definition set_fs (f : gmap path node) (st : state) : state :=
  mkState f (file_cache st) (clock st) (lock_log st) (disk_reads st).
Definition set_cache (c : gmap path cache_entry) (st : state) : state :=
  mkState (fs st) c (clock st) (lock_log st) (disk_reads st).
Definition set_clock (t : Z) (st : state) : state :=
  mkState (fs st) (file_cache st) t (lock_log st) (disk_reads st).
Definition log_lock (e : lock_event) (st : state) : state :=
  mkState (fs st) (file_cache st) (clock st) (lock_log st ++ [e]) (disk_reads st).
Definition log_read (p : path) (st : state) : state :=
  mkState (fs st) (file_cache st) (clock st) (lock_log st) (disk_reads st ++ [p]).

(** ** The state-and-exception monad *)

Inductive result (A : Type) :=
| Ok (a : A)
| Raise (e : exn).
Arguments Ok {A} a.
Arguments Raise {A} e.

Definition M (A : Type) : Type := state → result A * state.

Global Instance M_ret : MRet M := λ A a st, (Ok a, st).
Global Instance M_bind : MBind M := λ A B k m st,
  match m st with
  | (Ok a, st') => k a st'
  | (Raise e, st') => (Raise e, st')
  end.

Definition raise {A} (e : exn) : M A := λ st, (Raise e, st).

(** [try: m except e: h e] where [h e = None] when no clause matches. *)
Definition try_except {A} (m : M A) (h : exn → option (M A)) : M A := λ st,
  match m st with
  | (Ok a, st') => (Ok a, st')
  | (Raise e, st') =>
      match h e with
      | Some k => k st'
      | None => (Raise e, st')
      end
  end.

Definition modify (f : state → state) : M unit := λ st, (Ok (), f st).

(** [for x in xs: body x] *)
Fixpoint for_each {A} (xs : list A) (body : A → M unit) : M unit :=
  match xs with
  | [] => mret ()
  | x :: xs' => body x;; for_each xs' body
  end.

(** ** The operating system: path resolution *)

(** Every proper prefix of a path must be a directory. *)
Fixpoint walk (f : gmap path node) (pre rest : path) : option errno :=
  match rest with
  | [] => None
  | c :: rest' =>
      match f !! pre with
      | Some Dir => walk f (pre ++ [c]) rest'
      | Some _ => Some ENOTDIR
      | None => Some ENOENT
      end
  end.

(** [os.lstat]: the node at a path, not following a final link. *)
Definition lstat (f : gmap path node) (p : path) : errno + node :=
  match walk f [] p with
  | Some e => inl e
  | None => match f !! p with Some n => inr n | None => inl ENOENT end
  end.

(** Following links in final position, at most [fuel] of them. *)
Fixpoint realpath (fuel : nat) (f : gmap path node) (p : path) : errno + path :=
  match f !! p with
  | Some (Link t) =>
      match fuel with
      | O => inl ELOOP
      | S k => realpath k f t
      end
  | _ => inr p
  end.

Definition MAXSYMLINKS : nat := 40.

(** [os.stat]: the node at a path after following links. *)
Definition stat (f : gmap path node) (p : path) : errno + node :=
  match realpath MAXSYMLINKS f p with
  | inl e => inl e
  | inr r => lstat f r
  end.

Definition lift_os {A} (r : errno + A) : M A :=
  match r with
  | inl e => raise (EnvironmentError (Some e))
  | inr a => mret a
  end.

(** [os.path.getmtime]; directory times are not tracked. *)
Definition os_path_getmtime (p : path) : M Z := λ st,
  match stat (fs st) p with
  | inl e => (Raise (EnvironmentError (Some e)), st)
  | inr (File m _) => (Ok m, st)
  | inr _ => (Ok 0, st)
  end.

(** [open(p, 'rb').read()]; each successful read is logged. *)
Definition open_read (p : path) : M doc := λ st,
  match stat (fs st) p with
  | inl e => (Raise (EnvironmentError (Some e)), st)
  | inr (File _ d) => (Ok d, log_read p st)
  | inr _ => (Raise (EnvironmentError (Some EISDIR)), st)
  end.

(** [open(p, 'wb')]: creates the file that [p] resolves to, or truncates
    it; the result stands for the open file [fp]. *)
Definition open_wb (p : path) : M path := λ st,
  match realpath MAXSYMLINKS (fs st) p with
  | inl e => (Raise (EnvironmentError (Some e)), st)
  | inr r =>
      match walk (fs st) [] r with
      | Some e => (Raise (EnvironmentError (Some e)), st)
      | None =>
          match fs st !! r with
          | Some Dir => (Raise (EnvironmentError (Some EISDIR)), st)
          | _ => (Ok r, set_fs (<[r := File (clock st) (Garbage "")]> (fs st)) st)
          end
      end
  end.

(** [fp.write(contents)] and the close at the end of the [with] block, on
    the file just opened: the content is on disk, the modification time is
    the current clock, which then advances.  The model has no full disk and
    no failing device, so writing to an open file does not fail: a failure
    of [open_write] is a failure to open, before anything is truncated. *)
Definition fp_write (fp : path) (contents : doc) : M unit := λ st,
  (Ok (), set_clock (clock st + 1)
            (set_fs (<[fp := File (clock st) contents]> (fs st)) st)).

(** [with open(p, 'wb') as fp: fp.write(contents)] *)
Definition open_write (p : path) (contents : doc) : M unit :=
  fp ← open_wb p;
  fp_write fp contents.

(** The names directly below [d]. *)
Definition child_name (d : path) (k : path) : option string :=
  match last k with
  | Some n => if decide (k = d ++ [n]) then Some n else None
  | None => None
  end.

Definition entries (f : gmap path node) (d : path) : list string :=
  omap (λ kv, child_name d kv.1) (map_to_list f).

(** [os.listdir] *)
Definition os_listdir (p : path) : M (list string) := λ st,
  match realpath MAXSYMLINKS (fs st) p with
  | inl e => (Raise (EnvironmentError (Some e)), st)
  | inr r =>
      match lstat (fs st) r with
      | inl e => (Raise (EnvironmentError (Some e)), st)
      | inr Dir => (Ok (entries (fs st) r), st)
      | inr _ => (Raise (EnvironmentError (Some ENOTDIR)), st)
      end
  end.

(** [os.path.isdir] and [os.path.islink] never raise. *)
Definition os_path_isdir (p : path) : M bool := λ st,
  match stat (fs st) p with
  | inr Dir => (Ok true, st)
  | _ => (Ok false, st)
  end.

Definition os_path_islink (p : path) : M bool := λ st,
  match lstat (fs st) p with
  | inr (Link _) => (Ok true, st)
  | _ => (Ok false, st)
  end.

(** [os.symlink(src, dst)]: creates the link [dst] pointing at [src]. *)
Definition os_symlink (src dst : path) : M unit := λ st,
  match walk (fs st) [] dst with
  | Some e => (Raise (EnvironmentError (Some e)), st)
  | None =>
      match fs st !! dst with
      | Some _ => (Raise (EnvironmentError (Some EEXIST)), st)
      | None => (Ok (), set_fs (<[dst := Link src]> (fs st)) st)
      end
  end.

(** [shutil.rmtree(p)]: refuses a symbolic link (an [OSError] without
    errno), fails with the error of [os.listdir] on anything that is not a
    directory, and otherwise removes the directory with all below it. *)
Definition below (p : path) (kv : path * node) : Prop := ¬ p `prefix_of` kv.1.

Global Instance below_dec p kv : Decision (below p kv).
Proof. unfold below. apply _. Defined.

Definition shutil_rmtree (p : path) : M unit := λ st,
  match lstat (fs st) p with
  | inr (Link _) => (Raise (EnvironmentError None), st)
  | inl e => (Raise (EnvironmentError (Some e)), st)
  | inr (File _ _) => (Raise (EnvironmentError (Some ENOTDIR)), st)
  | inr Dir => (Ok (), set_fs (filter (below p) (fs st)) st)
  end.

(** ** Collaborators outside this module *)

(** Modelled from the spec: [misc.ensure_tree] is missing from the sources;
    it "ensures the directory exists", creating every missing ancestor, and
    is a no-op on an existing directory.  A non-directory in the way is an
    error; directories created before the error stay. *)
Fixpoint ensure_dirs (f : gmap path node) (pre rest : path)
  : gmap path node * option errno :=
  match rest with
  | [] =>
      match f !! pre with
      | None => (<[pre := Dir]> f, None)
      | Some Dir => (f, None)
      | Some (File _ _) => (f, Some EEXIST)
      | Some (Link _) =>
          match stat f pre with
          | inr Dir => (f, None)
          | _ => (f, Some EEXIST)
          end
      end
  | c :: rest' =>
      match f !! pre with
      | None => ensure_dirs (<[pre := Dir]> f) (pre ++ [c]) rest'
      | Some Dir => ensure_dirs f (pre ++ [c]) rest'
      | Some _ => (f, Some ENOTDIR)
      end
  end.

Definition ensure_tree (p : path) : M unit := λ st,
  match ensure_dirs (fs st) [] p with
  | (f', None) => (Ok (), set_fs f' st)
  | (f', Some e) => (Raise (EnvironmentError (Some e)), set_fs f' st)
  end.

(** Modelled from the spec: [lock_utils.InterProcessLock] is missing from
    the sources.  "Locks are implemented as filesystem-level advisory locks
    scoped to a dedicated lock-file directory, one lock file per name"
    ([<root>/locks/{init,book,flow,task}]): [with InterProcessLock(path):
    body] opens the lock file at [path], which creates it, empty, when it
    is not there, takes the lock, runs the body and releases the lock
    however the body ends.  In this sequential model acquisition always
    succeeds: a node that is at the path already, of whatever kind, is
    left as it is, and where no file can be created, for want of the
    directory to hold it, the file system is left as it is ([upgrade]
    creates that directory before it takes its first lock).  Nothing is
    written to the lock file, so the clock is left alone.  The lock name
    [l] is what goes to the log of lock events. *)
Definition open_lock (lock_path : path) (st : state) : state :=
  match walk (fs st) [] lock_path, fs st !! lock_path with
  | None, None =>
      set_fs (<[lock_path := File (clock st) (Garbage "")]> (fs st)) st
  | _, _ => st
  end.

Definition InterProcessLock {A} (l : lock_name) (lock_path : path)
    (body : M A) : M A := λ st,
  let '(r, st') := body (log_lock (Acquire l) (open_lock lock_path st)) in
  (r, log_lock (Release l) st').

(** Modelled from the spec: [misc.decode_json] and [jsonutils.dumps] are
    missing from the sources; they are the opaque decode / encode pair. *)
Definition decode_json (d : doc) : M doc :=
  match d with
  | Garbage _ => raise ValueError
  | _ => mret d
  end.

Definition jsonutils_dumps (d : doc) : doc := d.

(** The current time; only writing a file lets the clock advance. *)
Definition utcnow : M Z := λ st, (Ok (clock st), st).

(** Modelled from the spec: [p_utils.format_*] / [p_utils.unformat_*] are
    missing from the sources; they convert an entity's scalar fields to and
    from its stored document.  The creation time of a book "is set once, at
    first persistence, and never overwritten": [format_logbook] writes the
    [created_at] it is given and stamps the clock when given none. *)
Definition format_task_detail (td : TaskDetail) : doc :=
  TaskDoc (td_state td) (td_results td) (td_meta td).

Definition unformat_task_detail (uuid : string) (d : doc) : M TaskDetail :=
  match d with
  | TaskDoc s r m => mret (mkTaskDetail uuid s r m)
  | _ => raise KeyError
  end.

Definition format_flow_detail (fd : FlowDetail) : doc :=
  FlowDoc (fd_state fd) (fd_meta fd).

Definition unformat_flow_detail (uuid : string) (d : doc) : M FlowDetail :=
  match d with
  | FlowDoc s m => mret (mkFlowDetail uuid s m [])
  | _ => raise KeyError
  end.

Definition format_logbook (lb : LogBook) (created_at : option Z) : M doc :=
  t ← utcnow;
  mret (match created_at with
        | Some c => BookDoc c (Some t) (lb_meta lb)
        | None => BookDoc t None (lb_meta lb)
        end).

Definition unformat_logbook (uuid : string) (d : doc) : M LogBook :=
  match d with
  | BookDoc c u m => mret (mkLogBook uuid (Some c) u m [])
  | _ => raise KeyError
  end.

(** Modelled from the spec: [p_utils.task_details_merge],
    [p_utils.flow_details_merge] and [p_utils.logbook_merge] are missing
    from the sources; "top-level scalar fields follow last-write-wins (the
    incoming value overwrites the stored value, except the immutable
    creation timestamp)"; the children of the stored version are kept. *)
Definition task_details_merge (td_e td_new : TaskDetail) : TaskDetail :=
  mkTaskDetail (td_uuid td_e) (td_state td_new) (td_results td_new) (td_meta td_new).

Definition flow_details_merge (fd_e fd_new : FlowDetail) : FlowDetail :=
  mkFlowDetail (fd_uuid fd_e) (fd_state fd_new) (fd_meta fd_new) (fd_tasks fd_e).

Definition logbook_merge (lb_e lb_new : LogBook) : LogBook :=
  mkLogBook (lb_uuid lb_e) (lb_created_at lb_e) (lb_updated_at lb_new)
            (lb_meta lb_new) (lb_flows lb_e).

(** ** More monad plumbing *)

Global Instance M_fmap : FMap M := λ A B f m, a ← m; mret (f a).

(** [for x in xs: acc = body acc x] *)
Fixpoint fold_M {A B} (body : B → A → M B) (xs : list A) (acc : B) : M B :=
  match xs with
  | [] => mret acc
  | x :: xs' => acc' ← body acc x; fold_M body xs' acc'
  end.

(** [[x for x in xs if test x]] *)
Fixpoint filter_M {A} (test : A → M bool) (xs : list A) : M (list A) :=
  match xs with
  | [] => mret []
  | x :: xs' =>
      b ← test x;
      ys ← filter_M test xs';
      mret (if b : bool then x :: ys else ys)
  end.

(** [except EnvironmentError as e: if e.errno != code: raise], the handler
    running [otherwise] for [code]. *)
Definition unless_errno {A} (code : errno) (otherwise : M A) (e : exn)
  : option (M A) :=
  match e with
  | EnvironmentError c =>
      if decide (c ≠ Some code) then Some (raise e) else Some otherwise
  | _ => None
  end.

(** ** class Connection *)

Definition base_path : path := [].
Definition lock_path : path := path_join base_path "locks".
Definition _flow_path : path := path_join base_path "flows".
Definition _task_path : path := path_join base_path "tasks".
Definition _book_path : path := path_join base_path "books".

Definition validate : M unit :=
  for_each [base_path; lock_path; _flow_path; _task_path; _book_path]
    (λ p : path,
       b ← os_path_isdir p;
       if negb b then raise RuntimeError else mret ()).

(** The three steps on the shared dict [self._file_cache]. *)
Definition cache_setdefault (filename : path) : M cache_entry := λ st,
  match file_cache st !! filename with
  | Some ci => (Ok ci, st)
  | None => (Ok None, set_cache (<[filename := None]> (file_cache st)) st)
  end.

Definition cache_fill (filename : path) (mtime : Z) (data : doc) : M unit :=
  modify (λ st, set_cache (<[filename := Some (mtime, data)]> (file_cache st)) st).

Definition cache_data (filename : path) : M doc := λ st,
  match file_cache st !! filename with
  | Some (Some (_, d)) => (Ok d, st)
  | _ => (Raise KeyError, st)
  end.

Definition _read_from (filename : path) : M doc :=
  mtime ← os_path_getmtime filename;
  cache_info ← cache_setdefault filename;
  (if bool_decide (cache_info = None)
      || bool_decide (mtime > default 0 (fst <$> cache_info))
   then data ← open_read filename;
        cache_fill filename mtime data
   else mret ());;
  cache_data filename.

Definition _write_to (filename : path) (contents : doc) : M unit :=
  open_write filename contents;;
  modify (λ st, set_cache (delete filename (file_cache st)) st).

Definition _run_with_process_lock {A} (lock_name : lock_name) (functor : M A)
  : M A :=
  let lock_path := path_join lock_path (lock_file_name lock_name) in
  InterProcessLock lock_name lock_path
    (try_except functor
       (λ e, if is_TaskFlowException e then Some (raise e)
             else Some (raise (StorageError e)))).

Definition _get_task_details (uuid : string) (lock : bool) : M TaskDetail :=
  let _get : M TaskDetail :=
    let td_path := path_join _task_path uuid in
    td_data ← (_read_from td_path ≫= decode_json);
    unformat_task_detail uuid td_data in
  if lock then _run_with_process_lock L_task _get else _get.

(** [[f for f in os.listdir(d) if os.path.islink(os.path.join(d, f))]] *)
Definition list_links (d : path) : M (list string) :=
  names ← os_listdir d;
  filter_M (λ f, os_path_islink (path_join d f)) names.

Definition _get_flow_details (uuid : string) (lock : bool) : M FlowDetail :=
  let _get : M FlowDetail :=
    let fd_path := path_join _flow_path uuid in
    let meta_path := path_join fd_path "metadata" in
    meta ← (_read_from meta_path ≫= decode_json);
    fd ← unformat_flow_detail uuid meta;
    let td_path := path_join fd_path "tasks" in
    td_to_load ← try_except (list_links td_path) (unless_errno ENOENT (mret []));
    fold_M (λ fd t_uuid, td ← _get_task_details t_uuid true; mret (fd_add fd td))
           td_to_load fd in
  if lock then _run_with_process_lock L_flow _get else _get.

Definition _get_logbook (book_uuid : string) : M LogBook :=
  let book_path := path_join _book_path book_uuid in
  let meta_path := path_join book_path "metadata" in
  meta ← try_except (_read_from meta_path ≫= decode_json)
           (λ e, match e with
                 | EnvironmentError c =>
                     if decide (c = Some ENOENT) then Some (raise NotFound)
                     else Some (raise e)
                 | _ => None
                 end);
  lb ← unformat_logbook book_uuid meta;
  let fd_path := path_join book_path "flows" in
  fd_uuids ← try_except (list_links fd_path) (unless_errno ENOENT (mret []));
  fold_M (λ lb fd_uuid, fd ← _get_flow_details fd_uuid true; mret (lb_add lb fd))
         fd_uuids lb.

Definition get_logbook (book_uuid : string) : M LogBook :=
  _run_with_process_lock L_book (_get_logbook book_uuid).

(** [[d for d in os.listdir(p) if os.path.isdir(os.path.join(p, d))]] *)
Definition list_dirs (p : path) : M (list string) :=
  names ← os_listdir p;
  filter_M (λ d, os_path_isdir (path_join p d)) names.

(** The generator [_get_logbooks], run to its end by [list(...)]. *)
Definition _get_logbooks : M (list LogBook) :=
  lb_uuids ← try_except (list_dirs _book_path) (unless_errno ENOENT (mret []));
  fold_M (λ acc lb_uuid,
            try_except (lb ← _get_logbook lb_uuid; mret (acc ++ [lb]))
              (λ e, match e with NotFound => Some (mret acc) | _ => None end))
         lb_uuids [].

Definition get_logbooks : M (list LogBook) :=
  try_except _get_logbooks
    (λ e, if is_EnvironmentError e then Some (raise (StorageError e)) else None).

(** [except EnvironmentError: if not ignore_missing: raise exc.NotFound] *)
Definition probe_existing {A} (get : M A) (ignore_missing : bool) : M (option A) :=
  try_except (Some <$> get)
    (λ e, if is_EnvironmentError e
          then Some (if negb ignore_missing then raise NotFound else mret None)
          else None).

Definition _save_task_details (task_detail : TaskDetail) (ignore_missing : bool)
  : M TaskDetail :=
  e_td ← probe_existing (_get_task_details (td_uuid task_detail) false) ignore_missing;
  let task_detail :=
    match e_td with
    | Some e_td => task_details_merge e_td task_detail
    | None => task_detail
    end in
  let td_path := path_join _task_path (td_uuid task_detail) in
  let td_data := format_task_detail task_detail in
  _write_to td_path (jsonutils_dumps td_data);;
  mret task_detail.

Definition update_task_details (task_detail : TaskDetail) : M TaskDetail :=
  _run_with_process_lock L_task (_save_task_details task_detail false).

(** [try: os.symlink(src, target) except EnvironmentError as e:
    if e.errno != errno.EEXIST: raise] *)
Definition link_child (src target : path) : M unit :=
  try_except (os_symlink src target) (unless_errno EEXIST (mret ())).

Definition _save_tasks_and_link (task_details : list TaskDetail)
    (local_task_path : path) : M unit :=
  for_each task_details (λ task_detail,
    _save_task_details task_detail true;;
    let src_td_path := path_join _task_path (td_uuid task_detail) in
    let target_td_path := path_join local_task_path (td_uuid task_detail) in
    link_child src_td_path target_td_path).

(** [for td in flow_detail: if e_fd.find(td.uuid) is None: e_fd.add(td)] *)
Definition fd_add_missing (e_fd : FlowDetail) (tds : list TaskDetail) : FlowDetail :=
  fold_left (λ e_fd td, match fd_find e_fd (td_uuid td) with
                        | None => fd_add e_fd td
                        | Some _ => e_fd
                        end) tds e_fd.

Definition _save_flow_details (flow_detail : FlowDetail) (ignore_missing : bool)
  : M FlowDetail :=
  e_fd ← probe_existing (_get_flow_details (fd_uuid flow_detail) false) ignore_missing;
  let flow_detail :=
    match e_fd with
    | Some e_fd =>
        let e_fd := flow_details_merge e_fd flow_detail in
        fd_add_missing e_fd (fd_tasks flow_detail)
    | None => flow_detail
    end in
  let flow_path := path_join _flow_path (fd_uuid flow_detail) in
  ensure_tree flow_path;;
  _write_to (path_join flow_path "metadata")
            (jsonutils_dumps (format_flow_detail flow_detail));;
  (if bool_decide (length (fd_tasks flow_detail) ≠ 0%nat)
   then let task_path := path_join flow_path "tasks" in
        ensure_tree task_path;;
        _run_with_process_lock L_task
          (_save_tasks_and_link (fd_tasks flow_detail) task_path)
   else mret ());;
  mret flow_detail.

Definition update_flow_details (flow_detail : FlowDetail) : M FlowDetail :=
  _run_with_process_lock L_flow (_save_flow_details flow_detail false).

Definition _save_flows_and_link (flow_details : list FlowDetail)
    (local_flow_path : path) : M unit :=
  for_each flow_details (λ flow_detail,
    _save_flow_details flow_detail true;;
    let src_fd_path := path_join _flow_path (fd_uuid flow_detail) in
    let target_fd_path := path_join local_flow_path (fd_uuid flow_detail) in
    link_child src_fd_path target_fd_path).

Definition lb_add_missing (e_lb : LogBook) (fds : list FlowDetail) : LogBook :=
  fold_left (λ e_lb fd, match lb_find e_lb (fd_uuid fd) with
                        | None => lb_add e_lb fd
                        | Some _ => e_lb
                        end) fds e_lb.

Definition _save_logbook (book : LogBook) : M LogBook :=
  e_lb ← try_except (Some <$> _get_logbook (lb_uuid book))
           (λ e, match e with NotFound => Some (mret None) | _ => None end);
  let e_lb :=
    match e_lb with
    | Some e_lb => Some (lb_add_missing (logbook_merge e_lb book) (lb_flows book))
    | None => None
    end in
  let book := default book e_lb in
  let book_path := path_join _book_path (lb_uuid book) in
  ensure_tree book_path;;
  let created_at := e_lb ≫= lb_created_at in
  meta ← format_logbook book created_at;
  _write_to (path_join book_path "metadata") (jsonutils_dumps meta);;
  (if bool_decide (length (lb_flows book) ≠ 0%nat)
   then let flow_path := path_join book_path "flows" in
        ensure_tree flow_path;;
        _run_with_process_lock L_flow
          (_save_flows_and_link (lb_flows book) flow_path)
   else mret ());;
  mret book.

Definition save_logbook (book : LogBook) : M LogBook :=
  _run_with_process_lock L_book (_save_logbook book).

(** [except EnvironmentError as e: raise exc.StorageError(msg, e)] *)
Definition as_storage_error {A} (e : exn) : option (M A) :=
  if is_EnvironmentError e then Some (raise (StorageError e)) else None.

Definition upgrade : M unit :=
  let _step_create : M unit :=
    for_each [_book_path; _flow_path; _task_path]
      (λ p, try_except (ensure_tree p) as_storage_error) in
  for_each [base_path; lock_path]
    (λ p, try_except (ensure_tree p) as_storage_error);;
  _run_with_process_lock L_init _step_create.

Definition clear_all : M unit :=
  let _step_clear : M unit :=
    for_each [_book_path; _flow_path; _task_path]
      (λ d : path,
         b ← os_path_isdir d;
         if b : bool then shutil_rmtree d else mret ()) in
  let _step_task := _run_with_process_lock L_task _step_clear in
  let _step_flow := _run_with_process_lock L_flow _step_task in
  let _step_book := _run_with_process_lock L_book _step_flow in
  _run_with_process_lock L_init _step_book.

(** [try: shutil.rmtree(p) except EnvironmentError as e:
    if e.errno != errno.ENOENT: raise exc.StorageError(msg, e)] *)
Definition remove_tree (p : path) : M unit :=
  try_except (shutil_rmtree p)
    (λ e, match e with
          | EnvironmentError c =>
              if decide (c ≠ Some ENOENT) then Some (raise (StorageError e))
              else Some (mret ())
          | _ => None
          end).

Definition destroy_logbook (book_uuid : string) : M unit :=
  let _destroy_tasks (task_details : list TaskDetail) : M unit :=
    for_each task_details (λ task_detail,
      let task_path := path_join _task_path (td_uuid task_detail) in
      remove_tree task_path) in
  let _destroy_flows (flow_details : list FlowDetail) : M unit :=
    for_each flow_details (λ flow_detail,
      let flow_path := path_join _flow_path (fd_uuid flow_detail) in
      _run_with_process_lock L_task (_destroy_tasks (fd_tasks flow_detail));;
      remove_tree flow_path) in
  let _destroy_book : M unit :=
    book ← _get_logbook book_uuid;
    let book_path := path_join _book_path (lb_uuid book) in
    _run_with_process_lock L_flow (_destroy_flows (lb_flows book));;
    remove_tree book_path in
  _run_with_process_lock L_book _destroy_book.

(** ** Vocabulary of the properties *)

(** The lock file of a lock, and the state in which the body of a locked
    region starts: the lock file opened and the acquisition logged. *)
Definition lock_file (l : lock_name) : path :=
  path_join lock_path (lock_file_name l).

Definition locked (l : lock_name) (st : state) : state :=
  log_lock (Acquire l) (open_lock (lock_file l) st).

(** No file at [p]: [os.stat] reports ENOENT. *)
Definition missing (st : state) (p : path) : Prop :=
  stat (fs st) p = inl ENOENT.

(** What the cache holds for a path: a modification time and the content
    last read.  An empty [cache_info] dict holds nothing. *)
Definition cached (st : state) (p : path) : option (Z * doc) :=
  match file_cache st !! p with
  | Some ci => ci
  | None => None
  end.

(** No usable entry, or the file is strictly newer than the entry. *)
Definition must_reread (st : state) (p : path) (mtime : Z) : bool :=
  match cached st p with
  | None => true
  | Some (cm, _) => bool_decide (mtime > cm)
  end.

(** The state after a successful refresh of the entry of [p]. *)
Definition refreshed (p : path) (mtime : Z) (data : doc) (st : state) : state :=
  set_cache (<[p := Some (mtime, data)]> (file_cache st)) (log_read p st).

(** *** The lock chain init -> book -> flow -> task *)

Definition rank (l : lock_name) : nat :=
  match l with L_init => 0 | L_book => 1 | L_flow => 2 | L_task => 3 end%nat.

(** The lock just outside [l] in the chain. *)
Definition outer_of (l : lock_name) : option lock_name :=
  match l with
  | L_init => None
  | L_book => Some L_init
  | L_flow => Some L_book
  | L_task => Some L_flow
  end.

Definition acquired (evs : list lock_event) : list lock_name :=
  omap (λ e, match e with Acquire l => Some l | Release _ => None end) evs.

(** [l] may be taken while [held] are held, in an operation that needs the
    locks [needed]: every held lock is further out in the chain, and the
    lock just outside [l] is held whenever the operation needs it too. *)
Definition may_acquire (needed held : list lock_name) (l : lock_name) : bool :=
  bool_decide (l ∈ needed)
  && forallb (λ h, bool_decide (rank h < rank l)%nat) held
  && match outer_of l with
     | Some o => bool_decide (o ∈ needed → o ∈ held)
     | None => true
     end.

(** Replaying a log of lock events from a stack of held locks; [None] when
    an acquisition is out of order or a release is not of the innermost
    held lock. *)
Fixpoint replay (needed held : list lock_name) (evs : list lock_event)
  : option (list lock_name) :=
  match evs with
  | [] => Some held
  | Acquire l :: evs' =>
      if may_acquire needed held l then replay needed (l :: held) evs' else None
  | Release l :: evs' =>
      match held with
      | h :: held' => if decide (h = l) then replay needed held' evs' else None
      | [] => None
      end
  end.

(** A complete log that respects the chain, the needed locks being those
    it acquires. *)
Definition follows_chain (evs : list lock_event) : Prop :=
  replay (acquired evs) [] evs = Some [].

(** The lock events an operation added to the log. *)
Definition new_events (st st' : state) : list lock_event :=
  drop (length (lock_log st)) (lock_log st').

(** The operations of a connection. *)
Inductive operation :=
| Op_validate
| Op_upgrade
| Op_clear_all
| Op_get_logbooks
| Op_get_logbook (book_uuid : string)
| Op_save_logbook (book : LogBook)
| Op_update_flow_details (flow_detail : FlowDetail)
| Op_update_task_details (task_detail : TaskDetail)
| Op_destroy_logbook (book_uuid : string).

Definition run_operation (op : operation) : M unit :=
  match op with
  | Op_validate => validate
  | Op_upgrade => upgrade
  | Op_clear_all => clear_all
  | Op_get_logbooks => get_logbooks;; mret ()
  | Op_get_logbook u => get_logbook u;; mret ()
  | Op_save_logbook b => save_logbook b;; mret ()
  | Op_update_flow_details fd => update_flow_details fd;; mret ()
  | Op_update_task_details td => update_task_details td;; mret ()
  | Op_destroy_logbook u => destroy_logbook u
  end.

(** *** The directory layout *)

(** Symbolic links are exactly the entries of the child-index directories,
    four components below the root:
    [books/<id>/flows/<flow_id>] and [flows/<id>/tasks/<task_id>]. *)
Definition layout_ok (f : gmap path node) : Prop :=
  ∀ p n, f !! p = Some n → (is_link n = true ↔ length p = 4%nat).

(** A cache entry agrees with the file it was read from. *)
Definition cache_coherent (st : state) : Prop :=
  ∀ p m d m' d',
    file_cache st !! p = Some (Some (m, d)) →
    fs st !! p = Some (File m' d') →
    m' = m ∧ d' = d.

Definition store_ok (st : state) : Prop :=
  layout_ok (fs st) ∧ cache_coherent st.

(** The child references of a container: the names of the links in its
    child-index directory. *)
Definition child_ref (st : state) (index : path) (child : string) : Prop :=
  ∃ t, fs st !! (index ++ [child]) = Some (Link t).

Definition flow_index (uuid : string) : path :=
  path_join (path_join _flow_path uuid) "tasks".
Definition book_index (uuid : string) : path :=
  path_join (path_join _book_path uuid) "flows".
Definition book_metadata (uuid : string) : path :=
  path_join (path_join _book_path uuid) "metadata".
Definition flow_metadata (uuid : string) : path :=
  path_join (path_join _flow_path uuid) "metadata".

(** *** Example stores *)

Definition empty_store : state := mkState ∅ ∅ 100 [] [].

(** A store after [upgrade]. *)
Definition fresh_store : state := (upgrade empty_store).2.

Definition task (uuid : string) : TaskDetail :=
  mkTaskDetail uuid "PENDING" "" "".

Definition flow_AB : FlowDetail := mkFlowDetail "F1" "RUNNING" "" [task "A"; task "B"].
Definition flow_C : FlowDetail := mkFlowDetail "F1" "SUCCESS" "" [task "C"].
Definition book_1 : LogBook := mkLogBook "B1" None None "" [flow_AB].

(** [books/B1] with flow [F1] and its tasks [A] and [B], as [save_logbook]
    leaves it. *)
Definition saved_store : state := (save_logbook book_1 fresh_store).2.


(** *** Tiers *)

Inductive tier := Book | Flow | Task.

(** The metadata file of an identifier at a tier. *)
Definition metadata_path (t : tier) (uuid : string) : path :=
  match t with
  | Book => book_metadata uuid
  | Flow => flow_metadata uuid
  | Task => path_join _task_path uuid
  end.

Definition raised {A} (r : result A) : option exn :=
  match r with
  | Ok _ => None
  | Raise e => Some e
  end.

(** The exception with which the tier's get operation ends, if any. *)
Definition get_raises (t : tier) (uuid : string) (lock : bool) (st : state)
  : option exn :=
  match t with
  | Book => raised (_get_logbook uuid st).1
  | Flow => raised (_get_flow_details uuid lock st).1
  | Task => raised (_get_task_details uuid lock st).1
  end.

(** *** Invariance along a run *)

(** Every run of [m] relates the state before to the state after. *)
Definition steps {A} (R : relation state) (m : M A) : Prop :=
  ∀ st, R st (m st).2.

(** A run that leaves the state as it is. *)
Definition pure_run {A} (m : M A) : Prop := ∀ st, (m st).2 = st.

(** A run that adds no lock event. *)
Definition silent {A} (m : M A) : Prop :=
  ∀ st, lock_log (m st).2 = lock_log st.

(** A run whose lock events, replayed from the locks [held] on entry,
    respect the chain and leave [held] as they were. *)
Definition disciplined {A} (needed held : list lock_name) (m : M A) : Prop :=
  ∀ st, ∃ evs, lock_log (m st).2 = lock_log st ++ evs
               ∧ replay needed held evs = Some held.

(** The paths of the flow and task tiers, and of the book tier. *)
Inductive lower_path : path → Prop :=
| lp_task u : lower_path ["tasks"; u]
| lp_flow u : lower_path ["flows"; u]
| lp_flow_meta u : lower_path ["flows"; u; "metadata"]
| lp_flow_index u : lower_path ["flows"; u; "tasks"].

Inductive lower_link : path → Prop :=
| ll_task u t : lower_link ["flows"; u; "tasks"; t].

Inductive book_path : path → Prop :=
| bp_book u : book_path ["books"; u]
| bp_book_meta u : book_path ["books"; u; "metadata"]
| bp_book_index u : book_path ["books"; u; "flows"].

Inductive book_link : path → Prop :=
| bl_flow u f : book_link ["books"; u; "flows"; f].

(** A relation on states that the primitive steps respect: opening a lock
    file, taking and releasing locks, cached reads of the paths [Wr],
    writes and directory creation at the paths [Ww], link creation at the
    paths [Wl]. *)
Class Frame (Wr Ww Wl : path → Prop) (R : relation state) := {
  frame_preorder :: PreOrder R;
  frame_open : ∀ l st, R st (open_lock (lock_file l) st);
  frame_lock : ∀ e st, R st (log_lock e st);
  frame_read : ∀ p, Wr p → steps R (_read_from p);
  frame_write : ∀ p c, Ww p → steps R (_write_to p c);
  frame_mkdir : ∀ p, Ww p → steps R (ensure_tree p);
  frame_link : ∀ s p, Wl p → steps R (os_symlink s p)
}.

(** Nodes persist with their kind, links with their target. *)
Definition same_kind (n n' : node) : Prop :=
  match n, n' with
  | File _ _, File _ _ => True
  | Dir, Dir => True
  | Link t, Link t' => t = t'
  | _, _ => False
  end.

Definition keeps_structure (st st' : state) : Prop :=
  ∀ p n, fs st !! p = Some n → ∃ n', fs st' !! p = Some n' ∧ same_kind n n'.

(** The file system is left as it is. *)
Definition same_fs (st st' : state) : Prop := fs st' = fs st.

(** The four lock files, [locks/init], [locks/book], [locks/flow] and
    [locks/task]. *)
Definition lock_files : list path :=
  lock_file <$> [L_init; L_book; L_flow; L_task].

(** The file system is left as it is but for lock files that were not
    there: what was there stays, and nothing else is new. *)
Definition same_data (st st' : state) : Prop :=
  fs st ⊆ fs st' ∧ ∀ p, p ∉ lock_files → fs st' !! p = fs st !! p.

(** The layout stays well-formed and the nodes at the paths [K] stay as
    they are. *)
Definition keeps_layout (K : path → Prop) (st st' : state) : Prop :=
  layout_ok (fs st) →
  layout_ok (fs st') ∧ ∀ q n, K q → fs st !! q = Some n → fs st' !! q = Some n.

(** The cache entry of [p], if any, agrees with the file at [p]. *)
Definition coherent_at (st : state) (p : path) : Prop :=
  ∀ m d m' d',
    file_cache st !! p = Some (Some (m, d)) →
    fs st !! p = Some (File m' d') →
    m' = m ∧ d' = d.

(** The cache holds nothing for a lock file: lock files are never read. *)
Definition cache_off_locks (st : state) : Prop :=
  ∀ p, p ∈ lock_files → file_cache st !! p = None.

(** The store stays well-formed, with a cache that holds nothing for a
    lock file. *)
Definition keeps_ok (st st' : state) : Prop :=
  store_ok st ∧ cache_off_locks st → store_ok st' ∧ cache_off_locks st'.

(** The layout stays well-formed and the cache stays in agreement with
    every file that is not a lock file. *)
Definition coherent_off_locks (st : state) : Prop :=
  layout_ok (fs st) ∧ ∀ p, p ∉ lock_files → coherent_at st p.

Definition keeps_coherent (st st' : state) : Prop :=
  coherent_off_locks st → coherent_off_locks st'.

(** A run that can only end in an exception satisfying [P]. *)
Definition raises_only {A} (P : exn → Prop) (m : M A) : Prop :=
  ∀ st e st', m st = (Raise e, st') → P e.

(** The stack of held locks after a log of lock events. *)
Fixpoint held_after (held : list lock_name) (evs : list lock_event)
  : list lock_name :=
  match evs with
  | [] => held
  | Acquire l :: evs' => held_after (l :: held) evs'
  | Release _ :: evs' => held_after (tail held) evs'
  end.

(** Every acquisition of [inner] in the log happens while [outer] is held. *)
Definition acquired_under (outer inner : lock_name) (evs : list lock_event)
  : Prop :=
  ∀ pre post, evs = pre ++ Acquire inner :: post → outer ∈ held_after [] pre.

(** The log leaves the lock log as it is. *)
Definition same_log (st st' : state) : Prop := lock_log st' = lock_log st.

(** The exceptions of the operating system and of decoding. *)
Definition low_level (e : exn) : Prop :=
  match e with
  | EnvironmentError _ | ValueError | KeyError => True
  | _ => False
  end.

Definition not_NotFound (e : exn) : Prop := e ≠ NotFound.


(** The nodes that saving a childless entity may add: the directories on
    the way to the entity's own directory [dir], and the file [metadata]
    of that directory, holding its metadata document [d]. *)
Definition own_node (dir : path) (d : doc) (p : path) (n : node) : Prop :=
  (n = Dir ∧ p `prefix_of` dir)
  ∨ (p = path_join dir "metadata" ∧ ∃ m, n = File m d).

Definition succeeds {A} (r : result A) : bool :=
  match r with
  | Ok _ => true
  | Raise _ => false
  end.

Global Instance layout_ok_dec (f : gmap path node) : Decision (layout_ok f).
Proof.
  unfold layout_ok.
  apply (map_Forall_dec (λ (p : path) (n : node), is_link n = true ↔ length p = 4%nat)).
Defined.

(** A book saved a second time, carrying another creation time. *)
Definition book_1_again : LogBook := mkLogBook "B1" (Some 5) None "again" [].

(** A book whose flow has no tasks. *)
Definition book_2 : LogBook :=
  mkLogBook "B2" None None "" [mkFlowDetail "F2" "RUNNING" "" []].

(** Running a sequence of operations, whatever their outcomes. *)
Definition run_all (ops : list operation) (st : state) : state :=
  fold_left (λ s op, (run_operation op s).2) ops st.


(** *** More example stores *)

(** A storage root that is a regular file. *)
Definition blocked_store : state :=
  mkState {[ [] := File 0 (Garbage "") ]} ∅ 100 [] [].

(** The paths of the stored entities: the directories [books], [flows] and
    [tasks] and everything below them. *)
Definition data_path (p : path) : Prop :=
  _book_path `prefix_of` p ∨ _flow_path `prefix_of` p ∨ _task_path `prefix_of` p.

Global Instance data_path_dec (p : path) : Decision (data_path p).
Proof. unfold data_path. apply _. Defined.


(** Task [A] of [saved_store] with new scalar fields, and a task that is
    not stored. *)
Definition task_A_done : TaskDetail := mkTaskDetail "A" "DONE" "42" "".
Definition task_Z : TaskDetail := mkTaskDetail "Z" "PENDING" "" "".

(** A lock file that is not there (yet). *)
Definition new_lock_file (st : state) (p : path) : Prop :=
  p ∈ lock_files ∧ fs st !! p = None.

(** Nothing is changed and nothing is added but lock files that were not
    there, and the nodes at the paths [K] and the lock files stay. *)
Definition only_removes (K : path → Prop) (st st' : state) : Prop :=
  (∀ p n, fs st' !! p = Some n → fs st !! p = Some n ∨ new_lock_file st p)
  ∧ ∀ p n, K p ∨ p ∈ lock_files → fs st !! p = Some n → fs st' !! p = Some n.

(** The paths that destroying the book [uuid] has no business with: those
    outside the directory of the book and outside [flows] and [tasks]. *)
Definition outside_book (uuid : string) (p : path) : Prop :=
  ¬ path_join _book_path uuid `prefix_of` p
  ∧ ¬ _flow_path `prefix_of` p
  ∧ ¬ _task_path `prefix_of` p.

(** [book_2] stored in a fresh store. *)
Definition stored_book_2 : state := (save_logbook book_2 fresh_store).2.

(** Whether the node at a path is a symbolic link. *)
Definition link_at (f : gmap path node) (p : path) : bool :=
  match f !! p with
  | Some (Link _) => true
  | _ => false
  end.

(** Nothing is left of the directory [d]. *)
Definition gone (d : path) (st : state) : Prop :=
  ∀ p, d `prefix_of` p → fs st !! p = None.

(** An update of flow [F1] that carries new fields for the attached task
    [A] and the new task [C]. *)
Definition flow_AC : FlowDetail :=
  mkFlowDetail "F1" "SUCCESS" "" [task_A_done; task "C"].

(** The exceptions that are not environment errors and yet are no
    [NotFound]: those of decoding, and storage errors. *)
Definition decoding_or_storage (e : exn) : Prop :=
  e = ValueError ∨ e = KeyError ∨ ∃ c, e = StorageError c.

(** [saved_store] with a metadata file of book [B1] that does not decode. *)
Definition garbled_store : state :=
  set_fs (<[book_metadata "B1" := File 200 (Garbage "{")]> (fs saved_store)) saved_store.

(** A freshly upgraded store in which the document of task [T9] is a
    symbolic link to the lock file of the task lock, which is not there
    yet. *)
Definition dangling_store : state :=
  set_fs (<[path_join _task_path "T9" := Link (lock_file L_task)]> (fs fresh_store))
         fresh_store.

(** Book [B1] of [saved_store] with its flow [F1] carrying task [C] only,
    and flow [F1] without tasks. *)
Definition book_1_C : LogBook := mkLogBook "B1" None None "" [flow_C].
Definition flow_bare : FlowDetail := mkFlowDetail "F1" "SUCCESS" "" [].

(** [saved_store] with a stored task [notes] and, among the links of the
    index directory of flow [F1], a regular file of that name. *)
Definition cluttered_store : state :=
  set_fs (<[path_join (flow_index "F1") "notes" := File 0 (Garbage "")]>
            (<[path_join _task_path "notes" := File 0 (format_task_detail (task "notes"))]>
               (fs saved_store)))
         saved_store.

(** [saved_store] without the lock file of the flow lock, with the
    directory of a second book [B0] whose metadata path is a symbolic
    link to that lock file, and with a cache entry left for that path. *)
Definition stale_store : state :=
  set_cache {[ book_metadata "B0" := Some (500, BookDoc 7 None "") ]}
    (set_fs (<[book_metadata "B0" := Link (lock_file L_flow)]>
               (<[path_join _book_path "B0" := Dir]>
                  (delete (lock_file L_flow) (fs saved_store))))
            saved_store).

(** A flow without tasks that is not stored. *)
Definition flow_new : FlowDetail := mkFlowDetail "F2" "RUNNING" "" [].


(** * Properties *)

(** ** Running monadic code *)

Lemma run_bind {A B} (m : M A) (k : A → M B) (st : state) :
  (m ≫= k) st =
  match m st with
  | (Ok a, st') => k a st'
  | (Raise e, st') => (Raise e, st')
  end.
Proof. reflexivity. Qed.

Lemma run_fmap {A B} (f : A → B) (m : M A) (st : state) :
  (f <$> m) st =
  match m st with
  | (Ok a, st') => (Ok (f a), st')
  | (Raise e, st') => (Raise e, st')
  end.
Proof.
  unfold fmap, M_fmap. rewrite run_bind. by destruct (m st) as [[a|e] st'].
Qed.

Lemma run_try_except {A} (m : M A) (h : exn → option (M A)) (st : state) :
  try_except m h st =
  match m st with
  | (Ok a, st') => (Ok a, st')
  | (Raise e, st') => match h e with Some k => k st' | None => (Raise e, st') end
  end.
Proof. reflexivity. Qed.

Lemma run_lock {A} (l : lock_name) (p : path) (body : M A) (st : state) :
  InterProcessLock l p body st =
  ((body (log_lock (Acquire l) (open_lock p st))).1,
   log_lock (Release l) (body (log_lock (Acquire l) (open_lock p st))).2).
Proof. unfold InterProcessLock. by destruct (body _). Qed.

(** ** Opening a lock file *)

Lemma open_lock_cases (p : path) (st : state) :
  open_lock p st = st
  ∨ (walk (fs st) [] p = None ∧ fs st !! p = None
     ∧ open_lock p st = set_fs (<[p := File (clock st) (Garbage "")]> (fs st)) st).
Proof.
  unfold open_lock. destruct (walk (fs st) [] p); [by left|].
  destruct (fs st !! p); [by left|]. by right.
Qed.

Lemma open_lock_cache p st : file_cache (open_lock p st) = file_cache st.
Proof. by destruct (open_lock_cases p st) as [->|(_ & _ & ->)]. Qed.

Lemma open_lock_clock p st : clock (open_lock p st) = clock st.
Proof. by destruct (open_lock_cases p st) as [->|(_ & _ & ->)]. Qed.

Lemma open_lock_log p st : lock_log (open_lock p st) = lock_log st.
Proof. by destruct (open_lock_cases p st) as [->|(_ & _ & ->)]. Qed.

Lemma open_lock_reads p st : disk_reads (open_lock p st) = disk_reads st.
Proof. by destruct (open_lock_cases p st) as [->|(_ & _ & ->)]. Qed.

Lemma open_lock_subseteq p st : fs st ⊆ fs (open_lock p st).
Proof.
  destruct (open_lock_cases p st) as [->|(_ & Hn & ->)]; [done|].
  by apply insert_subseteq.
Qed.

Lemma open_lock_other p q st : q ≠ p → fs (open_lock p st) !! q = fs st !! q.
Proof.
  intros Hne. destruct (open_lock_cases p st) as [->|(_ & _ & ->)]; [done|].
  cbn [fs set_fs]. by rewrite lookup_insert_ne.
Qed.

Lemma open_lock_there p st :
  is_Some (fs st !! p) → open_lock p st = st.
Proof.
  intros [n Hn]. destruct (open_lock_cases p st) as [->|(_ & Hp & _)]; [done|].
  congruence.
Qed.

Lemma open_lock_again p st : open_lock p (open_lock p st) = open_lock p st.
Proof.
  destruct (open_lock_cases p st) as [E|(Hw & Hp & ->)].
  - by rewrite !E.
  - apply open_lock_there. cbn [fs set_fs]. by rewrite lookup_insert_eq.
Qed.

Lemma locked_cache l st : file_cache (locked l st) = file_cache st.
Proof. apply open_lock_cache. Qed.

Lemma locked_clock l st : clock (locked l st) = clock st.
Proof. apply open_lock_clock. Qed.

Lemma locked_log l st : lock_log (locked l st) = lock_log st ++ [Acquire l].
Proof. unfold locked. cbn [lock_log log_lock]. by rewrite open_lock_log. Qed.

Lemma locked_subseteq l st : fs st ⊆ fs (locked l st).
Proof. apply open_lock_subseteq. Qed.

Lemma elem_of_lock_files l : lock_file l ∈ lock_files.
Proof. destruct l; unfold lock_files; cbn [fmap list_fmap]; repeat constructor. Qed.

Lemma locked_other l q st : q ∉ lock_files → fs (locked l st) !! q = fs st !! q.
Proof.
  intros Hq. apply open_lock_other. intros ->. apply Hq, elem_of_lock_files.
Qed.

(** ** The locked region: which exceptions leave it *)

Lemma run_with_process_lock_eq {A} (l : lock_name) (functor : M A) (st : state) :
  _run_with_process_lock l functor st =
  match functor (locked l st) with
  | (Ok a, st') => (Ok a, log_lock (Release l) st')
  | (Raise e, st') =>
      (Raise (if is_TaskFlowException e then e else StorageError e),
       log_lock (Release l) st')
  end.
Proof.
  unfold _run_with_process_lock. cbv zeta. rewrite run_lock, run_try_except.
  fold (lock_file l). fold (locked l st).
  destruct (functor _) as [[a|e] st']; [done|].
  by destruct (is_TaskFlowException e).
Qed.

(** C5: a function run under [_run_with_process_lock] that returns gives
    its value unchanged; a [TaskFlowException] ([NotFound], [StorageError])
    it raises propagates unchanged; any other exception reaches the caller
    as a [StorageError] whose cause is the original exception.  The lock
    file is opened and the lock taken before, and the lock released after,
    in each case. *)
Theorem run_with_process_lock_outcome {A} (l : lock_name) (functor : M A)
    (st : state) :
  let inside := locked l st in
  let after := log_lock (Release l) (functor inside).2 in
  (∀ a, (functor inside).1 = Ok a →
        _run_with_process_lock l functor st = (Ok a, after))
  ∧ (∀ e, (functor inside).1 = Raise e → is_TaskFlowException e = true →
          _run_with_process_lock l functor st = (Raise e, after))
  ∧ (∀ e, (functor inside).1 = Raise e → is_TaskFlowException e = false →
          _run_with_process_lock l functor st = (Raise (StorageError e), after)).
Proof.
  intros inside after. subst inside after.
  rewrite run_with_process_lock_eq.
  destruct (functor _) as [[a|e] st']; simpl; repeat split; intros; simplify_eq; try done.
  - by rewrite H0.
  - by rewrite H0.
Qed.

(** ** Path resolution under updates *)

Lemma walk_insert (f : gmap path node) (pre rest r : path) (n : node) :
  (length pre + length rest ≤ length r)%nat →
  walk (<[r := n]> f) pre rest = walk f pre rest.
Proof.
  revert pre. induction rest as [|c rest IH]; intros pre Hlen; [done|].
  simpl in *. rewrite lookup_insert_ne.
  - destruct (f !! pre) as [[]|]; try done.
    apply IH. rewrite length_app. simpl. lia.
  - intros ->. lia.
Qed.

Lemma realpath_not_link (k : nat) (f : gmap path node) (p r : path) :
  realpath k f p = inr r → ∀ t, f !! r ≠ Some (Link t).
Proof.
  revert p. induction k as [|k IH]; intros p; simpl.
  - destruct (f !! p) as [[]|] eqn:E; intros; simplify_eq; congruence.
  - destruct (f !! p) as [[]|] eqn:E; intros; simplify_eq; try congruence.
    by eapply IH.
Qed.

Lemma realpath_insert (k : nat) (f : gmap path node) (p r : path) (n : node) :
  realpath k f p = inr r → is_link n = false →
  realpath k (<[r := n]> f) p = inr r.
Proof.
  intros Hr Hn. pose proof (realpath_not_link _ _ _ _ Hr) as Hnl.
  revert p Hr. induction k as [|k IH]; intros p; simpl.
  - destruct (f !! p) as [[]|] eqn:E; intros; simplify_eq;
      rewrite lookup_insert_eq; by destruct n.
  - destruct (f !! p) as [[]|] eqn:E; intros Hr; simplify_eq;
      try (rewrite lookup_insert_eq; by destruct n).
    rewrite lookup_insert_ne; [by rewrite E; apply IH|].
    intros ->. by eapply Hnl.
Qed.

Lemma realpath_of_plain (k : nat) (f : gmap path node) (p : path) :
  (∀ t, f !! p ≠ Some (Link t)) → realpath k f p = inr p.
Proof. intros H. destruct k; simpl; destruct (f !! p) as [[]|] eqn:E; try done; by destruct (H target). Qed.

(** ** The file cache *)

Lemma getmtime_of_file (p : path) (st : state) (mtime : Z) (data : doc) :
  stat (fs st) p = inr (File mtime data) →
  os_path_getmtime p st = (Ok mtime, st).
Proof. unfold os_path_getmtime. by intros ->. Qed.

Lemma open_read_of_file (p : path) (st : state) (mtime : Z) (data : doc) :
  stat (fs st) p = inr (File mtime data) →
  open_read p st = (Ok data, log_read p st).
Proof. unfold open_read. by intros ->. Qed.

Lemma read_from_reread (p : path) (st : state) (mtime : Z) (data : doc) :
  stat (fs st) p = inr (File mtime data) →
  must_reread st p mtime = true →
  _read_from p st = (Ok data, refreshed p mtime data st).
Proof.
  intros Hst Hre. unfold _read_from.
  rewrite run_bind, (getmtime_of_file _ _ _ _ Hst).
  unfold must_reread, cached in Hre.
  rewrite run_bind. unfold cache_setdefault.
  destruct (file_cache st !! p) as [[[cm cd]|]|] eqn:E; simpl.
  - rewrite Hre. simpl. rewrite !run_bind.
    erewrite open_read_of_file by exact Hst.
    unfold cache_fill, modify, cache_data. simpl.
    rewrite lookup_insert_eq. done.
  - rewrite !run_bind.
    erewrite open_read_of_file by exact Hst.
    unfold cache_fill, modify, cache_data. simpl.
    rewrite lookup_insert_eq. done.
  - rewrite !run_bind.
    erewrite open_read_of_file by exact Hst.
    unfold cache_fill, modify, cache_data. simpl.
    rewrite lookup_insert_eq, insert_insert_eq. done.
Qed.

Lemma read_from_cached (p : path) (st : state) (mtime cm : Z) (data cd : doc) :
  stat (fs st) p = inr (File mtime data) →
  cached st p = Some (cm, cd) → mtime ≤ cm →
  _read_from p st = (Ok cd, st).
Proof.
  intros Hst Hc Hle. unfold _read_from.
  rewrite run_bind, (getmtime_of_file _ _ _ _ Hst).
  unfold cached in Hc. rewrite run_bind. unfold cache_setdefault.
  destruct (file_cache st !! p) as [ci|] eqn:E; [subst ci|done]. simpl.
  rewrite bool_decide_eq_false_2 by lia. rewrite run_bind. simpl.
  unfold cache_data. by rewrite E.
Qed.

Lemma open_write_eq (p : path) (contents : doc) (st : state) :
  open_write p contents st =
  match realpath MAXSYMLINKS (fs st) p with
  | inl e => (Raise (EnvironmentError (Some e)), st)
  | inr r =>
      match walk (fs st) [] r with
      | Some e => (Raise (EnvironmentError (Some e)), st)
      | None =>
          match fs st !! r with
          | Some Dir => (Raise (EnvironmentError (Some EISDIR)), st)
          | _ => (Ok (), set_clock (clock st + 1)
                           (set_fs (<[r := File (clock st) contents]> (fs st)) st))
          end
      end
  end.
Proof.
  unfold open_write. rewrite run_bind. unfold open_wb, fp_write.
  destruct (realpath _ _ _) as [e|r]; [done|].
  destruct (walk _ _ _); [done|].
  destruct (fs st !! r) as [[]|]; cbn [fs clock set_fs set_clock];
    by rewrite ?insert_insert_eq.
Qed.

Lemma open_write_ok (p : path) (contents : doc) (st st' : state) :
  open_write p contents st = (Ok (), st') →
  ∃ r, realpath MAXSYMLINKS (fs st) p = inr r
       ∧ walk (fs st) [] r = None
       ∧ fs st !! r ≠ Some Dir
       ∧ st' = set_clock (clock st + 1)
                 (set_fs (<[r := File (clock st) contents]> (fs st)) st).
Proof.
  rewrite open_write_eq.
  destruct (realpath _ _ _) as [e|r] eqn:Er; [done|].
  destruct (walk _ _ _) eqn:Ew; [done|].
  destruct (fs st !! r) as [[]|] eqn:El; intros; simplify_eq; exists r; by rewrite ?El.
Qed.

Lemma open_write_fail (p : path) (contents : doc) (st st' : state) (e : exn) :
  open_write p contents st = (Raise e, st') →
  st' = st ∧ ∃ c, e = EnvironmentError (Some c).
Proof.
  rewrite open_write_eq.
  destruct (realpath _ _ _) as [c|r] eqn:Er; [intros; simplify_eq; eauto|].
  destruct (walk _ _ _) eqn:Ew; [intros; simplify_eq; eauto|].
  destruct (fs st !! r) as [[]|] eqn:El; intros; simplify_eq; eauto.
Qed.

Lemma write_to_eq (p : path) (contents : doc) (st : state) :
  _write_to p contents st =
  match open_write p contents st with
  | (Ok _, st') => (Ok (), set_cache (delete p (file_cache st')) st')
  | (Raise e, st') => (Raise e, st')
  end.
Proof. unfold _write_to. rewrite run_bind. by destruct (open_write _ _ _) as [[[]|] ?]. Qed.

Lemma stat_after_write (f : gmap path node) (p r : path) (m : Z) (d : doc) :
  realpath MAXSYMLINKS f p = inr r → walk f [] r = None →
  stat (<[r := File m d]> f) p = inr (File m d).
Proof.
  intros Hr Hw. unfold stat, lstat.
  rewrite (realpath_insert _ _ _ _ _ Hr) by done.
  rewrite walk_insert by (simpl; lia). rewrite Hw.
  by rewrite lookup_insert_eq.
Qed.

(** C8: a read of a file re-reads it from disk (and refreshes the entry)
    exactly when the cache holds nothing for the path or the file is
    strictly newer than the cached time, and returns the cached content
    otherwise, touching nothing; every write that succeeds, whether it
    creates the file or overwrites it, puts the content on disk and
    removes the entry of the path, so that the next read of the path is
    from disk. *)
Theorem file_cache_read_write (p : path) (st : state) :
  (∀ mtime data, stat (fs st) p = inr (File mtime data) →
     (must_reread st p mtime = true →
        _read_from p st = (Ok data, refreshed p mtime data st))
     ∧ (∀ cm cd, cached st p = Some (cm, cd) → mtime ≤ cm →
          _read_from p st = (Ok cd, st))
     ∧ (disk_reads (_read_from p st).2 = disk_reads st ++ [p]
          ↔ must_reread st p mtime = true))
  ∧ (∀ contents st', _write_to p contents st = (Ok (), st') →
       stat (fs st') p = inr (File (clock st) contents)
       ∧ file_cache st' !! p = None
       ∧ _read_from p st' = (Ok contents, refreshed p (clock st) contents st')).
Proof.
  split.
  - intros mtime data Hfile. split_and!.
    + by apply read_from_reread.
    + intros. by eapply read_from_cached.
    + destruct (must_reread st p mtime) eqn:Hre.
      * rewrite (read_from_reread _ _ _ _ Hfile Hre). done.
      * unfold must_reread in Hre.
        destruct (cached st p) as [[cm cd]|] eqn:Hc; [|done].
        apply bool_decide_eq_false in Hre.
        rewrite (read_from_cached _ _ _ _ _ _ Hfile Hc) by lia.
        split; [|done]. intros Heq.
        apply (f_equal length) in Heq. rewrite length_app in Heq. simpl in Heq. lia.
  - intros contents st' Hw. rewrite write_to_eq in Hw.
    destruct (open_write p contents st) as [[[]|e] st1] eqn:Ho; [|done].
    simplify_eq. apply open_write_ok in Ho as (r & Hr & Hwalk & _ & ->). simpl.
    assert (Hs : stat (<[r := File (clock st) contents]> (fs st)) p
                 = inr (File (clock st) contents)) by by apply stat_after_write.
    split_and!; [done|by rewrite lookup_delete_eq|].
    apply read_from_reread; [done|].
    unfold must_reread, cached. simpl. by rewrite lookup_delete_eq.
Qed.


(** ** Invariance along a run: the generic rules *)

Section steps_rules.
Context (R : relation state) `{!PreOrder R}.

Lemma steps_pure {A} (m : M A) : pure_run m → steps R m.
Proof. intros H st. rewrite H. reflexivity. Qed.

Lemma steps_bind {A B} (m : M A) (k : A → M B) :
  steps R m → (∀ a, steps R (k a)) → steps R (m ≫= k).
Proof.
  intros Hm Hk st. rewrite run_bind.
  specialize (Hm st). destruct (m st) as [[a|e] st1]; [|done].
  etrans; [exact Hm|]. apply Hk.
Qed.

Lemma steps_fmap {A B} (f : A → B) (m : M A) :
  steps R m → steps R (f <$> m).
Proof.
  intros Hm st. rewrite run_fmap.
  specialize (Hm st). by destruct (m st) as [[a|e] st1].
Qed.

Lemma steps_try_except {A} (m : M A) (h : exn → option (M A)) :
  steps R m → (∀ e k, h e = Some k → steps R k) →
  steps R (try_except m h).
Proof.
  intros Hm Hh st. rewrite run_try_except.
  specialize (Hm st). destruct (m st) as [[a|e] st1]; [done|].
  destruct (h e) as [k|] eqn:E; [|done].
  etrans; [exact Hm|]. by eapply Hh.
Qed.

Lemma steps_for_each {A} (xs : list A) (body : A → M unit) :
  (∀ x, x ∈ xs → steps R (body x)) → steps R (for_each xs body).
Proof.
  induction xs as [|x xs IH]; intros H; simpl.
  - by apply steps_pure.
  - apply steps_bind; [apply H; left|intros _; apply IH].
    intros y Hy. apply H. by right.
Qed.

Lemma steps_fold_M {A B} (body : B → A → M B) (xs : list A) (acc : B) :
  (∀ b x, steps R (body b x)) → steps R (fold_M body xs acc).
Proof.
  intros H. revert acc. induction xs as [|x xs IH]; intros acc; simpl.
  - by apply steps_pure.
  - apply steps_bind; [apply H|intros b; apply IH].
Qed.

Lemma steps_filter_M {A} (test : A → M bool) (xs : list A) :
  (∀ x, steps R (test x)) → steps R (filter_M test xs).
Proof.
  intros H. induction xs as [|x xs IH]; simpl.
  - by apply steps_pure.
  - apply steps_bind; [apply H|intros b].
    apply steps_bind; [apply IH|intros ys]. by apply steps_pure.
Qed.

Lemma steps_locked (l : lock_name) (st : state) :
  (∀ l st, R st (open_lock (lock_file l) st)) ∧ (∀ e st, R st (log_lock e st)) →
  R st (locked l st).
Proof. intros [Ho Hl]. etrans; [apply Ho|apply Hl]. Qed.

Lemma steps_lock {A} (l : lock_name) (body : M A) :
  (∀ l st, R st (open_lock (lock_file l) st)) ∧ (∀ e st, R st (log_lock e st)) →
  steps R body →
  steps R (_run_with_process_lock l body).
Proof.
  intros Hl Hb st. rewrite run_with_process_lock_eq.
  specialize (Hb (locked l st)).
  destruct (body _) as [[a|e] st1]; simpl in *.
  - etrans; [by apply steps_locked|]. etrans; [exact Hb|]. apply Hl.
  - etrans; [by apply steps_locked|]. etrans; [exact Hb|]. apply Hl.
Qed.
End steps_rules.

(** ** Primitive steps that leave the state alone *)

Lemma pure_ret {A} (a : A) : pure_run (mret a).
Proof. done. Qed.
Lemma pure_raise {A} (e : exn) : pure_run (raise (A:=A) e).
Proof. done. Qed.
Lemma pure_getmtime p : pure_run (os_path_getmtime p).
Proof. intros st. unfold os_path_getmtime. by repeat case_match. Qed.
Lemma pure_listdir p : pure_run (os_listdir p).
Proof. intros st. unfold os_listdir. by repeat case_match. Qed.
Lemma pure_isdir p : pure_run (os_path_isdir p).
Proof. intros st. unfold os_path_isdir. by repeat case_match. Qed.
Lemma pure_islink p : pure_run (os_path_islink p).
Proof. intros st. unfold os_path_islink. by repeat case_match. Qed.
Lemma pure_utcnow : pure_run utcnow.
Proof. done. Qed.
Lemma pure_decode_json d : pure_run (decode_json d).
Proof. by destruct d. Qed.
Lemma pure_unformat_task u d : pure_run (unformat_task_detail u d).
Proof. by destruct d. Qed.
Lemma pure_unformat_flow u d : pure_run (unformat_flow_detail u d).
Proof. by destruct d. Qed.
Lemma pure_unformat_logbook u d : pure_run (unformat_logbook u d).
Proof. by destruct d. Qed.
Lemma pure_format_logbook lb c : pure_run (format_logbook lb c).
Proof. done. Qed.

Lemma pure_bind {A B} (m : M A) (k : A → M B) :
  pure_run m → (∀ a, pure_run (k a)) → pure_run (m ≫= k).
Proof.
  intros Hm Hk st. rewrite run_bind. specialize (Hm st).
  destruct (m st) as [[a|e] st1]; simpl in *; subst; [apply Hk|done].
Qed.

Lemma pure_filter_M {A} (test : A → M bool) (xs : list A) :
  (∀ x, pure_run (test x)) → pure_run (filter_M test xs).
Proof.
  intros H. induction xs as [|x xs IH]; simpl; [done|].
  apply pure_bind; [done|intros b]. apply pure_bind; [done|intros ys]. done.
Qed.

Lemma pure_try_except {A} (m : M A) (h : exn → option (M A)) :
  pure_run m → (∀ e k, h e = Some k → pure_run k) → pure_run (try_except m h).
Proof.
  intros Hm Hh st. rewrite run_try_except. specialize (Hm st).
  destruct (m st) as [[a|e] st1]; simpl in *; subst; [done|].
  destruct (h e) as [k|] eqn:E; [by eapply Hh|done].
Qed.

Lemma unless_errno_Some {A} code (otherwise : M A) e k :
  unless_errno code otherwise e = Some k →
  k = otherwise ∨ k = raise e.
Proof.
  unfold unless_errno. destruct e; try done. case_decide; intros; simplify_eq; eauto.
Qed.

Lemma pure_list_links d : pure_run (list_links d).
Proof.
  apply pure_bind; [apply pure_listdir|intros names].
  apply pure_filter_M. intros f. apply pure_islink.
Qed.

Lemma pure_list_links_guarded d :
  pure_run (try_except (list_links d) (unless_errno ENOENT (mret []))).
Proof.
  apply pure_try_except; [apply pure_list_links|].
  intros e k [->| ->]%unless_errno_Some; done.
Qed.

(** ** Invariance along the operations *)

Lemma frame_locks {Wr Ww Wl : path → Prop} {R : relation state}
    `{!Frame Wr Ww Wl R} :
  (∀ l st, R st (open_lock (lock_file l) st)) ∧ (∀ e st, R st (log_lock e st)).
Proof. split; [apply frame_open|apply frame_lock]. Qed.

Section frames.
Context (Wr Ww Wl : path → Prop) (R : relation state) `{!Frame Wr Ww Wl R}.

Local Hint Resolve pure_ret pure_raise pure_getmtime pure_listdir pure_isdir
  pure_islink pure_utcnow pure_decode_json pure_unformat_task
  pure_unformat_flow pure_unformat_logbook pure_format_logbook
  pure_list_links pure_list_links_guarded : core.

Ltac pure_step := apply steps_pure; [apply _|]; auto.

Hypothesis lower_Wr : ∀ p, lower_path p → Wr p.

Lemma steps_get_task_details uuid lock : steps R (_get_task_details uuid lock).
Proof.
  unfold _get_task_details.
  match goal with |- steps R (if lock then _run_with_process_lock _ ?g else _) =>
    assert (steps R g) as Hget end.
  { apply steps_bind; [apply _| |intros d; pure_step].
    apply steps_bind; [apply _| |intros d; pure_step].
    apply frame_read, lower_Wr. constructor. }
  destruct lock; [|exact Hget].
  apply steps_lock; [apply _|apply frame_locks|exact Hget].
Qed.

Lemma steps_get_flow_details uuid lock : steps R (_get_flow_details uuid lock).
Proof.
  unfold _get_flow_details.
  match goal with |- steps R (if lock then _run_with_process_lock _ ?g else _) =>
    assert (steps R g) as Hget end.
  { apply steps_bind; [apply _| |intros meta].
    { apply steps_bind; [apply _| |intros d; pure_step].
      apply frame_read, lower_Wr. constructor. }
    apply steps_bind; [apply _|pure_step|intros fd].
    apply steps_bind; [apply _|pure_step|intros tds].
    apply steps_fold_M; [apply _|]. intros b x.
    apply steps_bind; [apply _|apply steps_get_task_details|intros td; pure_step]. }
  destruct lock; [|exact Hget].
  apply steps_lock; [apply _|apply frame_locks|exact Hget].
Qed.

Lemma steps_link_child src target : Wl target → steps R (link_child src target).
Proof.
  intros H. apply steps_try_except; [apply _|by apply frame_link|].
  intros e k [->| ->]%unless_errno_Some; pure_step.
Qed.

Lemma steps_probe_existing {A} (get : M A) ignore_missing :
  steps R get → steps R (probe_existing get ignore_missing).
Proof.
  intros H. apply steps_try_except; [apply _|by apply steps_fmap|].
  intros e k Hk. destruct (is_EnvironmentError e); simplify_eq.
  destruct ignore_missing; pure_step.
Qed.

Hypothesis lower_Ww : ∀ p, lower_path p → Ww p.
Hypothesis lower_Wl : ∀ p, lower_link p → Wl p.

Lemma steps_save_task_details td ignore_missing :
  steps R (_save_task_details td ignore_missing).
Proof.
  unfold _save_task_details.
  apply steps_bind; [apply _| |intros e_td].
  { apply steps_probe_existing, steps_get_task_details. }
  apply steps_bind; [apply _| |intros _; pure_step].
  apply frame_write, lower_Ww. destruct e_td; constructor.
Qed.

Lemma steps_save_tasks_and_link tds dir :
  (∀ u, Wl (dir ++ [u])) → steps R (_save_tasks_and_link tds dir).
Proof.
  intros Hd. apply steps_for_each; [apply _|]. intros td _.
  apply steps_bind; [apply _|apply steps_save_task_details|intros _].
  apply steps_link_child, Hd.
Qed.

Lemma steps_save_flow_details fd ignore_missing :
  steps R (_save_flow_details fd ignore_missing).
Proof.
  unfold _save_flow_details.
  apply steps_bind; [apply _| |intros e_fd].
  { apply steps_probe_existing, steps_get_flow_details. }
  apply steps_bind; [apply _| |intros _].
  { apply frame_mkdir, lower_Ww. constructor. }
  apply steps_bind; [apply _| |intros _].
  { apply frame_write, lower_Ww. constructor. }
  apply steps_bind; [apply _| |intros _; pure_step].
  case_bool_decide; [|pure_step].
  apply steps_bind; [apply _| |intros _].
  { apply frame_mkdir, lower_Ww. constructor. }
  apply steps_lock; [apply _|apply frame_locks|].
  apply steps_save_tasks_and_link. intros u. apply lower_Wl. constructor.
Qed.

Lemma steps_save_flows_and_link fds dir :
  (∀ u, Wl (dir ++ [u])) → steps R (_save_flows_and_link fds dir).
Proof.
  intros Hd. apply steps_for_each; [apply _|]. intros fd _.
  apply steps_bind; [apply _|apply steps_save_flow_details|intros _].
  apply steps_link_child, Hd.
Qed.

Lemma steps_update_task_details td : steps R (update_task_details td).
Proof. apply steps_lock; [apply _|apply frame_locks|apply steps_save_task_details]. Qed.

Lemma steps_update_flow_details fd : steps R (update_flow_details fd).
Proof. apply steps_lock; [apply _|apply frame_locks|apply steps_save_flow_details]. Qed.

Hypothesis book_Wr : ∀ p, book_path p → Wr p.

Lemma steps_get_logbook uuid : steps R (_get_logbook uuid).
Proof.
  unfold _get_logbook.
  apply steps_bind; [apply _| |intros meta].
  { apply steps_try_except; [apply _| |].
    - apply steps_bind; [apply _| |intros d; pure_step].
      apply frame_read, book_Wr. constructor.
    - intros e k Hk. destruct e; simplify_eq. case_decide; simplify_eq; pure_step. }
  apply steps_bind; [apply _|pure_step|intros lb].
  apply steps_bind; [apply _|pure_step|intros fds].
  apply steps_fold_M; [apply _|]. intros b x.
  apply steps_bind; [apply _|apply steps_get_flow_details|intros fd; pure_step].
Qed.

Lemma steps_get_logbook_locked uuid : steps R (get_logbook uuid).
Proof. apply steps_lock; [apply _|apply frame_locks|apply steps_get_logbook]. Qed.

Lemma steps_get_logbooks : steps R get_logbooks.
Proof.
  apply steps_try_except; [apply _| |].
  - apply steps_bind; [apply _| |intros uuids].
    + apply steps_pure; [apply _|]. apply pure_try_except.
      * apply pure_bind; [done|intros names]. apply pure_filter_M. auto.
      * intros e k [->| ->]%unless_errno_Some; done.
    + apply steps_fold_M; [apply _|]. intros acc u.
      apply steps_try_except; [apply _| |].
      * apply steps_bind; [apply _|apply steps_get_logbook|intros lb; pure_step].
      * intros e k Hk. destruct e; simplify_eq. pure_step.
  - intros e k Hk. destruct (is_EnvironmentError e); simplify_eq. pure_step.
Qed.

Hypothesis book_Ww : ∀ p, book_path p → Ww p.
Hypothesis book_Wl : ∀ p, book_link p → Wl p.

Lemma steps_save_logbook_unlocked book : steps R (_save_logbook book).
Proof.
  unfold _save_logbook.
  apply steps_bind; [apply _| |intros e_lb].
  { apply steps_try_except; [apply _| |].
    - apply steps_fmap. apply steps_get_logbook.
    - intros e k Hk. destruct e; simplify_eq. pure_step. }
  apply steps_bind; [apply _| |intros _].
  { apply frame_mkdir, book_Ww. constructor. }
  apply steps_bind; [apply _|pure_step|intros meta].
  apply steps_bind; [apply _| |intros _].
  { apply frame_write, book_Ww. constructor. }
  apply steps_bind; [apply _| |intros _; pure_step].
  case_bool_decide; [|pure_step].
  apply steps_bind; [apply _| |intros _].
  { apply frame_mkdir, book_Ww. constructor. }
  apply steps_lock; [apply _|apply frame_locks|].
  apply steps_save_flows_and_link. intros u. apply book_Wl. constructor.
Qed.

Lemma steps_save_logbook book : steps R (save_logbook book).
Proof. apply steps_lock; [apply _|apply frame_locks|apply steps_save_logbook_unlocked]. Qed.
End frames.


(** ** What the primitive steps do to the file system *)

Lemma read_from_same_fs (p : path) (st : state) : fs (_read_from p st).2 = fs st.
Proof.
  revert st. change (steps same_fs (_read_from p)).
  assert (PreOrder same_fs) by (split; unfold same_fs; [done|congruence]).
  unfold _read_from.
  apply steps_bind; [done|apply steps_pure, pure_getmtime; done|intros mtime].
  apply steps_bind; [done| |intros ci].
  { intros st. unfold cache_setdefault. by destruct (file_cache st !! p). }
  apply steps_bind; [done| |intros _].
  - case_match; [|by apply steps_pure].
    apply steps_bind; [done| |intros d; done].
    intros st. unfold open_read. by destruct (stat (fs st) p) as [?|[]].
  - intros st. unfold cache_data. by repeat case_match.
Qed.

Lemma ensure_dirs_grows (f : gmap path node) (pre rest : path) (q : path) (n : node) :
  f !! q = Some n → (ensure_dirs f pre rest).1 !! q = Some n.
Proof.
  revert f pre. induction rest as [|c rest IH]; intros f pre Hq; simpl.
  - destruct (f !! pre) as [[]|] eqn:E; simpl; try done.
    + by destruct (stat f pre) as [?|[]].
    + rewrite lookup_insert_ne; [done|congruence].
  - destruct (f !! pre) as [[]|] eqn:E; simpl; try done.
    + by apply IH.
    + apply IH. rewrite lookup_insert_ne; [done|congruence].
Qed.

Lemma ensure_dirs_new (f : gmap path node) (pre rest : path) (q : path) (n : node) :
  (ensure_dirs f pre rest).1 !! q = Some n →
  f !! q = Some n ∨ (f !! q = None ∧ n = Dir
                     ∧ (length q ≤ length pre + length rest)%nat).
Proof.
  revert f pre. induction rest as [|c rest IH]; intros f pre; simpl.
  - destruct (f !! pre) as [[]|] eqn:E; simpl; eauto.
    + destruct (stat f pre) as [?|[]]; eauto.
    + destruct (decide (q = pre)) as [->|Hne].
      * rewrite lookup_insert_eq. intros ?; simplify_eq. right. split_and!; [done..|lia].
      * rewrite lookup_insert_ne by done. eauto.
  - destruct (f !! pre) as [[]|] eqn:E; simpl; eauto.
    + intros [H|(?&?&?)]%IH; eauto. right. split_and!; try done.
      rewrite length_app in *. simpl in *. lia.
    + intros [H|(H&?&?)]%IH.
      * destruct (decide (q = pre)) as [->|Hne].
        -- rewrite lookup_insert_eq in H. simplify_eq. right. split_and!; [done..|lia].
        -- rewrite lookup_insert_ne in H by done. eauto.
      * destruct (decide (q = pre)) as [->|Hne].
        -- by rewrite lookup_insert_eq in H.
        -- rewrite lookup_insert_ne in H by done.
           right. split_and!; try done. rewrite length_app in *. simpl in *. lia.
Qed.

Lemma ensure_tree_fs (p : path) (st : state) :
  fs (ensure_tree p st).2 = (ensure_dirs (fs st) [] p).1.
Proof. unfold ensure_tree. by destruct (ensure_dirs _ _ _) as [f' [e|]]. Qed.

Lemma ensure_tree_cache (p : path) (st : state) :
  file_cache (ensure_tree p st).2 = file_cache st.
Proof. unfold ensure_tree. by destruct (ensure_dirs _ _ _) as [f' [e|]]. Qed.

Lemma symlink_fs (src dst : path) (st : state) :
  (∃ e, os_symlink src dst st = (Raise e, st))
  ∨ (fs st !! dst = None
     ∧ os_symlink src dst st = (Ok (), set_fs (<[dst := Link src]> (fs st)) st)).
Proof.
  unfold os_symlink. destruct (walk _ _ _); [eauto|].
  destruct (fs st !! dst); eauto.
Qed.

Lemma write_to_fs (p : path) (c : doc) (st : state) :
  (∃ e, _write_to p c st = (Raise e, st))
  ∨ (∃ r, realpath MAXSYMLINKS (fs st) p = inr r
          ∧ walk (fs st) [] r = None
          ∧ fs st !! r ≠ Some Dir
          ∧ _write_to p c st =
              (Ok (), set_cache (delete p (file_cache st))
                        (set_clock (clock st + 1)
                           (set_fs (<[r := File (clock st) c]> (fs st)) st)))).
Proof.
  rewrite write_to_eq.
  destruct (open_write p c st) as [[[]|e] st1] eqn:E.
  - apply open_write_ok in E as (r & ? & ? & ? & ->). right. exists r. done.
  - apply open_write_fail in E as [-> _]. eauto.
Qed.

Lemma realpath_layout (f : gmap path node) (p : path) :
  layout_ok f → length p ≠ 4%nat → realpath MAXSYMLINKS f p = inr p.
Proof.
  intros Hl Hp. apply realpath_of_plain. intros t Ht.
  apply Hl in Ht. simpl in Ht. apply Hp, Ht. done.
Qed.

(** ** Relations that the operations respect *)

Lemma same_kind_refl (n : node) : same_kind n n.
Proof. by destruct n. Qed.

Local Hint Resolve same_kind_refl : core.

Lemma same_kind_trans n1 n2 n3 : same_kind n1 n2 → same_kind n2 n3 → same_kind n1 n3.
Proof. destruct n1, n2, n3; simpl; try done; congruence. Qed.

Global Instance keeps_structure_preorder : PreOrder keeps_structure.
Proof.
  split.
  - intros st p n H. eauto.
  - intros st1 st2 st3 H1 H2 p n H.
    destruct (H1 _ _ H) as (n' & H' & ?). destruct (H2 _ _ H') as (n'' & ? & ?).
    eauto using same_kind_trans.
Qed.

Global Instance keeps_structure_frame :
  Frame (λ _, True) (λ _, True) (λ _, True) keeps_structure.
Proof.
  split; [apply _|..].
  - intros l st p n H. exists n. split; [|done].
    by eapply lookup_weaken; [|apply open_lock_subseteq].
  - intros e st p n H. eauto.
  - intros p _ st q n H. rewrite read_from_same_fs. eauto.
  - intros p c _ st q n H.
    destruct (write_to_fs p c st) as [[e ->]|(r & Hr & _ & Hd & ->)]; simpl; [eauto|].
    destruct (decide (q = r)) as [->|Hne].
    + rewrite lookup_insert_eq. eexists; split; [done|].
      destruct n; simpl; try done. by eapply realpath_not_link.
    + rewrite lookup_insert_ne by done. eauto.
  - intros p _ st q n H. rewrite ensure_tree_fs.
    erewrite ensure_dirs_grows by done. eauto.
  - intros s p _ st q n H.
    destruct (symlink_fs s p st) as [[e ->]|[Hn ->]]; simpl; [eauto|].
    rewrite lookup_insert_ne by congruence. eauto.
Qed.

Global Instance same_fs_preorder : PreOrder same_fs.
Proof. split; unfold same_fs; [done|congruence]. Qed.

Global Instance same_data_preorder : PreOrder same_data.
Proof.
  split.
  - by intros st.
  - intros st1 st2 st3 [H1 H1'] [H2 H2']. split; [by etrans|].
    intros p Hp. by rewrite H2', H1'.
Qed.

Lemma same_data_of_same_fs st st' : fs st' = fs st → same_data st st'.
Proof. intros E. split; [by rewrite E|]. intros p _. by rewrite E. Qed.

Lemma open_lock_same_data l st : same_data st (open_lock (lock_file l) st).
Proof.
  split; [apply open_lock_subseteq|]. intros p Hp.
  apply open_lock_other. intros ->. apply Hp, elem_of_lock_files.
Qed.

Lemma locked_same_data l st : same_data st (locked l st).
Proof. apply open_lock_same_data. Qed.

Global Instance same_data_frame :
  Frame (λ _, True) (λ _, False) (λ _, False) same_data.
Proof.
  split; [apply _| | | |done..].
  - apply open_lock_same_data.
  - intros e st. by apply same_data_of_same_fs.
  - intros p _ st. apply same_data_of_same_fs, read_from_same_fs.
Qed.

Lemma lock_file_length l : length (lock_file l) = 2%nat.
Proof. by destruct l. Qed.

Global Instance keeps_layout_preorder K : PreOrder (keeps_layout K).
Proof.
  split.
  - intros st H. eauto.
  - intros st1 st2 st3 H1 H2 H. destruct (H1 H) as [H' Hk].
    destruct (H2 H') as [H'' Hk']. eauto.
Qed.

Lemma layout_insert (f : gmap path node) (p : path) (n : node) :
  layout_ok f → (is_link n = true ↔ length p = 4%nat) → layout_ok (<[p := n]> f).
Proof.
  intros Hl Hn q m. destruct (decide (q = p)) as [->|Hne].
  - rewrite lookup_insert_eq. by intros [= <-].
  - rewrite lookup_insert_ne by done. apply Hl.
Qed.

Global Instance keeps_layout_frame K :
  Frame (λ _, True)
        (λ p, (length p ≤ 3)%nat ∧ ¬ K p)
        (λ p, length p = 4%nat)
        (keeps_layout K).
Proof.
  split; [apply _|..].
  - intros l st H. split.
    + destruct (open_lock_cases (lock_file l) st) as [->|(_ & _ & ->)]; [done|].
      cbn [fs set_fs]. apply layout_insert; [done|].
      rewrite lock_file_length. by split.
    + intros q n _ Hq. by eapply lookup_weaken; [|apply open_lock_subseteq].
  - intros e st H. eauto.
  - intros p _ st H. rewrite read_from_same_fs. eauto.
  - intros p c [Hp HK] st H.
    destruct (write_to_fs p c st) as [[e ->]|(r & Hr & _ & Hd & ->)]; simpl; [eauto|].
    rewrite realpath_layout in Hr by (done || lia). simplify_eq. split.
    + apply layout_insert; [done|]. simpl. split; [done|lia].
    + intros q n Hq Hn. rewrite lookup_insert_ne; [done|]. by intros ->.
  - intros p [Hp HK] st H. rewrite ensure_tree_fs. split.
    + intros q n [Hq|(_ & -> & Hlen)]%ensure_dirs_new; [by apply H|].
      simpl in *. split; [done|lia].
    + intros q n _ Hn. by apply ensure_dirs_grows.
  - intros s p Hp st H.
    destruct (symlink_fs s p st) as [[e ->]|[Hn ->]]; simpl; [eauto|]. split.
    + by apply layout_insert.
    + intros q n _ Hq. rewrite lookup_insert_ne; [done|congruence].
Qed.

Lemma layout_locked l st : layout_ok (fs st) → layout_ok (fs (locked l st)).
Proof.
  intros H.
  exact (proj1 (@frame_open _ _ _ _ (keeps_layout_frame (λ _, False)) l st H)).
Qed.

(** ** Taking successful runs apart *)

Lemma bind_Ok {A B} (m : M A) (k : A → M B) st b st' :
  (m ≫= k) st = (Ok b, st') →
  ∃ a st1, m st = (Ok a, st1) ∧ k a st1 = (Ok b, st').
Proof.
  rewrite run_bind. destruct (m st) as [[a|e] st1]; [eauto|done].
Qed.

Lemma fmap_Ok {A B} (f : A → B) (m : M A) st b st' :
  (f <$> m) st = (Ok b, st') → ∃ a, m st = (Ok a, st') ∧ b = f a.
Proof.
  rewrite run_fmap. destruct (m st) as [[a|e] st1]; intros; simplify_eq; eauto.
Qed.

Lemma try_except_Ok {A} (m : M A) (h : exn → option (M A)) st a st' :
  try_except m h st = (Ok a, st') →
  m st = (Ok a, st')
  ∨ ∃ e st1 k, m st = (Raise e, st1) ∧ h e = Some k ∧ k st1 = (Ok a, st').
Proof.
  rewrite run_try_except. destruct (m st) as [[a'|e] st1]; [eauto|].
  destruct (h e) as [k|] eqn:E; [|done]. intros. right. eauto 10.
Qed.

Lemma lock_Ok {A} (l : lock_name) (body : M A) st a st' :
  _run_with_process_lock l body st = (Ok a, st') →
  ∃ st1, body (locked l st) = (Ok a, st1)
         ∧ st' = log_lock (Release l) st1.
Proof.
  rewrite run_with_process_lock_eq.
  destruct (body _) as [[a'|e] st1]; intros; simplify_eq; eauto.
Qed.

Lemma pure_Ok {A} (m : M A) st a st' : pure_run m → m st = (Ok a, st') → st' = st.
Proof. intros H E. specialize (H st). by rewrite E in H. Qed.


(** ** The frames at the canonical paths *)

Lemma lower_path_length p : lower_path p → (length p ≤ 3)%nat.
Proof. destruct 1; simpl; lia. Qed.

Lemma lower_link_length p : lower_link p → length p = 4%nat.
Proof. by destruct 1. Qed.

Lemma index_entry_length (dir : path) (u : string) :
  length dir = 3%nat → length (dir ++ [u]) = 4%nat.
Proof. rewrite length_app. simpl. lia. Qed.

Lemma book_path_length p : book_path p → (length p ≤ 3)%nat.
Proof. destruct 1; simpl; lia. Qed.

Lemma book_link_length p : book_link p → length p = 4%nat.
Proof. by destruct 1. Qed.

Section canonical_frames.
Context (K : path → Prop) (HK : ∀ p, lower_path p → ¬ K p).

Ltac side :=
  first [ apply _
        | by (intros p Hp; simpl;
              auto using lower_path_length, lower_link_length,
                         book_path_length, book_link_length)
        | by (intros u; simpl; auto using index_entry_length) ].

Lemma get_logbook_keeps_layout u : steps (keeps_layout K) (_get_logbook u).
Proof. eapply steps_get_logbook; side. Qed.

Lemma get_task_keeps_layout u lock : steps (keeps_layout K) (_get_task_details u lock).
Proof. eapply steps_get_task_details; side. Qed.

Lemma get_flow_keeps_layout u lock : steps (keeps_layout K) (_get_flow_details u lock).
Proof. eapply steps_get_flow_details; side. Qed.

Lemma save_task_keeps_layout td ign : steps (keeps_layout K) (_save_task_details td ign).
Proof. eapply steps_save_task_details; side. Qed.

Lemma save_flow_keeps_layout fd ign : steps (keeps_layout K) (_save_flow_details fd ign).
Proof. eapply steps_save_flow_details; side. Qed.

Lemma save_tasks_and_link_keeps_layout tds dir :
  length dir = 3%nat → steps (keeps_layout K) (_save_tasks_and_link tds dir).
Proof. intros Hd. eapply steps_save_tasks_and_link; side. Qed.

Lemma save_flows_and_link_keeps_layout fds dir :
  length dir = 3%nat → steps (keeps_layout K) (_save_flows_and_link fds dir).
Proof. intros Hd. eapply steps_save_flows_and_link; side. Qed.
End canonical_frames.

Lemma save_logbook_keeps_structure book : steps keeps_structure (_save_logbook book).
Proof. eapply steps_save_logbook_unlocked; [apply _|done..]. Qed.


Lemma save_flow_keeps_structure fd ign : steps keeps_structure (_save_flow_details fd ign).
Proof. eapply steps_save_flow_details; [apply _|done..]. Qed.

Lemma save_tasks_and_link_keeps_structure tds dir :
  steps keeps_structure (_save_tasks_and_link tds dir).
Proof. eapply steps_save_tasks_and_link; [apply _|done..]. Qed.

Lemma save_flows_and_link_keeps_structure fds dir :
  steps keeps_structure (_save_flows_and_link fds dir).
Proof. eapply steps_save_flows_and_link; [apply _|done..]. Qed.

Lemma steps_Ok {A} (R : relation state) (m : M A) st a st' :
  steps R m → m st = (Ok a, st') → R st st'.
Proof. intros H E. specialize (H st). by rewrite E in H. Qed.

Lemma child_ref_kept st st' index c :
  keeps_structure st st' → child_ref st index c → child_ref st' index c.
Proof.
  intros H [t Ht]. destruct (H _ _ Ht) as ([] & Hn & Hk); try done.
  simpl in Hk. subst. by exists target.
Qed.

(** ** Merging the children *)

Lemma fd_add_missing_uuid e tds : fd_uuid (fd_add_missing e tds) = fd_uuid e.
Proof.
  unfold fd_add_missing. revert e. induction tds as [|td tds IH]; intros e; simpl; [done|].
  rewrite IH. by destruct (fd_find e (td_uuid td)).
Qed.

Lemma fd_add_missing_keeps e tds u :
  u ∈ map td_uuid (fd_tasks e) → u ∈ map td_uuid (fd_tasks (fd_add_missing e tds)).
Proof.
  unfold fd_add_missing. revert e. induction tds as [|td tds IH]; intros e H; simpl; [done|].
  apply IH. destruct (fd_find e (td_uuid td)); [done|].
  simpl. rewrite map_app. apply elem_of_app. by left.
Qed.

Lemma fd_find_Some e u td : fd_find e u = Some td → u ∈ map td_uuid (fd_tasks e).
Proof.
  unfold fd_find. intros [Hin Hu]%find_some.
  apply bool_decide_eq_true in Hu. subst u.
  apply list_elem_of_In, in_map, Hin.
Qed.

Lemma fd_add_missing_adds e tds td :
  td ∈ tds → td_uuid td ∈ map td_uuid (fd_tasks (fd_add_missing e tds)).
Proof.
  revert e. induction tds as [|x tds IH]; intros e H; [by apply elem_of_nil in H|].
  apply elem_of_cons in H as [->|H]; [|by apply IH].
  change (fd_add_missing e (x :: tds)) with
    (fd_add_missing (match fd_find e (td_uuid x) with
                     | None => fd_add e x | Some _ => e end) tds).
  apply fd_add_missing_keeps.
  destruct (fd_find e (td_uuid x)) eqn:E; [by eapply fd_find_Some|].
  simpl. rewrite map_app. apply elem_of_app. right. simpl. by left.
Qed.

Lemma lb_add_missing_uuid e fds : lb_uuid (lb_add_missing e fds) = lb_uuid e.
Proof.
  unfold lb_add_missing. revert e. induction fds as [|fd fds IH]; intros e; simpl; [done|].
  rewrite IH. by destruct (lb_find e (fd_uuid fd)).
Qed.

Lemma lb_add_missing_created_at e fds :
  lb_created_at (lb_add_missing e fds) = lb_created_at e.
Proof.
  unfold lb_add_missing. revert e. induction fds as [|fd fds IH]; intros e; simpl; [done|].
  rewrite IH. by destruct (lb_find e (fd_uuid fd)).
Qed.

Lemma lb_add_missing_keeps e fds u :
  u ∈ map fd_uuid (lb_flows e) → u ∈ map fd_uuid (lb_flows (lb_add_missing e fds)).
Proof.
  unfold lb_add_missing. revert e. induction fds as [|fd fds IH]; intros e H; simpl; [done|].
  apply IH. destruct (lb_find e (fd_uuid fd)); [done|].
  simpl. rewrite map_app. apply elem_of_app. by left.
Qed.

Lemma lb_find_Some e u fd : lb_find e u = Some fd → u ∈ map fd_uuid (lb_flows e).
Proof.
  unfold lb_find. intros [Hin Hu]%find_some.
  apply bool_decide_eq_true in Hu. subst u.
  apply list_elem_of_In, in_map, Hin.
Qed.

Lemma lb_add_missing_adds e fds fd :
  fd ∈ fds → fd_uuid fd ∈ map fd_uuid (lb_flows (lb_add_missing e fds)).
Proof.
  revert e. induction fds as [|x fds IH]; intros e H; [by apply elem_of_nil in H|].
  apply elem_of_cons in H as [->|H]; [|by apply IH].
  change (lb_add_missing e (x :: fds)) with
    (lb_add_missing (match lb_find e (fd_uuid x) with
                     | None => lb_add e x | Some _ => e end) fds).
  apply lb_add_missing_keeps.
  destruct (lb_find e (fd_uuid x)) eqn:E; [by eapply lb_find_Some|].
  simpl. rewrite map_app. apply elem_of_app. right. simpl. by left.
Qed.

(** ** What a successful get returns *)

Lemma fold_M_Ok_inv {A B} (P : B → Prop) (body : B → A → M B) xs acc st r st' :
  (∀ b x s b' s', P b → body b x s = (Ok b', s') → P b') →
  P acc → fold_M body xs acc st = (Ok r, st') → P r.
Proof.
  intros Hb. revert acc st. induction xs as [|x xs IH]; intros acc st Hacc; simpl.
  - by intros [= <- <-].
  - intros (b & s & Hx & Hrest)%bind_Ok. eapply IH; [|done]. eauto.
Qed.

Lemma unformat_flow_Ok u d st fd st' :
  unformat_flow_detail u d st = (Ok fd, st') →
  st' = st ∧ ∃ s m, d = FlowDoc s m ∧ fd = mkFlowDetail u s m [].
Proof. destruct d; simpl; unfold mret, M_ret, raise; intros; simplify_eq; eauto. Qed.

Lemma unformat_logbook_Ok u d st lb st' :
  unformat_logbook u d st = (Ok lb, st') →
  st' = st ∧ ∃ c up m, d = BookDoc c up m ∧ lb = mkLogBook u (Some c) up m [].
Proof. destruct d; simpl; unfold mret, M_ret, raise; intros; simplify_eq; eauto 10. Qed.

Lemma get_flow_details_uuid u lock st fd st' :
  _get_flow_details u lock st = (Ok fd, st') → fd_uuid fd = u.
Proof.
  unfold _get_flow_details. intros H.
  match type of H with (if lock then _run_with_process_lock _ ?g else _) _ = _ =>
    assert (∃ s s', g s = (Ok fd, s')) as (s & s' & Hg) end.
  { destruct lock; [apply lock_Ok in H as (? & ? & ?)|]; eauto. }
  clear H.
  apply bind_Ok in Hg as (meta & s1 & _ & Hg).
  apply bind_Ok in Hg as (fd0 & s2 & (-> & sx & m & -> & ->)%unformat_flow_Ok & Hg).
  apply bind_Ok in Hg as (tds & s3 & _ & Hg).
  refine (fold_M_Ok_inv (λ fd, fd_uuid fd = u) _ _ _ _ _ _ _ _ Hg); [|done].
  intros b x s0 b' s0' Hb (td & s4 & _ & Hr)%bind_Ok.
  unfold mret, M_ret in Hr. by simplify_eq.
Qed.

Lemma probe_existing_Ok {A} (get : M A) ign st r st' :
  probe_existing get ign st = (Ok r, st') →
  (∃ a, get st = (Ok a, st') ∧ r = Some a)
  ∨ (r = None ∧ ign = true ∧ ∃ c, get st = (Raise (EnvironmentError c), st')).
Proof.
  unfold probe_existing.
  intros [(a & ? & ->)%fmap_Ok|(e & s1 & k & Hm & Hk & Hr)]%try_except_Ok; [eauto|].
  right. destruct e; simpl in Hk; simplify_eq.
  destruct ign; simpl in Hr; unfold raise, mret, M_ret in Hr; simplify_eq.
  rewrite run_fmap in Hm. destruct (get st) as [[a|e] s2]; simplify_eq. eauto.
Qed.

Lemma walk_errno f pre rest e :
  walk f pre rest = Some e → e = ENOTDIR ∨ e = ENOENT.
Proof.
  revert pre. induction rest as [|c rest IH]; intros pre; simpl; [done|].
  destruct (f !! pre) as [[]|]; intros; simplify_eq; eauto.
Qed.

Lemma link_child_eq src target st :
  link_child src target st =
  match walk (fs st) [] target with
  | Some e => (Raise (EnvironmentError (Some e)), st)
  | None =>
      match fs st !! target with
      | Some _ => (Ok (), st)
      | None => (Ok (), set_fs (<[target := Link src]> (fs st)) st)
      end
  end.
Proof.
  unfold link_child, os_symlink. rewrite run_try_except.
  destruct (walk (fs st) [] target) as [e|] eqn:Hw.
  - by apply walk_errno in Hw as [-> | ->].
  - by destruct (fs st !! target).
Qed.

Lemma link_child_Ok src target st st' :
  link_child src target st = (Ok (), st') →
  walk (fs st) [] target = None
  ∧ ((st' = st ∧ is_Some (fs st !! target))
     ∨ (st' = set_fs (<[target := Link src]> (fs st)) st ∧ fs st !! target = None)).
Proof.
  rewrite link_child_eq. destruct (walk _ _ _); [done|].
  destruct (fs st !! target) eqn:E; intros [= <-]; eauto.
Qed.


(** ** The child references after a save *)

Lemma link_child_ref src dir u st st' :
  layout_ok (fs st) → length dir = 3%nat →
  link_child src (dir ++ [u]) st = (Ok (), st') → child_ref st' dir u.
Proof.
  intros Hl Hd (_ & [[-> [n Hn]] | [-> Hn]])%link_child_Ok.
  - destruct (Hl _ _ Hn) as [_ H].
    specialize (H (index_entry_length _ _ Hd)).
    destruct n; try done. by exists target.
  - exists src. simpl. by rewrite lookup_insert_eq.
Qed.

Lemma link_child_keeps_layout src dir u :
  length dir = 3%nat → steps (keeps_layout (λ _, False)) (link_child src (dir ++ [u])).
Proof.
  intros Hd. eapply steps_link_child; [apply _|]. simpl. by apply index_entry_length.
Qed.

Lemma keeps_layout_Ok {A} (m : M A) st a st' :
  steps (keeps_layout (λ _, False)) m → layout_ok (fs st) →
  m st = (Ok a, st') → layout_ok (fs st').
Proof. intros H Hl E. by apply (steps_Ok _ _ _ _ _ H E). Qed.

Lemma no_lower_kept : ∀ p, lower_path p → ¬ (λ _ : path, False) p.
Proof. tauto. Qed.

Lemma save_tasks_and_link_refs tds dir st st' :
  layout_ok (fs st) → length dir = 3%nat →
  _save_tasks_and_link tds dir st = (Ok (), st') →
  ∀ td, td ∈ tds → child_ref st' dir (td_uuid td).
Proof.
  intros Hl Hd. revert st Hl.
  induction tds as [|x tds IH]; intros st Hl Hrun td Htd; [by apply elem_of_nil in Htd|].
  change (_save_tasks_and_link (x :: tds) dir) with
    ((_save_task_details x true;;
      link_child (path_join _task_path (td_uuid x)) (path_join dir (td_uuid x)));;
     _save_tasks_and_link tds dir) in Hrun.
  apply bind_Ok in Hrun as ([] & st2 & Hx & Hrest).
  apply bind_Ok in Hx as (x' & st1 & Hsave & Hlink).
  assert (layout_ok (fs st1)) as Hl1.
  { eapply keeps_layout_Ok; [|exact Hl|exact Hsave].
    apply save_task_keeps_layout, no_lower_kept. }
  assert (layout_ok (fs st2)) as Hl2.
  { eapply keeps_layout_Ok; [|exact Hl1|exact Hlink].
    by apply link_child_keeps_layout. }
  apply elem_of_cons in Htd as [->|Htd]; [|by eapply IH].
  eapply child_ref_kept.
  - eapply steps_Ok; [apply save_tasks_and_link_keeps_structure|exact Hrest].
  - eapply link_child_ref; [exact Hl1|exact Hd|exact Hlink].
Qed.

Lemma save_flows_and_link_refs fds dir st st' :
  layout_ok (fs st) → length dir = 3%nat →
  _save_flows_and_link fds dir st = (Ok (), st') →
  ∀ fd, fd ∈ fds → child_ref st' dir (fd_uuid fd).
Proof.
  intros Hl Hd. revert st Hl.
  induction fds as [|x fds IH]; intros st Hl Hrun fd Hfd; [by apply elem_of_nil in Hfd|].
  change (_save_flows_and_link (x :: fds) dir) with
    ((_save_flow_details x true;;
      link_child (path_join _flow_path (fd_uuid x)) (path_join dir (fd_uuid x)));;
     _save_flows_and_link fds dir) in Hrun.
  apply bind_Ok in Hrun as ([] & st2 & Hx & Hrest).
  apply bind_Ok in Hx as (x' & st1 & Hsave & Hlink).
  assert (layout_ok (fs st1)) as Hl1.
  { eapply keeps_layout_Ok; [|exact Hl|exact Hsave].
    apply save_flow_keeps_layout, no_lower_kept. }
  assert (layout_ok (fs st2)) as Hl2.
  { eapply keeps_layout_Ok; [|exact Hl1|exact Hlink].
    by apply link_child_keeps_layout. }
  apply elem_of_cons in Hfd as [->|Hfd]; [|by eapply IH].
  eapply child_ref_kept.
  - eapply steps_Ok; [apply save_flows_and_link_keeps_structure|exact Hrest].
  - eapply link_child_ref; [exact Hl1|exact Hd|exact Hlink].
Qed.

Lemma elem_of_map_uuid {A} (f : A → string) (c : string) (xs : list A) :
  c ∈ map f xs → ∃ x, x ∈ xs ∧ f x = c.
Proof.
  intros H. apply list_elem_of_In, in_map_iff in H as (x & ? & ?).
  exists x. split; [by apply list_elem_of_In|done].
Qed.

Lemma nonempty_length {A} (x : A) (xs : list A) : x ∈ xs → length xs ≠ 0%nat.
Proof. by destruct 1. Qed.

Lemma ensure_tree_keeps_layout p st :
  (length p ≤ 3)%nat → layout_ok (fs st) → layout_ok (fs (ensure_tree p st).2).
Proof.
  intros Hp Hl.
  exact (proj1 (@frame_mkdir _ _ _ _ (keeps_layout_frame (λ _, False)) p (conj Hp (λ x, x)) st Hl)).
Qed.

Lemma write_to_keeps_layout p c st :
  (length p ≤ 3)%nat → layout_ok (fs st) → layout_ok (fs (_write_to p c st).2).
Proof.
  intros Hp Hl.
  exact (proj1 (@frame_write _ _ _ _ (keeps_layout_frame (λ _, False)) p c (conj Hp (λ x, x)) st Hl)).
Qed.

Lemma Ok_snd {A} (m : M A) st a st' : m st = (Ok a, st') → (m st).2 = st'.
Proof. by intros ->. Qed.

Lemma save_flow_details_refs fd ign st r st' :
  layout_ok (fs st) →
  _save_flow_details fd ign st = (Ok r, st') →
  ∀ c, child_ref st (flow_index (fd_uuid fd)) c ∨ c ∈ map td_uuid (fd_tasks fd) →
       child_ref st' (flow_index (fd_uuid fd)) c
       ∧ (c ∈ map td_uuid (fd_tasks fd) → c ∈ map td_uuid (fd_tasks r)).
Proof.
  intros Hl Hrun c Hc.
  pose proof (steps_Ok _ _ _ _ _ (save_flow_keeps_structure fd ign) Hrun) as Hks.
  unfold _save_flow_details in Hrun.
  apply bind_Ok in Hrun as (e_fd & st1 & Hprobe & Hrun).
  set (merged := match e_fd with
                 | Some e => fd_add_missing (flow_details_merge e fd) (fd_tasks fd)
                 | None => fd end) in *.
  assert (fd_uuid merged = fd_uuid fd) as Hu.
  { subst merged. destruct e_fd as [e|]; [|done].
    rewrite fd_add_missing_uuid. simpl.
    apply probe_existing_Ok in Hprobe as [(a & Hget & [= <-])|(? & _)]; [|done].
    by eapply get_flow_details_uuid. }
  assert (∀ td, td ∈ fd_tasks fd → td_uuid td ∈ map td_uuid (fd_tasks merged)) as Hin.
  { intros td Htd. subst merged. destruct e_fd as [e|].
    - by apply fd_add_missing_adds.
    - apply list_elem_of_In, in_map. by apply list_elem_of_In. }
  assert (layout_ok (fs st1)) as Hl1.
  { eapply keeps_layout_Ok; [|exact Hl|exact Hprobe].
    eapply @steps_probe_existing; [apply (keeps_layout_frame (λ _, False))|].
    apply get_flow_keeps_layout. }
  rewrite Hu in Hrun.
  apply bind_Ok in Hrun as ([] & st2 & Hmk & Hrun).
  apply bind_Ok in Hrun as ([] & st3 & Hwr & Hrun).
  apply bind_Ok in Hrun as ([] & st4 & Hkids & Hrun).
  unfold mret, M_ret in Hrun. simplify_eq.
  assert (layout_ok (fs st3)) as Hl3.
  { rewrite <- (Ok_snd _ _ _ _ Hwr). apply write_to_keeps_layout; [compute; lia|].
    rewrite <- (Ok_snd _ _ _ _ Hmk). apply ensure_tree_keeps_layout; [compute; lia|done]. }
  split.
  - destruct Hc as [Hc|Hc]; [by eapply child_ref_kept|].
    apply elem_of_map_uuid in Hc as (td & Htd & <-).
    pose proof (Hin _ Htd) as Hm.
    apply elem_of_map_uuid in Hm as (td' & Htd' & Heq).
    rewrite bool_decide_eq_true_2 in Hkids by by eapply nonempty_length.
    apply bind_Ok in Hkids as ([] & st5 & Hmk2 & Hkids).
    apply lock_Ok in Hkids as (st6 & Hkids & ->).
    rewrite <- Heq.
    assert (child_ref st6 (flow_index (fd_uuid fd)) (td_uuid td')) as [t Ht]; [|by exists t].
    eapply save_tasks_and_link_refs; [|done|exact Hkids|done].
    apply layout_locked.
    rewrite <- (Ok_snd _ _ _ _ Hmk2). apply ensure_tree_keeps_layout; [compute; lia|done].
  - intros Hm. apply elem_of_map_uuid in Hm as (td & Htd & <-). by apply Hin.
Qed.


Lemma get_logbook_fields u st lb st' :
  _get_logbook u st = (Ok lb, st') →
  lb_uuid lb = u
  ∧ ∃ d s1, (_read_from (book_metadata u) ≫= decode_json) st = (Ok d, s1)
            ∧ ∃ c up m, d = BookDoc c up m ∧ lb_created_at lb = Some c.
Proof.
  unfold _get_logbook. intros Hg.
  apply bind_Ok in Hg as (meta & s1 & Hmeta & Hg).
  apply bind_Ok in Hg as (lb0 & s2 & (-> & c & up & m & -> & ->)%unformat_logbook_Ok & Hg).
  apply bind_Ok in Hg as (fds & s3 & _ & Hg).
  assert (lb_uuid lb = u ∧ lb_created_at lb = Some c) as [? ?].
  { refine (fold_M_Ok_inv (λ lb, lb_uuid lb = u ∧ lb_created_at lb = Some c)
              _ _ _ _ _ _ _ _ Hg); [|done].
    intros b x s0 b' s0' Hb (fd & s4 & _ & Hr)%bind_Ok.
    unfold mret, M_ret in Hr. by simplify_eq. }
  split; [done|]. exists (BookDoc c up m), s1. split; [|eauto].
  apply try_except_Ok in Hmeta as [?|(e & s5 & k & _ & Hk & Hr)]; [done|].
  destruct e; simplify_eq. case_decide; by simplify_eq.
Qed.

Lemma save_logbook_refs book st r st' :
  layout_ok (fs st) →
  _save_logbook book st = (Ok r, st') →
  ∀ c, child_ref st (book_index (lb_uuid book)) c ∨ c ∈ map fd_uuid (lb_flows book) →
       child_ref st' (book_index (lb_uuid book)) c
       ∧ (c ∈ map fd_uuid (lb_flows book) → c ∈ map fd_uuid (lb_flows r)).
Proof.
  intros Hl Hrun c Hc.
  pose proof (steps_Ok _ _ _ _ _ (save_logbook_keeps_structure book) Hrun) as Hks.
  unfold _save_logbook in Hrun.
  apply bind_Ok in Hrun as (e_lb & st1 & Hprobe & Hrun).
  set (merged := default book
                   (match e_lb with
                    | Some e => Some (lb_add_missing (logbook_merge e book) (lb_flows book))
                    | None => None end)) in *.
  assert (lb_uuid merged = lb_uuid book) as Hu.
  { subst merged. destruct e_lb as [e|]; [|done]. simpl.
    rewrite lb_add_missing_uuid. simpl.
    apply try_except_Ok in Hprobe as [(a & Hget & [= <-])%fmap_Ok|(x & s & k & _ & Hk & Hr)].
    - by apply get_logbook_fields in Hget as [? _].
    - destruct x; simplify_eq. }
  assert (∀ fd, fd ∈ lb_flows book → fd_uuid fd ∈ map fd_uuid (lb_flows merged)) as Hin.
  { intros fd Hfd. subst merged. destruct e_lb as [e|]; simpl.
    - by apply lb_add_missing_adds.
    - apply list_elem_of_In, in_map. by apply list_elem_of_In. }
  assert (layout_ok (fs st1)) as Hl1.
  { eapply keeps_layout_Ok; [|exact Hl|exact Hprobe].
    apply steps_try_except; [apply _| |].
    - apply steps_fmap. apply get_logbook_keeps_layout.
    - intros e k Hk. destruct e; simplify_eq. by apply steps_pure; [apply _|]. }
  rewrite Hu in Hrun.
  apply bind_Ok in Hrun as ([] & st2 & Hmk & Hrun).
  apply bind_Ok in Hrun as (meta & st2' & ->%pure_Ok & Hrun); [|done].
  apply bind_Ok in Hrun as ([] & st3 & Hwr & Hrun).
  apply bind_Ok in Hrun as ([] & st4 & Hkids & Hrun).
  unfold mret, M_ret in Hrun. simplify_eq.
  assert (layout_ok (fs st3)) as Hl3.
  { rewrite <- (Ok_snd _ _ _ _ Hwr). apply write_to_keeps_layout; [compute; lia|].
    rewrite <- (Ok_snd _ _ _ _ Hmk). apply ensure_tree_keeps_layout; [compute; lia|done]. }
  split.
  - destruct Hc as [Hc|Hc]; [by eapply child_ref_kept|].
    apply elem_of_map_uuid in Hc as (fd & Hfd & <-).
    pose proof (Hin _ Hfd) as Hm.
    apply elem_of_map_uuid in Hm as (fd' & Hfd' & Heq).
    rewrite bool_decide_eq_true_2 in Hkids by by eapply nonempty_length.
    apply bind_Ok in Hkids as ([] & st5 & Hmk2 & Hkids).
    apply lock_Ok in Hkids as (st6 & Hkids & ->).
    rewrite <- Heq.
    assert (child_ref st6 (book_index (lb_uuid book)) (fd_uuid fd')) as [t Ht]; [|by exists t].
    eapply save_flows_and_link_refs; [|done|exact Hkids|done].
    apply layout_locked.
    rewrite <- (Ok_snd _ _ _ _ Hmk2). apply ensure_tree_keeps_layout; [compute; lia|done].
  - intros Hm. apply elem_of_map_uuid in Hm as (fd & Hfd & <-). by apply Hin.
Qed.


(** ** Which exceptions a run can end in *)

Lemma raises_only_weaken {A} (P Q : exn → Prop) (m : M A) :
  (∀ e, P e → Q e) → raises_only P m → raises_only Q m.
Proof. intros H Hm st e st' E. eauto. Qed.

Lemma raises_only_ret {A} P (a : A) : raises_only P (mret a).
Proof. by intros st e st'. Qed.

Lemma raises_only_raise {A} (P : exn → Prop) e : P e → raises_only P (raise (A:=A) e).
Proof. intros H st e' st' [= <- _]. done. Qed.

Lemma raises_only_bind {A B} P (m : M A) (k : A → M B) :
  raises_only P m → (∀ a, raises_only P (k a)) → raises_only P (m ≫= k).
Proof.
  intros Hm Hk st e st'. rewrite run_bind.
  destruct (m st) as [[a|e'] st1] eqn:E; [by apply Hk|].
  intros [= <- <-]. by eapply Hm.
Qed.

Lemma raises_only_fmap {A B} P (f : A → B) (m : M A) :
  raises_only P m → raises_only P (f <$> m).
Proof.
  intros Hm st e st'. rewrite run_fmap.
  destruct (m st) as [[a|e'] st1] eqn:E; [done|].
  intros [= <- <-]. by eapply Hm.
Qed.

Lemma raises_only_try_except {A} (P Q : exn → Prop) (m : M A) h :
  raises_only Q m →
  (∀ e, Q e → h e = None → P e) →
  (∀ e k, Q e → h e = Some k → raises_only P k) →
  raises_only P (try_except m h).
Proof.
  intros Hm Hn Hs st e st'. rewrite run_try_except.
  destruct (m st) as [[a|e'] st1] eqn:E; [done|].
  pose proof (Hm _ _ _ E) as HQ.
  destruct (h e') as [k|] eqn:Eh.
  - by eapply Hs.
  - intros [= <- <-]. eauto.
Qed.

Lemma raises_only_fold_M {A B} P (body : B → A → M B) xs acc :
  (∀ b x, raises_only P (body b x)) → raises_only P (fold_M body xs acc).
Proof.
  intros H. revert acc. induction xs as [|x xs IH]; intros acc; simpl.
  - apply raises_only_ret.
  - apply raises_only_bind; [apply H|intros b; apply IH].
Qed.

Lemma raises_only_filter_M {A} P (test : A → M bool) xs :
  (∀ x, raises_only P (test x)) → raises_only P (filter_M test xs).
Proof.
  intros H. induction xs as [|x xs IH]; simpl; [apply raises_only_ret|].
  apply raises_only_bind; [apply H|intros b].
  apply raises_only_bind; [apply IH|intros ys]. apply raises_only_ret.
Qed.

Lemma raises_only_lock {A} (P : exn → Prop) l (body : M A) :
  raises_only (λ e, P (if is_TaskFlowException e then e else StorageError e)) body →
  raises_only P (_run_with_process_lock l body).
Proof.
  intros Hb st e st'. rewrite run_with_process_lock_eq.
  destruct (body _) as [[a|e'] st1] eqn:E; [done|].
  intros [= <- <-]. by eapply Hb.
Qed.

Lemma low_level_not_NotFound e : low_level e → not_NotFound e.
Proof. by destruct e. Qed.

Lemma raises_getmtime p : raises_only low_level (os_path_getmtime p).
Proof. intros st e st'. unfold os_path_getmtime. repeat case_match; by intros [= <- <-]. Qed.
Lemma raises_open_read p : raises_only low_level (open_read p).
Proof. intros st e st'. unfold open_read. repeat case_match; by intros [= <- <-]. Qed.
Lemma raises_listdir p : raises_only low_level (os_listdir p).
Proof. intros st e st'. unfold os_listdir. repeat case_match; by intros [= <- <-]. Qed.
Lemma raises_islink p : raises_only low_level (os_path_islink p).
Proof. intros st e st'. unfold os_path_islink. repeat case_match; by intros [=]. Qed.
Lemma raises_isdir p : raises_only low_level (os_path_isdir p).
Proof. intros st e st'. unfold os_path_isdir. repeat case_match; by intros [=]. Qed.
Lemma raises_decode_json d : raises_only low_level (decode_json d).
Proof. intros st e st'. destruct d; by intros [= <- <-]. Qed.
Lemma raises_unformat_task u d : raises_only low_level (unformat_task_detail u d).
Proof. intros st e st'. destruct d; by intros [= <- <-]. Qed.
Lemma raises_unformat_flow u d : raises_only low_level (unformat_flow_detail u d).
Proof. intros st e st'. destruct d; by intros [= <- <-]. Qed.
Lemma raises_unformat_logbook u d : raises_only low_level (unformat_logbook u d).
Proof. intros st e st'. destruct d; by intros [= <- <-]. Qed.

Lemma raises_read_from p : raises_only low_level (_read_from p).
Proof.
  unfold _read_from.
  apply raises_only_bind; [apply raises_getmtime|intros m].
  apply raises_only_bind; [|intros ci].
  { intros st e st'. unfold cache_setdefault. by case_match. }
  apply raises_only_bind; [|intros _].
  - case_match; [|apply raises_only_ret].
    apply raises_only_bind; [apply raises_open_read|by intros d].
  - intros st e st'. unfold cache_data. repeat case_match; by intros [= <- <-].
Qed.

Lemma raises_list_links d : raises_only low_level (list_links d).
Proof.
  apply raises_only_bind; [apply raises_listdir|intros names].
  apply raises_only_filter_M. intros x. apply raises_islink.
Qed.

Lemma raises_list_links_guarded d :
  raises_only low_level (try_except (list_links d) (unless_errno ENOENT (mret []))).
Proof.
  eapply raises_only_try_except; [apply raises_list_links|..].
  - by intros.
  - intros e k He [->| ->]%unless_errno_Some;
      [apply raises_only_ret|by apply raises_only_raise].
Qed.

Lemma raises_get_task_unlocked u : raises_only low_level (_get_task_details u false).
Proof.
  apply raises_only_bind; [|intros d; apply raises_unformat_task].
  apply raises_only_bind; [apply raises_read_from|apply raises_decode_json].
Qed.

Lemma raises_get_task_locked u : raises_only not_NotFound (_get_task_details u true).
Proof.
  apply raises_only_lock. eapply raises_only_weaken; [|apply raises_get_task_unlocked].
  by intros [].
Qed.

Lemma raises_get_flow u lock : raises_only not_NotFound (_get_flow_details u lock).
Proof.
  unfold _get_flow_details.
  match goal with |- raises_only _ (if lock then _run_with_process_lock _ ?g else _) =>
    assert (raises_only not_NotFound g) as Hget end.
  { apply raises_only_bind; [|intros meta].
    { eapply raises_only_weaken; [apply low_level_not_NotFound|].
      apply raises_only_bind; [apply raises_read_from|apply raises_decode_json]. }
    apply raises_only_bind; [|intros fd].
    { eapply raises_only_weaken; [apply low_level_not_NotFound|apply raises_unformat_flow]. }
    apply raises_only_bind; [|intros tds].
    { eapply raises_only_weaken; [apply low_level_not_NotFound|apply raises_list_links_guarded]. }
    apply raises_only_fold_M. intros b x.
    apply raises_only_bind; [apply raises_get_task_locked|intros td; apply raises_only_ret]. }
  destruct lock; [|done].
  apply raises_only_lock. eapply raises_only_weaken; [|exact Hget].
  intros e He. by destruct e.
Qed.

(** ** Reading a file of the store *)

Lemma lstat_inr f q n :
  lstat f q = inr n ↔ walk f [] q = None ∧ f !! q = Some n.
Proof.
  unfold lstat. destruct (walk f [] q).
  - split; [done|]. by intros [? _].
  - destruct (f !! q); split; try done.
    + by intros [= ->].
    + by intros [_ [= ->]].
    + by intros [_ ?].
Qed.

Lemma stat_plain f q :
  layout_ok f → length q ≠ 4%nat → stat f q = lstat f q.
Proof. intros Hl Hq. unfold stat. by rewrite realpath_layout. Qed.

Lemma walk_kept st st' pre rest :
  keeps_structure st st' →
  walk (fs st) pre rest = None → walk (fs st') pre rest = None.
Proof.
  intros Hk. revert pre. induction rest as [|c rest IH]; intros pre; simpl; [done|].
  destruct (fs st !! pre) as [[]|] eqn:E; try done.
  destruct (Hk _ _ E) as ([] & -> & ?); try done. apply IH.
Qed.

Lemma read_from_coherent_at q st m d :
  layout_ok (fs st) → coherent_at st q → length q ≠ 4%nat →
  stat (fs st) q = inr (File m d) →
  ∃ st1, _read_from q st = (Ok d, st1).
Proof.
  intros Hl Hc Hq Hst.
  destruct (must_reread st q m) eqn:Hre.
  - eexists. by apply read_from_reread.
  - unfold must_reread in Hre. destruct (cached st q) as [[cm cd]|] eqn:Hcd; [|done].
    apply bool_decide_eq_false in Hre.
    assert (cd = d) as ->.
    { rewrite stat_plain in Hst by done. apply lstat_inr in Hst as [_ Hf].
      unfold cached in Hcd. destruct (file_cache st !! q) as [ci|] eqn:Eq; [|done].
      subst ci. by destruct (Hc _ _ _ _ Eq Hf) as [_ ->]. }
    exists st. eapply read_from_cached; [done..|lia].
Qed.

Lemma read_from_coherent q st m d :
  store_ok st → length q ≠ 4%nat →
  stat (fs st) q = inr (File m d) →
  ∃ st1, _read_from q st = (Ok d, st1).
Proof.
  intros [Hl Hc]. apply read_from_coherent_at; [done|].
  intros ????. apply Hc.
Qed.

(** ** Path resolution when lock files appear *)

Lemma data_path_off_locks (p q : path) :
  data_path p → q `prefix_of` p → q ∉ lock_files.
Proof.
  intros Hp [k ->] Hq.
  assert (∃ x, q = ["locks"; x]) as [x ->].
  { unfold lock_files in Hq. cbn [fmap list_fmap] in Hq.
    rewrite !elem_of_cons in Hq.
    destruct Hq as [->|[->|[->|[->|[]%elem_of_nil]]]]; by eexists. }
  destruct Hp as [[? H]|[[? H]|[? H]]]; discriminate H.
Qed.

Lemma data_path_not_lock (p : path) : data_path p → p ∉ lock_files.
Proof. intros H. by eapply data_path_off_locks. Qed.

Lemma walk_same_data st st' (pre rest : path) :
  same_data st st' → (∀ q, q `prefix_of` pre ++ rest → q ∉ lock_files) →
  walk (fs st') pre rest = walk (fs st) pre rest.
Proof.
  intros [_ Hsd]. revert pre. induction rest as [|c rest IH]; intros pre Hq; [done|].
  cbn [walk]. rewrite Hsd by (apply Hq; by apply prefix_app_r).
  destruct (fs st !! pre) as [[]|]; try done.
  apply IH. intros q. rewrite <- app_assoc. apply Hq.
Qed.

Lemma lstat_same_data st st' (p : path) :
  same_data st st' → data_path p → lstat (fs st') p = lstat (fs st) p.
Proof.
  intros Hsd Hp. unfold lstat.
  rewrite (walk_same_data st st') by (done || intros q; by apply data_path_off_locks).
  destruct Hsd as [_ Hsd]. by rewrite Hsd by by apply data_path_not_lock.
Qed.

Lemma stat_same_data st st' (p : path) :
  same_data st st' → data_path p → link_at (fs st) p = false →
  stat (fs st') p = stat (fs st) p.
Proof.
  intros Hsd Hp Hl. unfold stat.
  assert (∀ f, link_at f p = false → realpath MAXSYMLINKS f p = inr p) as Hplain.
  { intros f Hf. apply realpath_of_plain. intros t Ht.
    unfold link_at in Hf. by rewrite Ht in Hf. }
  rewrite !Hplain; [by apply lstat_same_data|done|].
  unfold link_at. destruct Hsd as [_ Hsd].
  rewrite Hsd by by apply data_path_not_lock. exact Hl.
Qed.

Lemma missing_same_data st st' (p : path) :
  same_data st st' → data_path p → link_at (fs st) p = false →
  missing st p → missing st' p.
Proof. unfold missing. intros ???. by rewrite (stat_same_data st st'). Qed.

Lemma link_at_same_data st st' (p : path) :
  same_data st st' → data_path p → link_at (fs st') p = link_at (fs st) p.
Proof.
  intros [_ Hsd] Hp. unfold link_at. by rewrite Hsd by by apply data_path_not_lock.
Qed.

Lemma link_at_layout f p : layout_ok f → length p ≠ 4%nat → link_at f p = false.
Proof.
  intros Hl Hp. unfold link_at. destruct (f !! p) as [[]|] eqn:E; try done.
  apply Hl in E. simpl in E. destruct Hp. by apply E.
Qed.


(** ** The creation time of a stored book *)

Lemma lb_add_missing_meta e fds : lb_meta (lb_add_missing e fds) = lb_meta e.
Proof.
  unfold lb_add_missing. revert e. induction fds as [|fd fds IH]; intros e; simpl; [done|].
  rewrite IH. by destruct (lb_find e (fd_uuid fd)).
Qed.

Lemma get_logbook_not_NotFound u st d s1 e s2 :
  (_read_from (book_metadata u) ≫= decode_json) st = (Ok d, s1) →
  _get_logbook u st = (Raise e, s2) → e ≠ NotFound.
Proof.
  intros Hrd. unfold _get_logbook. rewrite run_bind, run_try_except.
  change (path_join (path_join _book_path u) "metadata") with (book_metadata u).
  rewrite Hrd. cbv beta iota.
  match goal with |- ?m s1 = _ → _ =>
    cut (raises_only not_NotFound m); [intros H Hr; by eapply H|] end.
  apply raises_only_bind; [|intros lb].
  { eapply raises_only_weaken; [apply low_level_not_NotFound|apply raises_unformat_logbook]. }
  apply raises_only_bind; [|intros fds].
  { eapply raises_only_weaken; [apply low_level_not_NotFound|apply raises_list_links_guarded]. }
  apply raises_only_fold_M. intros b y.
  apply raises_only_bind; [apply raises_get_flow|intros fd; apply raises_only_ret].
Qed.

Lemma save_logbook_created_at book st mtime c0 up0 meta0 r st' :
  layout_ok (fs st) → coherent_at st (book_metadata (lb_uuid book)) →
  stat (fs st) (book_metadata (lb_uuid book))
    = inr (File mtime (BookDoc c0 up0 meta0)) →
  _save_logbook book st = (Ok r, st') →
  lb_created_at r = Some c0
  ∧ ∃ mtime' up', stat (fs st') (book_metadata (lb_uuid book))
                  = inr (File mtime' (BookDoc c0 up' (lb_meta book))).
Proof.
  intros Hl Hcoh Hst Hrun. set (q := book_metadata (lb_uuid book)) in *.
  assert (length q ≠ 4%nat) as Hq by (compute; lia).
  destruct (read_from_coherent_at q st _ _ Hl Hcoh Hq Hst) as [s1 Hread].
  assert ((_read_from q ≫= decode_json) st = (Ok (BookDoc c0 up0 meta0), s1)) as Hrd.
  { rewrite run_bind, Hread. done. }
  unfold _save_logbook in Hrun.
  apply bind_Ok in Hrun as (e_lb & st1 & Hprobe & Hrun).
  assert (layout_ok (fs st1)) as Hl1.
  { eapply keeps_layout_Ok; [|exact Hl|exact Hprobe].
    apply steps_try_except; [apply _| |].
    - apply steps_fmap. apply get_logbook_keeps_layout.
    - intros e k Hk. destruct e; simplify_eq. by apply steps_pure; [apply _|]. }
  assert (∃ e, e_lb = Some e ∧ lb_uuid e = lb_uuid book ∧ lb_created_at e = Some c0)
    as (e & -> & Hu & Hc).
  { apply try_except_Ok in Hprobe as [(a & Hget & ->)%fmap_Ok|(x & s & k & Hx & Hk & Hr)].
    - exists a. split; [done|].
      apply get_logbook_fields in Hget as (? & d & s & Hd & c & up & m & -> & ?).
      fold q in Hd. rewrite Hrd in Hd. by simplify_eq.
    - destruct x; simplify_eq. rewrite run_fmap in Hx.
      destruct (_get_logbook (lb_uuid book) st) as [[a|x] s'] eqn:Hget; simplify_eq.
      by destruct (get_logbook_not_NotFound _ _ _ _ _ _ Hrd Hget). }
  simpl in Hrun. rewrite lb_add_missing_uuid, lb_add_missing_created_at in Hrun.
  simpl in Hrun. rewrite Hu, Hc in Hrun. fold q in Hrun.
  apply bind_Ok in Hrun as ([] & st2x & Hmk & Hrun).
  apply bind_Ok in Hrun as (meta & st2 & Hfmt & Hrun).
  unfold format_logbook, utcnow in Hfmt. rewrite run_bind in Hfmt.
  unfold mret, M_ret in Hfmt. simplify_eq.
  apply bind_Ok in Hrun as ([] & st3 & Hwr & Hrun).
  apply bind_Ok in Hrun as ([] & st4 & Hkids & Hrun).
  unfold mret, M_ret in Hrun. simplify_eq.
  rewrite lb_add_missing_created_at. split; [done|].
  assert (_write_to q (BookDoc c0 (Some (clock st2)) (lb_meta book)) st2
          = (Ok (), st3)) as Hwr'.
  { rewrite lb_add_missing_meta in Hwr. exact Hwr. }
  clear Hwr.
  assert (layout_ok (fs st2)) as Hl2.
  { rewrite <- (Ok_snd _ _ _ _ Hmk). apply ensure_tree_keeps_layout; [compute; lia|done]. }
  destruct (write_to_fs q (BookDoc c0 (Some (clock st2)) (lb_meta book)) st2)
    as [[x Hx]|(p & Hp & Hw & _ & Hx)]; rewrite Hx in Hwr'; [done|].
  rewrite realpath_layout in Hp by done.
  assert (p = q) as -> by congruence. clear Hp.
  injection Hwr' as <-.
  match type of Hkids with ?m _ = _ =>
    assert (steps (keeps_layout (λ p, p = q)) m ∧ steps keeps_structure m) as [HK HS] end.
  { case_bool_decide.
    - split.
      + apply steps_bind; [apply _| |intros _].
        * apply (@frame_mkdir _ _ _ _ (keeps_layout_frame (λ p, p = q))).
          split; [compute; lia|]. by intros [=].
        * apply steps_lock; [apply _|apply frame_locks|].
          apply save_flows_and_link_keeps_layout; [|done].
          intros p Hp ->. inversion Hp.
      + apply steps_bind; [apply _| |intros _].
        * by apply (@frame_mkdir _ _ _ _ keeps_structure_frame).
        * apply steps_lock; [apply _|apply frame_locks|].
          apply save_flows_and_link_keeps_structure.
    - split; by apply steps_pure; [apply _|]. }
  pose proof (steps_Ok _ _ _ _ _ HK Hkids) as HK'.
  pose proof (steps_Ok _ _ _ _ _ HS Hkids) as HS'.
  destruct HK' as [Hl4 Hkeep].
  { simpl. apply layout_insert; [done|]. simpl. split; [done|]. intros. lia. }
  exists (clock st2), (Some (clock st2)).
  rewrite stat_plain by done. apply lstat_inr. split.
  - eapply walk_kept; [exact HS'|]. cbn [fs set_cache set_clock set_fs].
    by rewrite walk_insert by (simpl; lia).
  - apply Hkeep; [done|]. cbn [fs set_cache set_clock set_fs].
    by rewrite lookup_insert_eq.
Qed.


(** ** Lock discipline: the generic rules *)

Lemma replay_app needed held evs1 evs2 :
  replay needed held (evs1 ++ evs2) =
  match replay needed held evs1 with
  | Some held' => replay needed held' evs2
  | None => None
  end.
Proof.
  revert held. induction evs1 as [|[l|l] evs1 IH]; intros held; simpl; [done|..].
  - destruct (may_acquire needed held l); [apply IH|done].
  - destruct held as [|h held]; [done|]. case_decide; [apply IH|done].
Qed.

Global Instance same_log_preorder : PreOrder same_log.
Proof. split; unfold same_log; [done|congruence]. Qed.

Lemma silent_steps {A} (m : M A) : silent m ↔ steps same_log m.
Proof. done. Qed.

Lemma pure_silent {A} (m : M A) : pure_run m → silent m.
Proof. intros H st. by rewrite H. Qed.

Lemma silent_bind {A B} (m : M A) (k : A → M B) :
  silent m → (∀ a, silent (k a)) → silent (m ≫= k).
Proof. intros ??. by apply (steps_bind same_log). Qed.

Lemma silent_try_except {A} (m : M A) h :
  silent m → (∀ e k, h e = Some k → silent k) → silent (try_except m h).
Proof. intros ??. by apply (steps_try_except same_log). Qed.

Lemma silent_for_each {A} (xs : list A) body :
  (∀ x, silent (body x)) → silent (for_each xs body).
Proof. intros H. apply (steps_for_each same_log). intros x _. apply H. Qed.

Lemma silent_fmap {A B} (f : A → B) (m : M A) : silent m → silent (f <$> m).
Proof. apply (steps_fmap same_log). Qed.

Lemma silent_open_read p : silent (open_read p).
Proof. intros st. unfold open_read. by destruct (stat (fs st) p) as [?|[]]. Qed.

Lemma silent_open_write p c : silent (open_write p c).
Proof.
  intros st. rewrite open_write_eq.
  destruct (realpath _ _ _) as [e|r]; [done|].
  destruct (walk _ _ _); [done|]. by destruct (fs st !! r) as [[]|].
Qed.

Lemma silent_ensure_tree p : silent (ensure_tree p).
Proof. intros st. unfold ensure_tree. by repeat case_match. Qed.

Lemma silent_symlink s p : silent (os_symlink s p).
Proof. intros st. unfold os_symlink. by repeat case_match. Qed.

Lemma silent_rmtree p : silent (shutil_rmtree p).
Proof. intros st. unfold shutil_rmtree. by repeat case_match. Qed.

Lemma silent_read_from p : silent (_read_from p).
Proof.
  unfold _read_from.
  apply silent_bind; [apply pure_silent, pure_getmtime|intros mtime].
  apply silent_bind; [|intros ci].
  { intros st. unfold cache_setdefault. by destruct (file_cache st !! p). }
  apply silent_bind; [|intros _].
  - case_match; [|by apply pure_silent].
    apply silent_bind; [apply silent_open_read|by intros d].
  - intros st. unfold cache_data. by repeat case_match.
Qed.

Lemma silent_write_to p c : silent (_write_to p c).
Proof. apply silent_bind; [apply silent_open_write|by intros _]. Qed.

Lemma silent_link_child s p : silent (link_child s p).
Proof.
  apply silent_try_except; [apply silent_symlink|].
  by intros e k [->| ->]%unless_errno_Some.
Qed.

Lemma silent_remove_tree p : silent (remove_tree p).
Proof.
  apply silent_try_except; [apply silent_rmtree|].
  intros e k Hk. destruct e; simplify_eq. by case_decide; simplify_eq.
Qed.

Lemma silent_probe_existing {A} (get : M A) ign :
  silent get → silent (probe_existing get ign).
Proof.
  intros H. apply silent_try_except; [by apply silent_fmap|].
  intros e k Hk. destruct (is_EnvironmentError e); simplify_eq. by destruct ign.
Qed.

Lemma silent_get_task_unlocked u : silent (_get_task_details u false).
Proof.
  apply silent_bind; [|intros d; apply pure_silent, pure_unformat_task].
  apply silent_bind; [apply silent_read_from|intros d; apply pure_silent, pure_decode_json].
Qed.

Lemma silent_save_task_details td ign : silent (_save_task_details td ign).
Proof.
  apply silent_bind; [apply silent_probe_existing, silent_get_task_unlocked|intros e].
  apply silent_bind; [apply silent_write_to|by intros _].
Qed.

Lemma silent_save_tasks_and_link tds dir : silent (_save_tasks_and_link tds dir).
Proof.
  apply silent_for_each. intros td.
  apply silent_bind; [apply silent_save_task_details|intros _; apply silent_link_child].
Qed.

(** ** Lock discipline of the operations *)

Section discipline.
Context (needed : list lock_name).

Lemma disciplined_silent {A} held (m : M A) : silent m → disciplined needed held m.
Proof. intros H st. exists []. by rewrite H, app_nil_r. Qed.

Lemma disciplined_bind {A B} held (m : M A) (k : A → M B) :
  disciplined needed held m → (∀ a, disciplined needed held (k a)) →
  disciplined needed held (m ≫= k).
Proof.
  intros Hm Hk st. rewrite run_bind.
  destruct (Hm st) as (evs1 & E1 & R1).
  destruct (m st) as [[a|e] st1]; simpl in *; [|eauto].
  destruct (Hk a st1) as (evs2 & E2 & R2).
  exists (evs1 ++ evs2). rewrite E2, E1, app_assoc. split; [done|].
  by rewrite replay_app, R1.
Qed.

Lemma disciplined_fmap {A B} held (f : A → B) (m : M A) :
  disciplined needed held m → disciplined needed held (f <$> m).
Proof.
  intros Hm. apply disciplined_bind; [done|].
  intros a. by apply disciplined_silent.
Qed.

Lemma disciplined_try_except {A} held (m : M A) h :
  disciplined needed held m →
  (∀ e k, h e = Some k → disciplined needed held k) →
  disciplined needed held (try_except m h).
Proof.
  intros Hm Hh st. rewrite run_try_except.
  destruct (Hm st) as (evs1 & E1 & R1).
  destruct (m st) as [[a|e] st1]; simpl in *; [eauto|].
  destruct (h e) as [k|] eqn:E; [|eauto].
  destruct (Hh _ _ E st1) as (evs2 & E2 & R2).
  exists (evs1 ++ evs2). rewrite E2, E1, app_assoc. split; [done|].
  by rewrite replay_app, R1.
Qed.

Lemma disciplined_fold_M {A B} held (body : B → A → M B) xs acc :
  (∀ b x, disciplined needed held (body b x)) →
  disciplined needed held (fold_M body xs acc).
Proof.
  intros H. revert acc. induction xs as [|x xs IH]; intros acc; simpl.
  - by apply disciplined_silent.
  - apply disciplined_bind; [apply H|intros b; apply IH].
Qed.

Lemma disciplined_for_each {A} held (xs : list A) body :
  (∀ x, disciplined needed held (body x)) →
  disciplined needed held (for_each xs body).
Proof.
  intros H. induction xs as [|x xs IH]; simpl.
  - by apply disciplined_silent.
  - apply disciplined_bind; [apply H|intros _; apply IH].
Qed.

Lemma disciplined_lock {A} held l (body : M A) :
  may_acquire needed held l = true →
  disciplined needed (l :: held) body →
  disciplined needed held (_run_with_process_lock l body).
Proof.
  intros Hl Hb st. rewrite run_with_process_lock_eq.
  destruct (Hb (locked l st)) as (evs & E & R).
  rewrite locked_log in E.
  exists (Acquire l :: evs ++ [Release l]). split.
  - destruct (body _) as [[a|e] st1]; simpl in *; rewrite E;
      by rewrite <- !app_assoc.
  - simpl. rewrite Hl, replay_app, R. simpl. by case_decide.
Qed.

Lemma disciplined_get_task held u lock :
  may_acquire needed held L_task = true →
  disciplined needed held (_get_task_details u lock).
Proof.
  intros H. destruct lock.
  - apply disciplined_lock; [done|].
    apply disciplined_silent, silent_get_task_unlocked.
  - apply disciplined_silent, silent_get_task_unlocked.
Qed.

Lemma disciplined_list_links_guarded held d :
  disciplined needed held
    (try_except (list_links d) (unless_errno ENOENT (mret []))).
Proof. apply disciplined_silent, pure_silent, pure_list_links_guarded. Qed.

Lemma disciplined_get_flow_unlocked held u :
  may_acquire needed held L_task = true →
  disciplined needed held (_get_flow_details u false).
Proof.
  intros H. unfold _get_flow_details.
  apply disciplined_bind; [|intros meta].
  { apply disciplined_silent.
    apply silent_bind; [apply silent_read_from|intros d; apply pure_silent, pure_decode_json]. }
  apply disciplined_bind; [|intros fd].
  { apply disciplined_silent, pure_silent, pure_unformat_flow. }
  apply disciplined_bind; [apply disciplined_list_links_guarded|intros tds].
  apply disciplined_fold_M. intros b x.
  apply disciplined_bind; [by apply disciplined_get_task|intros td].
  by apply disciplined_silent.
Qed.

Lemma disciplined_get_flow_locked held u :
  may_acquire needed held L_flow = true →
  may_acquire needed (L_flow :: held) L_task = true →
  disciplined needed held (_get_flow_details u true).
Proof.
  intros H1 H2. apply disciplined_lock; [done|].
  by apply disciplined_get_flow_unlocked.
Qed.

Lemma disciplined_get_logbook held u :
  may_acquire needed held L_flow = true →
  may_acquire needed (L_flow :: held) L_task = true →
  disciplined needed held (_get_logbook u).
Proof.
  intros H1 H2. unfold _get_logbook.
  apply disciplined_bind; [|intros meta].
  { apply disciplined_silent. apply silent_try_except.
    - apply silent_bind; [apply silent_read_from|intros d; apply pure_silent, pure_decode_json].
    - intros e k Hk. destruct e; simplify_eq. by case_decide; simplify_eq. }
  apply disciplined_bind; [|intros lb].
  { apply disciplined_silent, pure_silent, pure_unformat_logbook. }
  apply disciplined_bind; [apply disciplined_list_links_guarded|intros fds].
  apply disciplined_fold_M. intros b x.
  apply disciplined_bind; [by apply disciplined_get_flow_locked|intros fd].
  by apply disciplined_silent.
Qed.

Lemma disciplined_save_flow_details held fd ign :
  may_acquire needed held L_task = true →
  disciplined needed held (_save_flow_details fd ign).
Proof.
  intros H. unfold _save_flow_details.
  apply disciplined_bind; [|intros e_fd].
  { apply disciplined_try_except.
    - apply disciplined_fmap. by apply disciplined_get_flow_unlocked.
    - intros e k Hk. destruct (is_EnvironmentError e); simplify_eq.
      apply disciplined_silent. by destruct ign. }
  apply disciplined_bind; [apply disciplined_silent, silent_ensure_tree|intros _].
  apply disciplined_bind; [apply disciplined_silent, silent_write_to|intros _].
  apply disciplined_bind; [|intros _; by apply disciplined_silent].
  case_bool_decide; [|by apply disciplined_silent].
  apply disciplined_bind; [apply disciplined_silent, silent_ensure_tree|intros _].
  apply disciplined_lock; [done|].
  apply disciplined_silent, silent_save_tasks_and_link.
Qed.

Lemma disciplined_save_flows_and_link held fds dir :
  may_acquire needed held L_task = true →
  disciplined needed held (_save_flows_and_link fds dir).
Proof.
  intros H. apply disciplined_for_each. intros fd.
  apply disciplined_bind; [by apply disciplined_save_flow_details|intros _].
  apply disciplined_silent, silent_link_child.
Qed.

Lemma disciplined_save_logbook held book :
  may_acquire needed held L_flow = true →
  may_acquire needed (L_flow :: held) L_task = true →
  disciplined needed held (_save_logbook book).
Proof.
  intros H1 H2. unfold _save_logbook.
  apply disciplined_bind; [|intros e_lb].
  { apply disciplined_try_except.
    - apply disciplined_fmap. by apply disciplined_get_logbook.
    - intros e k Hk. destruct e; simplify_eq. by apply disciplined_silent. }
  apply disciplined_bind; [apply disciplined_silent, silent_ensure_tree|intros _].
  apply disciplined_bind; [by apply disciplined_silent|intros meta].
  apply disciplined_bind; [apply disciplined_silent, silent_write_to|intros _].
  apply disciplined_bind; [|intros _; by apply disciplined_silent].
  case_bool_decide; [|by apply disciplined_silent].
  apply disciplined_bind; [apply disciplined_silent, silent_ensure_tree|intros _].
  apply disciplined_lock; [done|].
  by apply disciplined_save_flows_and_link.
Qed.

Lemma disciplined_get_logbooks held :
  may_acquire needed held L_flow = true →
  may_acquire needed (L_flow :: held) L_task = true →
  disciplined needed held get_logbooks.
Proof.
  intros H1 H2. apply disciplined_try_except.
  - apply disciplined_bind; [|intros uuids].
    + apply disciplined_silent, pure_silent. apply pure_try_except.
      * apply pure_bind; [apply pure_listdir|intros names].
        apply pure_filter_M. intros x. apply pure_isdir.
      * by intros e k [->| ->]%unless_errno_Some.
    + apply disciplined_fold_M. intros acc u.
      apply disciplined_try_except.
      * apply disciplined_bind; [by apply disciplined_get_logbook|intros lb].
        by apply disciplined_silent.
      * intros e k Hk. destruct e; simplify_eq. by apply disciplined_silent.
  - intros e k Hk. destruct (is_EnvironmentError e); simplify_eq.
    by apply disciplined_silent.
Qed.

Lemma disciplined_destroy_logbook held u :
  may_acquire needed held L_book = true →
  may_acquire needed (L_book :: held) L_flow = true →
  may_acquire needed (L_flow :: L_book :: held) L_task = true →
  disciplined needed held (destroy_logbook u).
Proof.
  intros H1 H2 H3. apply disciplined_lock; [done|].
  apply disciplined_bind; [by apply disciplined_get_logbook|intros book].
  apply disciplined_bind; [|intros _; apply disciplined_silent, silent_remove_tree].
  apply disciplined_lock; [done|].
  apply disciplined_for_each. intros fd.
  apply disciplined_bind; [|intros _; apply disciplined_silent, silent_remove_tree].
  apply disciplined_lock; [done|].
  apply disciplined_silent, silent_for_each. intros td. apply silent_remove_tree.
Qed.
End discipline.


(** ** From the discipline to the chain *)

Lemma may_acquire_true needed held l :
  may_acquire needed held l = true ↔
  l ∈ needed
  ∧ Forall (λ h, (rank h < rank l)%nat) held
  ∧ (∀ o, outer_of l = Some o → o ∈ needed → o ∈ held).
Proof.
  unfold may_acquire. rewrite !andb_true_iff, bool_decide_eq_true.
  rewrite forallb_forall, Forall_forall.
  split.
  - intros [[? Hf] Ho]. split_and!; [done| |].
    + intros h Hh. apply list_elem_of_In in Hh. specialize (Hf _ Hh).
      by apply bool_decide_eq_true in Hf.
    + intros o Heq. rewrite Heq in Ho. by apply bool_decide_eq_true in Ho.
  - intros (? & Hf & Ho). split_and!; [done| |].
    + intros h Hh. apply bool_decide_eq_true, Hf. by apply list_elem_of_In.
    + destruct (outer_of l) as [o|]; [|done]. apply bool_decide_eq_true. eauto.
Qed.

Lemma acquired_cons_Acquire l evs : acquired (Acquire l :: evs) = l :: acquired evs.
Proof. done. Qed.

Lemma acquired_cons_Release l evs : acquired (Release l :: evs) = acquired evs.
Proof. done. Qed.

Lemma replay_acquired needed held evs held' :
  replay needed held evs = Some held' → ∀ l, l ∈ acquired evs → l ∈ needed.
Proof.
  revert held. induction evs as [|[l|l] evs IH]; intros held; cbn [replay].
  - intros _ l Hl. by apply elem_of_nil in Hl.
  - destruct (may_acquire needed held l) eqn:E; [|done].
    intros Hr l' Hl'. rewrite acquired_cons_Acquire in Hl'.
    apply elem_of_cons in Hl' as [->|Hl']; [|by eapply IH].
    by apply may_acquire_true in E as [? _].
  - destruct held as [|h held]; [done|]. case_decide; [|done].
    rewrite acquired_cons_Release. apply IH.
Qed.

Lemma replay_shrink needed needed' held evs held' :
  replay needed held evs = Some held' →
  (∀ l, l ∈ acquired evs → l ∈ needed') →
  (∀ l, l ∈ needed' → l ∈ needed) →
  replay needed' held evs = Some held'.
Proof.
  intros Hr Ha Hsub. revert held Hr Ha.
  induction evs as [|[l|l] evs IH]; intros held; cbn [replay]; [done|..].
  - destruct (may_acquire needed held l) eqn:E; [|done].
    intros Hr Ha. rewrite acquired_cons_Acquire in Ha.
    assert (may_acquire needed' held l = true) as ->.
    { apply may_acquire_true in E as (_ & Hf & Ho).
      apply may_acquire_true. split_and!; [apply Ha; by left|done|].
      intros o Hoe Hin. eauto. }
    apply IH; [done|]. intros l' Hl'. apply Ha. by right.
  - destruct held as [|h held]; [done|]. case_decide; [|done].
    rewrite acquired_cons_Release. apply IH.
Qed.

Lemma replay_held_after needed held evs held' :
  replay needed held evs = Some held' → held' = held_after held evs.
Proof.
  revert held. induction evs as [|[l|l] evs IH]; intros held; simpl.
  - by intros [= <-].
  - destruct (may_acquire needed held l); [apply IH|done].
  - destruct held as [|h held]; [done|]. case_decide; [apply IH|done].
Qed.

Lemma replay_acquired_under needed held evs held' outer inner :
  replay needed held evs = Some held' →
  outer_of inner = Some outer → outer ∈ needed →
  ∀ pre post, evs = pre ++ Acquire inner :: post → outer ∈ held_after held pre.
Proof.
  intros Hr Ho Hn pre post ->. rewrite replay_app in Hr.
  destruct (replay needed held pre) as [hp|] eqn:Ep; [|done].
  apply replay_held_after in Ep as <-. simpl in Hr.
  destruct (may_acquire needed hp inner) eqn:E; [|done].
  apply may_acquire_true in E as (_ & _ & H). eauto.
Qed.

Lemma disciplined_new_events {A} needed (m : M A) st :
  disciplined needed [] m →
  replay needed [] (new_events st (m st).2) = Some [].
Proof.
  intros H. destruct (H st) as (evs & E & R).
  unfold new_events. by rewrite E, drop_app_length.
Qed.

Lemma replay_follows_chain needed evs :
  replay needed [] evs = Some [] → follows_chain evs.
Proof.
  intros H. eapply replay_shrink; [exact H|done|].
  by eapply replay_acquired.
Qed.

Lemma follows_chain_under outer inner evs :
  follows_chain evs → outer_of inner = Some outer →
  outer ∈ acquired evs → acquired_under outer inner evs.
Proof. intros H Ho Hin pre post. by eapply replay_acquired_under. Qed.

(** ** The discipline of each operation *)

Lemma disciplined_discard {A} needed held (m : M A) :
  disciplined needed held m → disciplined needed held (m;; mret ()).
Proof. intros H. apply disciplined_bind; [done|]. intros _. by apply disciplined_silent. Qed.

Lemma disciplined_validate needed : disciplined needed [] validate.
Proof.
  apply disciplined_silent, silent_for_each. intros p.
  apply silent_bind; [apply pure_silent, pure_isdir|intros b]. by destruct b.
Qed.

Lemma silent_as_storage_error {A} (m : M A) :
  silent m → silent (try_except m as_storage_error).
Proof.
  intros H. apply silent_try_except; [done|].
  intros e k Hk. unfold as_storage_error in Hk.
  destruct (is_EnvironmentError e); by simplify_eq.
Qed.

Lemma disciplined_upgrade : disciplined [L_init] [] upgrade.
Proof.
  apply disciplined_bind; [|intros _].
  - apply disciplined_silent, silent_for_each. intros p.
    apply silent_as_storage_error, silent_ensure_tree.
  - apply disciplined_lock; [done|].
    apply disciplined_silent, silent_for_each. intros p.
    apply silent_as_storage_error, silent_ensure_tree.
Qed.

Lemma disciplined_clear_all :
  disciplined [L_init; L_book; L_flow; L_task] [] clear_all.
Proof.
  repeat (apply disciplined_lock; [done|]).
  apply disciplined_silent, silent_for_each. intros d.
  apply silent_bind; [apply pure_silent, pure_isdir|intros b].
  destruct b; [apply silent_rmtree|done].
Qed.

Lemma disciplined_save_logbook_op book :
  disciplined [L_book; L_flow; L_task] [] (save_logbook book).
Proof. apply disciplined_lock; [done|]. by apply disciplined_save_logbook. Qed.

Lemma disciplined_operation op :
  ∃ needed, disciplined needed [] (run_operation op).
Proof.
  destruct op; simpl.
  - exists []. apply disciplined_validate.
  - exists [L_init]. apply disciplined_upgrade.
  - eexists. apply disciplined_clear_all.
  - exists [L_flow; L_task]. by apply disciplined_discard, disciplined_get_logbooks.
  - exists [L_book; L_flow; L_task]. apply disciplined_discard.
    apply disciplined_lock; [done|]. by apply disciplined_get_logbook.
  - exists [L_book; L_flow; L_task]. apply disciplined_discard, disciplined_save_logbook_op.
  - exists [L_flow; L_task]. apply disciplined_discard.
    apply disciplined_lock; [done|]. by apply disciplined_save_flow_details.
  - exists [L_task]. apply disciplined_discard.
    apply disciplined_lock; [done|].
    apply disciplined_silent, silent_save_task_details.
  - exists [L_book; L_flow; L_task]. by apply disciplined_destroy_logbook.
Qed.

(** C3: the lock events of every operation follow the chain
    init -> book -> flow -> task: a lock is taken only while all held locks
    are further out, locks are released innermost first, and whenever the
    operation takes both the book and the flow lock (the flow and the task
    lock) the flow lock (the task lock) is only taken while the book lock
    (the flow lock) is held.  For [save_logbook] the book lock is always
    taken, so every flow acquisition is under the book lock and every task
    acquisition under the flow lock; saving a book with a flow with tasks
    in a fresh store takes book, flow, task nested in that order. *)
Theorem lock_acquisition_follows_chain (op : operation) (st : state) :
  let evs := new_events st (run_operation op st).2 in
  follows_chain evs
  ∧ (L_book ∈ acquired evs → acquired_under L_book L_flow evs)
  ∧ (L_flow ∈ acquired evs → acquired_under L_flow L_task evs)
  ∧ (∀ book, op = Op_save_logbook book →
       acquired_under L_book L_flow evs ∧ acquired_under L_flow L_task evs)
  ∧ new_events fresh_store (save_logbook book_1 fresh_store).2
    = [Acquire L_book; Acquire L_flow; Acquire L_task;
       Release L_task; Release L_flow; Release L_book].
Proof.
  intros evs. destruct (disciplined_operation op) as [needed Hd].
  pose proof (disciplined_new_events _ _ st Hd) as Hr. fold evs in Hr.
  assert (follows_chain evs) as Hf by by eapply replay_follows_chain.
  split_and!; [done|by apply follows_chain_under..| |by vm_compute].
  intros book ->.
  pose proof (disciplined_new_events _ _ st
                (disciplined_discard _ _ _ (disciplined_save_logbook_op book))) as Hs.
  split; intros pre post Heq.
  - eapply (replay_acquired_under _ _ _ _ L_book L_flow); [exact Hs|done| |exact Heq].
    apply list_elem_of_here.
  - eapply (replay_acquired_under _ _ _ _ L_flow L_task); [exact Hs|done| |exact Heq].
    apply list_elem_of_further, list_elem_of_here.
Qed.


(** ** Enumerating the books *)

Lemma pure_list_dirs d : pure_run (list_dirs d).
Proof.
  apply pure_bind; [apply pure_listdir|intros names].
  apply pure_filter_M. intros x. apply pure_isdir.
Qed.

Lemma raises_list_dirs d : raises_only low_level (list_dirs d).
Proof.
  apply raises_only_bind; [apply raises_listdir|intros names].
  apply raises_only_filter_M. intros x. apply raises_isdir.
Qed.

Lemma filter_M_isdir_Ok d names st :
  ∃ dirs, filter_M (λ x, os_path_isdir (path_join d x)) names st = (Ok dirs, st).
Proof.
  induction names as [|x names [dirs IH]]; simpl; [by eexists|].
  rewrite run_bind. unfold os_path_isdir at 1.
  destruct (stat (fs st) (path_join d x)) as [?|[]];
    rewrite run_bind, IH; by eexists.
Qed.

Lemma listdir_eq p st :
  os_listdir p st =
  match stat (fs st) p with
  | inl e => (Raise (EnvironmentError (Some e)), st)
  | inr Dir =>
      (Ok (entries (fs st) (match realpath MAXSYMLINKS (fs st) p with
                            | inr r => r | inl _ => p end)), st)
  | inr _ => (Raise (EnvironmentError (Some ENOTDIR)), st)
  end.
Proof.
  unfold os_listdir, stat. destruct (realpath _ _ _) as [e|r]; [done|].
  by destruct (lstat (fs st) r) as [?|[]].
Qed.

Lemma list_dirs_of_missing d st :
  missing st d → list_dirs d st = (Raise (EnvironmentError (Some ENOENT)), st).
Proof.
  intros H. unfold list_dirs. rewrite run_bind, listdir_eq. by rewrite H.
Qed.

Lemma list_dirs_error d st c :
  (os_listdir d st).1 = Raise (EnvironmentError c) →
  list_dirs d st = (Raise (EnvironmentError c), st).
Proof.
  intros H. unfold list_dirs. rewrite run_bind.
  pose proof (pure_listdir d st) as Hp.
  destruct (os_listdir d st) as [[names|e] s]; simpl in *; by simplify_eq.
Qed.

Lemma cache_data_raises p st e st' :
  cache_data p st = (Raise e, st') → e = KeyError.
Proof. unfold cache_data. repeat case_match; by intros [= <- _]. Qed.

Lemma read_from_raises p st e st' :
  _read_from p st = (Raise e, st') →
  (∃ c, stat (fs st) p = inl c ∧ e = EnvironmentError (Some c))
  ∨ e = EnvironmentError (Some EISDIR) ∨ e = KeyError.
Proof.
  unfold _read_from. rewrite run_bind. unfold os_path_getmtime at 1.
  destruct (stat (fs st) p) as [c|n] eqn:Hs; [intros [= <- _]; eauto|].
  assert (∀ m s s', fs s = fs st →
            (open_read p ≫= λ data, cache_fill p m data) s = (Raise e, s') →
            e = EnvironmentError (Some EISDIR)) as Hopen.
  { intros m s s' Hfs. rewrite run_bind. unfold open_read. rewrite Hfs, Hs.
    destruct n; by intros [= <- _]. }
  set (m := match n with File m _ => m | _ => 0 end).
  assert ((cache_setdefault p ≫= λ cache_info : cache_entry,
             (if bool_decide (cache_info = None)
                 || bool_decide (m > default 0 (fst <$> cache_info))
              then open_read p ≫= λ data : doc, cache_fill p m data
              else mret ()) ≫= λ _ : (), cache_data p) st = (Raise e, st') →
          e = EnvironmentError (Some EISDIR) ∨ e = KeyError) as Hrest.
  { rewrite run_bind. unfold cache_setdefault.
    destruct (file_cache st !! p) as [ci|]; rewrite run_bind.
    - destruct (bool_decide (ci = None) || _).
      + destruct ((open_read p ≫= _) st) as [[[]|e'] s1] eqn:Ho.
        * intros ?%cache_data_raises. eauto.
        * intros [= <- _]. left. eapply Hopen; [|exact Ho]; done.
      + simpl. intros ?%cache_data_raises. eauto.
    - simpl.
      destruct ((open_read p ≫= _) (set_cache _ st)) as [[[]|e'] s1] eqn:Ho.
      + intros ?%cache_data_raises. eauto.
      + intros [= <- _]. left. eapply Hopen; [|exact Ho]; done. }
  destruct n; intros H; right; by apply Hrest.
Qed.

Lemma read_from_ENOENT p st st' :
  _read_from p st = (Raise (EnvironmentError (Some ENOENT)), st') → missing st p.
Proof.
  intros [(c & Hs & [= <-])|[[=]|[=]]]%read_from_raises. done.
Qed.

Lemma get_logbook_missing u st :
  missing st (book_metadata u) →
  ∃ st', _get_logbook u st = (Raise NotFound, st') ∧ st' = st.
Proof.
  intros H. exists st. split; [|done]. unfold _get_logbook.
  rewrite run_bind, run_try_except, run_bind.
  change (path_join (path_join _book_path u) "metadata") with (book_metadata u).
  unfold _read_from. rewrite run_bind. unfold os_path_getmtime.
  unfold missing in H. by rewrite H.
Qed.

Lemma get_logbook_NotFound u st st' :
  _get_logbook u st = (Raise NotFound, st') → missing st (book_metadata u).
Proof.
  intros Hg.
  destruct ((_read_from (book_metadata u) ≫= decode_json) st) as [[d|e] s1] eqn:Hrd.
  { by destruct (get_logbook_not_NotFound _ _ _ _ _ _ Hrd Hg). }
  unfold _get_logbook in Hg. rewrite run_bind, run_try_except in Hg.
  change (path_join (path_join _book_path u) "metadata") with (book_metadata u) in Hg.
  rewrite Hrd in Hg.
  assert (low_level e) as Hlow.
  { eapply (raises_only_bind low_level); [apply raises_read_from| |exact Hrd].
    apply raises_decode_json. }
  rewrite run_bind in Hrd.
  destruct (_read_from (book_metadata u) st) as [[d|e'] s2] eqn:Hr.
  - destruct d; simpl in Hrd; unfold mret, M_ret, raise in Hrd; by simplify_eq.
  - simplify_eq. destruct e as [c| | | | |]; try done.
    destruct (decide (c = Some ENOENT)) as [->|Hne].
    + by eapply read_from_ENOENT.
    + cbv beta iota in Hg. unfold raise in Hg. cbv beta iota in Hg. by injection Hg.
Qed.

Lemma get_logbook_same_data u : steps same_data (_get_logbook u).
Proof. eapply steps_get_logbook; [apply same_data_frame|done..]. Qed.

Lemma book_metadata_data u : data_path (book_metadata u).
Proof. left. by eexists. Qed.

Lemma get_logbooks_fold st0 dirs acc st books st' :
  same_data st0 st →
  (∀ u, u ∈ dirs → link_at (fs st0) (book_metadata u) = false) →
  fold_M (λ acc lb_uuid,
            try_except (lb ← _get_logbook lb_uuid; mret (acc ++ [lb]))
              (λ e, match e with NotFound => Some (mret acc) | _ => None end))
         dirs acc st = (Ok books, st') →
  map lb_uuid books
  = map lb_uuid acc
    ++ filter (λ u, stat (fs st0) (book_metadata u) ≠ inl ENOENT) dirs.
Proof.
  revert acc st. induction dirs as [|u dirs IH]; intros acc st Hsd Hnl; simpl.
  - intros [= <- _]. by rewrite app_nil_r.
  - intros (acc' & s1 & Hstep & Hrest)%bind_Ok.
    rewrite run_try_except, run_bind in Hstep.
    pose proof (get_logbook_same_data u st) as Hfs.
    assert (stat (fs st) (book_metadata u) = stat (fs st0) (book_metadata u)) as Hstat.
    { apply stat_same_data; [done|apply book_metadata_data|]. apply Hnl. by left. }
    assert (∀ v, v ∈ dirs → link_at (fs st0) (book_metadata v) = false) as Hnl'.
    { intros v Hv. apply Hnl. by right. }
    destruct (_get_logbook u st) as [[lb|e] s2] eqn:Hg; simpl in *.
    + unfold mret, M_ret in Hstep. simplify_eq.
      apply IH in Hrest; [|by etrans|done]. rewrite Hrest, map_app. simpl.
      rewrite filter_cons_True.
      * apply get_logbook_fields in Hg as [-> _]. by rewrite <- app_assoc.
      * rewrite <- Hstat. intros Hm.
        destruct (get_logbook_missing u st Hm) as (? & Hg' & _).
        by rewrite Hg in Hg'.
    + destruct e; try done. unfold mret, M_ret in Hstep. simplify_eq.
      apply IH in Hrest; [|by etrans|done]. rewrite Hrest.
      rewrite filter_cons_False; [done|].
      rewrite <- Hstat. intros Hm. apply Hm. by eapply get_logbook_NotFound.
Qed.

Lemma raises_get_logbooks : raises_only not_NotFound get_logbooks.
Proof.
  eapply (raises_only_try_except _ not_NotFound).
  - apply raises_only_bind; [|intros uuids].
    + eapply raises_only_weaken; [apply low_level_not_NotFound|].
      eapply raises_only_try_except; [apply raises_list_dirs|by intros|].
      intros e k He [->| ->]%unless_errno_Some;
        [apply raises_only_ret|by apply raises_only_raise].
    + apply raises_only_fold_M. intros acc u.
      eapply (raises_only_try_except _ (λ _, True)).
      * by intros st e st' _.
      * intros e _ He. by destruct e.
      * intros e k _ Hk. destruct e; simplify_eq. apply raises_only_ret.
  - by intros e He _.
  - intros e k He Hk. destruct (is_EnvironmentError e); simplify_eq.
    by apply raises_only_raise.
Qed.

Lemma get_logbooks_eq st :
  get_logbooks st =
  match _get_logbooks st with
  | (Ok books, st') => (Ok books, st')
  | (Raise e, st') =>
      (Raise (if is_EnvironmentError e then StorageError e else e), st')
  end.
Proof.
  unfold get_logbooks. rewrite run_try_except.
  destruct (_get_logbooks st) as [[books|e] st']; [done|].
  by destruct (is_EnvironmentError e).
Qed.

(** C10 (amended): [get_logbooks] never raises [NotFound]; a missing books
    directory gives the empty sequence; an environment error of the
    enumeration other than ENOENT, and any environment error that escapes
    the per-book loads, reaches the caller as a [StorageError] wrapping it;
    when the enumeration succeeds and no metadata path of a listed
    directory is a symbolic link, the books returned are those of the
    listed directories whose metadata file is there, the others being
    left out; and the enumeration takes neither the init nor the book
    lock: the only locks taken are the flow and task locks of the per-book
    loads. *)
Theorem get_logbooks_outcomes (st : state) :
  (get_logbooks st).1 ≠ Raise NotFound
  ∧ (missing st _book_path → get_logbooks st = (Ok [], st))
  ∧ (∀ c, (os_listdir _book_path st).1 = Raise (EnvironmentError c) →
          c ≠ Some ENOENT →
          get_logbooks st = (Raise (StorageError (EnvironmentError c)), st))
  ∧ (∀ e st', _get_logbooks st = (Raise e, st') → is_EnvironmentError e = true →
              get_logbooks st = (Raise (StorageError e), st'))
  ∧ (∀ dirs books st',
       list_dirs _book_path st = (Ok dirs, st) →
       (∀ u, u ∈ dirs → link_at (fs st) (book_metadata u) = false) →
       get_logbooks st = (Ok books, st') →
       map lb_uuid books
       = filter (λ u, stat (fs st) (book_metadata u) ≠ inl ENOENT) dirs)
  ∧ (∀ l, l ∈ acquired (new_events st (get_logbooks st).2) →
          l = L_flow ∨ l = L_task).
Proof.
  split_and!.
  - intros H. destruct (get_logbooks st) as [r st'] eqn:E. simpl in H. subst r.
    by apply raises_get_logbooks in E.
  - intros Hm. rewrite get_logbooks_eq. unfold _get_logbooks.
    rewrite run_bind, run_try_except, (list_dirs_of_missing _ _ Hm). done.
  - intros c Hc Hne. rewrite get_logbooks_eq. unfold _get_logbooks.
    rewrite run_bind, run_try_except, (list_dirs_error _ _ _ Hc).
    simpl. by rewrite decide_True.
  - intros e st' He Henv. by rewrite get_logbooks_eq, He, Henv.
  - intros dirs books st' Hdirs Hnl Hget. rewrite get_logbooks_eq in Hget.
    destruct (_get_logbooks st) as [[bs|e] s] eqn:E; [|done]. simplify_eq.
    unfold _get_logbooks in E. rewrite run_bind, run_try_except, Hdirs in E.
    by apply (get_logbooks_fold st) in E.
  - intros l Hl.
    assert (disciplined [L_flow; L_task] [] get_logbooks) as Hd
      by by apply disciplined_get_logbooks.
    pose proof (disciplined_new_events _ _ st Hd) as Hr.
    pose proof (replay_acquired _ _ _ _ Hr l Hl) as Hin.
    apply elem_of_cons in Hin as [->|Hin]; [by left|].
    apply elem_of_cons in Hin as [->|Hin]; [by right|].
    by apply elem_of_nil in Hin.
Qed.

(** C10, as stated, fails: enumerating a store that holds a book with a
    flow takes the flow lock (and the task lock, once per task). *)
Lemma get_logbooks_takes_locks :
  (get_logbooks saved_store).1 = Ok [mkLogBook "B1" (Some 100) None ""
                                       [mkFlowDetail "F1" "RUNNING" ""
                                          [task "B"; task "A"]]]
  ∧ acquired (new_events saved_store (get_logbooks saved_store).2)
    = [L_flow; L_task; L_task]
  ∧ acquired (new_events saved_store (get_logbooks saved_store).2) ≠ [].
Proof. by vm_compute. Qed.

(** Why links are excluded from the listed metadata paths: a path that is
    a dangling link to the lock file of the flow lock is absent when the
    enumeration starts and an empty file once the load of an earlier book
    has opened the lock file; with an entry left in the cache for the
    path, the book is returned. *)
Lemma get_logbooks_through_lock_file :
  (list_dirs _book_path stale_store).1 = Ok ["B1"; "B0"]
  ∧ link_at (fs stale_store) (book_metadata "B0") = true
  ∧ stat (fs stale_store) (book_metadata "B0") = inl ENOENT
  ∧ match (get_logbooks stale_store).1 with
    | Ok books => map lb_uuid books = ["B1"; "B0"]
    | Raise _ => False
    end.
Proof. split_and!; vm_compute; reflexivity. Qed.


(** ** Saving an entity without children *)

Lemma ensure_dirs_new_prefix (f : gmap path node) (pre rest : path) (q : path) (n : node) :
  (ensure_dirs f pre rest).1 !! q = Some n →
  f !! q = Some n ∨ (n = Dir ∧ q `prefix_of` pre ++ rest).
Proof.
  revert f pre. induction rest as [|c rest IH]; intros f pre; simpl.
  - destruct (f !! pre) as [[]|] eqn:E; simpl; eauto.
    + destruct (stat f pre) as [?|[]]; eauto.
    + destruct (decide (q = pre)) as [->|Hne].
      * rewrite lookup_insert_eq. intros ?; simplify_eq. right.
        split; [done|]. by rewrite app_nil_r.
      * rewrite lookup_insert_ne by done. eauto.
  - destruct (f !! pre) as [[]|] eqn:E; simpl; eauto.
    + intros [H|[? ?]]%IH; eauto. right. split; [done|].
      by rewrite <- app_assoc in *.
    + intros [H|[? ?]]%IH.
      * destruct (decide (q = pre)) as [->|Hne].
        -- rewrite lookup_insert_eq in H. simplify_eq. right.
           split; [done|]. by apply prefix_app_r.
        -- rewrite lookup_insert_ne in H by done. eauto.
      * right. split; [done|]. by rewrite <- app_assoc in *.
Qed.

Lemma ensure_dirs_there (f : gmap path node) (pre rest : path) :
  (ensure_dirs f pre rest).2 = None →
  is_Some ((ensure_dirs f pre rest).1 !! (pre ++ rest)).
Proof.
  revert f pre. induction rest as [|c rest IH]; intros f pre; simpl.
  - rewrite app_nil_r. destruct (f !! pre) as [n|] eqn:E.
    + destruct n; simpl; try done.
      destruct (stat f pre) as [?|[]]; simpl; try done.
    + simpl. intros _. by rewrite lookup_insert_eq.
  - destruct (f !! pre) as [[]|] eqn:E; simpl; try done.
    + intros H. apply IH in H. by rewrite <- app_assoc in H.
    + intros H. apply IH in H. by rewrite <- app_assoc in H.
Qed.

Lemma ensure_tree_Ok p st st' :
  ensure_tree p st = (Ok (), st') →
  st' = set_fs (ensure_dirs (fs st) [] p).1 st ∧ is_Some (fs st' !! p).
Proof.
  unfold ensure_tree.
  pose proof (ensure_dirs_there (fs st) [] p) as H.
  destruct (ensure_dirs (fs st) [] p) as [f' [e|]]; [done|].
  intros [= <-]. split; [done|]. by apply H.
Qed.

Lemma fd_add_missing_nil e tds :
  fd_tasks (fd_add_missing e tds) = [] → fd_tasks e = [] ∧ tds = [].
Proof.
  intros H. split.
  - destruct (fd_tasks e) as [|td l] eqn:E; [done|].
    assert (td_uuid td ∈ map td_uuid (fd_tasks (fd_add_missing e tds))) as Hin.
    { apply fd_add_missing_keeps. rewrite E. simpl. by left. }
    rewrite H in Hin. by apply elem_of_nil in Hin.
  - destruct tds as [|td l]; [done|].
    assert (td_uuid td ∈ map td_uuid (fd_tasks (fd_add_missing e (td :: l)))) as Hin.
    { apply fd_add_missing_adds. by left. }
    rewrite H in Hin. by apply elem_of_nil in Hin.
Qed.

Lemma lb_add_missing_nil e fds :
  lb_flows (lb_add_missing e fds) = [] → lb_flows e = [] ∧ fds = [].
Proof.
  intros H. split.
  - destruct (lb_flows e) as [|fd l] eqn:E; [done|].
    assert (fd_uuid fd ∈ map fd_uuid (lb_flows (lb_add_missing e fds))) as Hin.
    { apply lb_add_missing_keeps. rewrite E. simpl. by left. }
    rewrite H in Hin. by apply elem_of_nil in Hin.
  - destruct fds as [|fd l]; [done|].
    assert (fd_uuid fd ∈ map fd_uuid (lb_flows (lb_add_missing e (fd :: l)))) as Hin.
    { apply lb_add_missing_adds. by left. }
    rewrite H in Hin. by apply elem_of_nil in Hin.
Qed.

Lemma silent_Ok {A} (m : M A) st r st' :
  silent m → m st = (r, st') → lock_log st' = lock_log st.
Proof. intros H E. specialize (H st). by rewrite E in H. Qed.

Lemma load_tasks_length xs fd0 st r st' :
  fold_M (λ fd t_uuid, td ← _get_task_details t_uuid true; mret (fd_add fd td))
         xs fd0 st = (Ok r, st') →
  length (fd_tasks r) = (length (fd_tasks fd0) + length xs)%nat.
Proof.
  revert fd0 st. induction xs as [|x xs IH]; intros fd0 st; simpl.
  - intros [= <- _]. lia.
  - intros (fd1 & s1 & (td & s2 & _ & Hr)%bind_Ok & Hrest)%bind_Ok.
    unfold mret, M_ret in Hr. simplify_eq.
    apply IH in Hrest. rewrite Hrest. simpl. rewrite length_app. simpl. lia.
Qed.

Lemma load_flows_length xs lb0 st r st' :
  fold_M (λ lb fd_uuid, fd ← _get_flow_details fd_uuid true; mret (lb_add lb fd))
         xs lb0 st = (Ok r, st') →
  length (lb_flows r) = (length (lb_flows lb0) + length xs)%nat.
Proof.
  revert lb0 st. induction xs as [|x xs IH]; intros lb0 st; simpl.
  - intros [= <- _]. lia.
  - intros (lb1 & s1 & (fd & s2 & _ & Hr)%bind_Ok & Hrest)%bind_Ok.
    unfold mret, M_ret in Hr. simplify_eq.
    apply IH in Hrest. rewrite Hrest. simpl. rewrite length_app. simpl. lia.
Qed.

Lemma silent_read_decode p : silent (_read_from p ≫= decode_json).
Proof.
  apply silent_bind; [apply silent_read_from|intros d; apply pure_silent, pure_decode_json].
Qed.

Lemma read_decode_same_fs p : steps same_fs (_read_from p ≫= decode_json).
Proof.
  apply steps_bind; [apply _|intros st; apply read_from_same_fs|].
  intros d. apply steps_pure; [apply _|apply pure_decode_json].
Qed.

Lemma steps_run {A} (R : relation state) (m : M A) st r st' :
  steps R m → m st = (r, st') → R st st'.
Proof. intros H E. specialize (H st). by rewrite E in H. Qed.

Lemma pure_run_eq {A} (m : M A) st r st' : pure_run m → m st = (r, st') → st' = st.
Proof. intros H E. specialize (H st). by rewrite E in H. Qed.

Lemma get_flow_unlocked_childless u st e st1 :
  _get_flow_details u false st = (Ok e, st1) → fd_tasks e = [] →
  lock_log st1 = lock_log st ∧ fs st1 = fs st.
Proof.
  unfold _get_flow_details. intros Hg He.
  apply bind_Ok in Hg as (meta & s1 & Hrd & Hg).
  apply bind_Ok in Hg as (fd0 & s2 & (-> & sx & m & -> & ->)%unformat_flow_Ok & Hg).
  apply bind_Ok in Hg as (tds & s3 & Hl & Hg).
  apply (pure_Ok _ _ _ _ (pure_list_links_guarded _)) in Hl as ->.
  pose proof (load_tasks_length _ _ _ _ _ Hg) as Hlen.
  rewrite He in Hlen. simpl in Hlen. destruct tds; [|simpl in Hlen; lia].
  simpl in Hg. unfold mret, M_ret in Hg. simplify_eq.
  split; [by eapply silent_Ok; [apply silent_read_decode|]|].
  exact (steps_Ok _ _ _ _ _ (read_decode_same_fs _) Hrd).
Qed.

Lemma not_env_locked {A} l (body : M A) :
  raises_only (λ e, is_EnvironmentError e = false) (_run_with_process_lock l body).
Proof.
  apply raises_only_lock. intros st e st' _.
  by destruct e.
Qed.

Lemma get_flow_unlocked_env u st c st1 :
  _get_flow_details u false st = (Raise (EnvironmentError c), st1) →
  lock_log st1 = lock_log st ∧ fs st1 = fs st.
Proof.
  unfold _get_flow_details. rewrite run_bind.
  destruct ((_read_from _ ≫= decode_json) st) as [[meta|e] s1] eqn:Hrd.
  2:{ intros [= _ <-]. split; [by eapply silent_Ok; [apply silent_read_decode|]|].
      exact (steps_run _ _ _ _ _ (read_decode_same_fs _) Hrd). }
  pose proof (silent_Ok _ _ _ _ (silent_read_decode _) Hrd) as Hlog.
  pose proof (steps_run _ _ _ _ _ (read_decode_same_fs _) Hrd) as Hfs.
  rewrite run_bind.
  destruct (unformat_flow_detail u meta s1) as [[fd0|e] s2] eqn:Hu.
  2:{ intros [= _ <-].
      apply (pure_run_eq _ _ _ _ (pure_unformat_flow _ _)) in Hu as ->. done. }
  apply (pure_run_eq _ _ _ _ (pure_unformat_flow _ _)) in Hu as ->.
  rewrite run_bind.
  destruct (try_except _ _ s1) as [[tds|e] s3] eqn:Hl.
  2:{ intros [= _ <-].
      apply (pure_run_eq _ _ _ _ (pure_list_links_guarded _)) in Hl as ->. done. }
  intros Hf. exfalso.
  eapply (raises_only_fold_M (λ e, is_EnvironmentError e = false)) in Hf; [done|].
  intros b x. apply raises_only_bind; [apply not_env_locked|].
  intros td. apply raises_only_ret.
Qed.

Lemma read_book_metadata_same_fs u :
  steps same_fs
    (try_except (_read_from (book_metadata u) ≫= decode_json)
       (λ e, match e with
             | EnvironmentError c =>
                 if decide (c = Some ENOENT) then Some (raise NotFound)
                 else Some (raise e)
             | _ => None
             end)).
Proof.
  apply steps_try_except; [apply _|apply read_decode_same_fs|].
  intros e k Hk. destruct e; simplify_eq.
  case_decide; simplify_eq; by apply steps_pure; [apply _|].
Qed.

Lemma get_logbook_childless u st e st1 :
  _get_logbook u st = (Ok e, st1) → lb_flows e = [] →
  lock_log st1 = lock_log st ∧ fs st1 = fs st.
Proof.
  unfold _get_logbook. intros Hg He.
  apply bind_Ok in Hg as (meta & s1 & Hrd & Hg).
  apply bind_Ok in Hg as (lb0 & s2 & (-> & c & up & m & -> & ->)%unformat_logbook_Ok & Hg).
  apply bind_Ok in Hg as (fds & s3 & Hl & Hg).
  apply (pure_Ok _ _ _ _ (pure_list_links_guarded _)) in Hl as ->.
  pose proof (load_flows_length _ _ _ _ _ Hg) as Hlen.
  rewrite He in Hlen. simpl in Hlen. destruct fds; [|simpl in Hlen; lia].
  simpl in Hg. unfold mret, M_ret in Hg. simplify_eq.
  split.
  - eapply silent_Ok; [|exact Hrd].
    apply silent_try_except; [apply silent_read_decode|].
    intros e k Hk. destruct e; simplify_eq. by case_decide; simplify_eq.
  - exact (steps_Ok _ _ _ _ _ (read_book_metadata_same_fs u) Hrd).
Qed.

Lemma new_events_nil st st' : lock_log st' = lock_log st → new_events st st' = [].
Proof. intros H. unfold new_events. rewrite H. by rewrite drop_all. Qed.

Lemma acquired_app evs1 evs2 : acquired (evs1 ++ evs2) = acquired evs1 ++ acquired evs2.
Proof. unfold acquired. by rewrite omap_app. Qed.

Lemma disciplined_Ok {A} needed held (m : M A) st r st' :
  disciplined needed held m → m st = (r, st') →
  ∃ evs, lock_log st' = lock_log st ++ evs.
Proof. intros H E. destruct (H st) as (evs & He & _). rewrite E in He. eauto. Qed.

Lemma locked_acquires {A} l (body : M A) st0 st r st' evs0 :
  lock_log st = lock_log st0 ++ evs0 →
  _run_with_process_lock l body st = (r, st') →
  (∃ evs, lock_log (body (locked l st)).2
          = lock_log (locked l st) ++ evs) →
  l ∈ acquired (new_events st0 st').
Proof.
  intros H0 Hrun [evs Hb]. rewrite run_with_process_lock_eq in Hrun.
  assert (lock_log st' = lock_log st0 ++ evs0 ++ Acquire l :: evs ++ [Release l]) as Hlog.
  { rewrite locked_log in Hb.
    destruct (body _) as [[a|e] s1]; simplify_eq; simpl in *;
      rewrite Hb, H0; by rewrite <- !app_assoc. }
  unfold new_events. rewrite Hlog, drop_app_length.
  rewrite acquired_app. apply elem_of_app. right. simpl. by left.
Qed.

Lemma written_nodes dir (d : doc) st1 st2 st3 :
  link_at (fs st1) (path_join dir "metadata") = false →
  ensure_tree dir st1 = (Ok (), st2) →
  _write_to (path_join dir "metadata") d st2 = (Ok (), st3) →
  ∀ p n, fs st3 !! p = Some n → fs st1 !! p = Some n ∨ own_node dir d p n.
Proof.
  intros Hnl [-> _]%ensure_tree_Ok Hwr p n.
  destruct (write_to_fs (path_join dir "metadata") d
              (set_fs (ensure_dirs (fs st1) [] dir).1 st1))
    as [[x Hx]|(r0 & Hr0 & _ & _ & Hx)]; rewrite Hx in Hwr; [done|].
  injection Hwr as <-. cbn [fs set_cache set_clock set_fs] in *.
  rewrite realpath_of_plain in Hr0.
  2:{ intros t [Ht|[? _]]%ensure_dirs_new_prefix; [|done].
      unfold link_at in Hnl. by rewrite Ht in Hnl. }
  injection Hr0 as <-.
  destruct (decide (p = path_join dir "metadata")) as [->|Hne].
  - rewrite lookup_insert_eq. intros [= <-]. right. right. split; [done|]. by eexists.
  - rewrite lookup_insert_ne by done.
    intros [?|[-> ?]]%ensure_dirs_new_prefix; [by left|].
    right. left. done.
Qed.

Lemma save_flow_details_uuid fd ign st r st' :
  _save_flow_details fd ign st = (Ok r, st') → fd_uuid r = fd_uuid fd.
Proof.
  unfold _save_flow_details. intros (e_fd & st1 & Hprobe & Hrun)%bind_Ok.
  apply bind_Ok in Hrun as ([] & st2 & _ & Hrun).
  apply bind_Ok in Hrun as ([] & st3 & _ & Hrun).
  apply bind_Ok in Hrun as ([] & st4 & _ & Hrun).
  unfold mret, M_ret in Hrun. injection Hrun as <- _.
  destruct e_fd as [e|]; [|done]. rewrite fd_add_missing_uuid. simpl.
  apply probe_existing_Ok in Hprobe as [(a & Hget & [= <-])|(? & _)]; [|done].
  by eapply get_flow_details_uuid.
Qed.

Lemma save_logbook_uuid book st r st' :
  _save_logbook book st = (Ok r, st') → lb_uuid r = lb_uuid book.
Proof.
  unfold _save_logbook. intros (e_lb & st1 & Hprobe & Hrun)%bind_Ok.
  apply bind_Ok in Hrun as ([] & st2 & _ & Hrun).
  apply bind_Ok in Hrun as (meta & st2' & _ & Hrun).
  apply bind_Ok in Hrun as ([] & st3 & _ & Hrun).
  apply bind_Ok in Hrun as ([] & st4 & _ & Hrun).
  unfold mret, M_ret in Hrun. injection Hrun as <- _.
  destruct e_lb as [e|]; [|done]. simpl. rewrite lb_add_missing_uuid. simpl.
  apply try_except_Ok in Hprobe as [(a & Hget & [= <-])%fmap_Ok|(x & s & k & _ & Hk & Hr)].
  - by apply get_logbook_fields in Hget as [? _].
  - destruct x; simplify_eq.
Qed.

(** The entity written has the children of the incoming entity. *)
Lemma save_flow_details_children fd ign st r st' :
  _save_flow_details fd ign st = (Ok r, st') →
  (fd_tasks r = [] → fd_tasks fd = [])
  ∧ ∀ e s, _get_flow_details (fd_uuid fd) false st = (Ok e, s) →
           fd_tasks r = [] → fd_tasks e = [].
Proof.
  unfold _save_flow_details. intros (e_fd & st1 & Hprobe & Hrun)%bind_Ok.
  apply bind_Ok in Hrun as ([] & st2 & _ & Hrun).
  apply bind_Ok in Hrun as ([] & st3 & _ & Hrun).
  apply bind_Ok in Hrun as ([] & st4 & _ & Hrun).
  unfold mret, M_ret in Hrun. injection Hrun as <- _.
  apply probe_existing_Ok in Hprobe as [(a & Hget & ->)|(-> & _ & c & Hget)].
  - split.
    + by intros [_ ?]%fd_add_missing_nil.
    + intros e s He [Hn _]%fd_add_missing_nil. rewrite Hget in He. by simplify_eq.
  - split; [done|]. intros e s He. rewrite Hget in He. done.
Qed.

Lemma save_logbook_children book st r st' :
  _save_logbook book st = (Ok r, st') →
  (lb_flows r = [] → lb_flows book = [])
  ∧ ∀ e s, _get_logbook (lb_uuid book) st = (Ok e, s) →
           lb_flows r = [] → lb_flows e = [].
Proof.
  unfold _save_logbook. intros (e_lb & st1 & Hprobe & Hrun)%bind_Ok.
  apply bind_Ok in Hrun as ([] & st2 & _ & Hrun).
  apply bind_Ok in Hrun as (meta & st2' & _ & Hrun).
  apply bind_Ok in Hrun as ([] & st3 & _ & Hrun).
  apply bind_Ok in Hrun as ([] & st4 & _ & Hrun).
  unfold mret, M_ret in Hrun. injection Hrun as <- _.
  apply try_except_Ok in Hprobe as [(a & Hget & ->)%fmap_Ok|(x & s & k & Hx & Hk & Hk')].
  - simpl. split.
    + by intros [_ ?]%lb_add_missing_nil.
    + intros e s He [Hn _]%lb_add_missing_nil. rewrite Hget in He. by simplify_eq.
  - destruct x; simplify_eq. unfold mret, M_ret in Hk'. simplify_eq. simpl.
    split; [done|]. intros e s He. rewrite run_fmap, He in Hx. done.
Qed.

Lemma save_flow_details_childless fd ign st r st' :
  link_at (fs st) (flow_metadata (fd_uuid fd)) = false →
  _save_flow_details fd ign st = (Ok r, st') → fd_tasks r = [] →
  new_events st st' = []
  ∧ ∀ p n, fs st' !! p = Some n →
           fs st !! p = Some n
           ∨ own_node (path_join _flow_path (fd_uuid r)) (format_flow_detail r) p n.
Proof.
  intros Hnl Hrun He.
  pose proof (save_flow_details_uuid _ _ _ _ _ Hrun) as Hu.
  unfold _save_flow_details in Hrun.
  apply bind_Ok in Hrun as (e_fd & st1 & Hprobe & Hrun).
  apply bind_Ok in Hrun as ([] & st2 & Hmk & Hrun).
  apply bind_Ok in Hrun as ([] & st3 & Hwr & Hrun).
  apply bind_Ok in Hrun as ([] & st4 & Hkids & Hrun).
  unfold mret, M_ret in Hrun. injection Hrun as Hr <-.
  rewrite Hr in Hmk, Hwr, Hkids. rewrite He in Hkids.
  rewrite bool_decide_eq_false_2 in Hkids by (simpl; tauto).
  unfold mret, M_ret in Hkids. injection Hkids as <-.
  assert (lock_log st1 = lock_log st ∧ fs st1 = fs st) as [Hlog1 Hfs1].
  { apply probe_existing_Ok in Hprobe as [(a & Hget & ->)|(-> & _ & c & Hget)].
    - eapply get_flow_unlocked_childless; [exact Hget|].
      rewrite <- Hr in He. by apply fd_add_missing_nil in He as [? _].
    - by eapply get_flow_unlocked_env. }
  split.
  - apply new_events_nil.
    rewrite (silent_Ok _ _ _ _ (silent_write_to _ _) Hwr).
    by rewrite (silent_Ok _ _ _ _ (silent_ensure_tree _) Hmk).
  - intros p n Hn. rewrite <- Hfs1. eapply written_nodes; [|exact Hmk|exact Hwr|exact Hn].
    rewrite Hfs1, Hu. exact Hnl.
Qed.

Lemma save_flow_details_with_children fd ign st r st' :
  _save_flow_details fd ign st = (Ok r, st') → fd_tasks r ≠ [] →
  L_task ∈ acquired (new_events st st')
  ∧ is_Some (fs st' !! flow_index (fd_uuid r)).
Proof.
  intros Hrun He. unfold _save_flow_details in Hrun.
  apply bind_Ok in Hrun as (e_fd & st1 & Hprobe & Hrun).
  apply bind_Ok in Hrun as ([] & st2 & Hmk & Hrun).
  apply bind_Ok in Hrun as ([] & st3 & Hwr & Hrun).
  apply bind_Ok in Hrun as ([] & st4 & Hkids & Hrun).
  unfold mret, M_ret in Hrun. injection Hrun as Hr <-.
  rewrite Hr in Hmk, Hwr, Hkids.
  rewrite bool_decide_eq_true_2 in Hkids by by destruct (fd_tasks r).
  apply bind_Ok in Hkids as ([] & st5 & Hmk2 & Hkids).
  assert (∃ evs, lock_log st5 = lock_log st ++ evs) as [evs Hlog].
  { assert (disciplined [L_task] [] (probe_existing (_get_flow_details (fd_uuid fd) false) ign)) as Hd.
    { apply disciplined_try_except.
      - apply disciplined_fmap. by apply disciplined_get_flow_unlocked.
      - intros e k Hk. destruct (is_EnvironmentError e); simplify_eq.
        apply disciplined_silent. by destruct ign. }
    destruct (disciplined_Ok _ _ _ _ _ _ Hd Hprobe) as [evs Hevs].
    exists evs.
    rewrite (silent_Ok _ _ _ _ (silent_ensure_tree _) Hmk2).
    rewrite (silent_Ok _ _ _ _ (silent_write_to _ _) Hwr).
    by rewrite (silent_Ok _ _ _ _ (silent_ensure_tree _) Hmk). }
  split.
  - eapply locked_acquires; [exact Hlog|exact Hkids|].
    exists []. rewrite app_nil_r. apply silent_save_tasks_and_link.
  - apply ensure_tree_Ok in Hmk2 as [_ [n Hn]].
    apply lock_Ok in Hkids as (st6 & Hkids & ->).
    pose proof (steps_Ok _ _ _ _ _ (save_tasks_and_link_keeps_structure _ _) Hkids) as Hks.
    apply (lookup_weaken _ (fs (locked L_task st5))) in Hn; [|apply locked_subseteq].
    destruct (Hks _ _ Hn) as (n' & Hn' & _). by exists n'.
Qed.

Lemma save_logbook_childless book st r st' :
  link_at (fs st) (book_metadata (lb_uuid book)) = false →
  _save_logbook book st = (Ok r, st') → lb_flows r = [] →
  new_events st st' = []
  ∧ ∃ d, ∀ p n, fs st' !! p = Some n →
                fs st !! p = Some n
                ∨ own_node (path_join _book_path (lb_uuid r)) d p n.
Proof.
  intros Hnl Hrun He.
  pose proof (save_logbook_uuid _ _ _ _ Hrun) as Hu.
  unfold _save_logbook in Hrun.
  apply bind_Ok in Hrun as (e_lb & st1 & Hprobe & Hrun).
  apply bind_Ok in Hrun as ([] & st2 & Hmk & Hrun).
  apply bind_Ok in Hrun as (meta & st2' & Hfmt & Hrun).
  apply (pure_Ok _ _ _ _ (pure_format_logbook _ _)) in Hfmt as ->.
  apply bind_Ok in Hrun as ([] & st3 & Hwr & Hrun).
  apply bind_Ok in Hrun as ([] & st4 & Hkids & Hrun).
  unfold mret, M_ret in Hrun. injection Hrun as Hr <-.
  rewrite Hr in Hmk, Hwr, Hkids. rewrite He in Hkids.
  rewrite bool_decide_eq_false_2 in Hkids by (simpl; tauto).
  unfold mret, M_ret in Hkids. injection Hkids as <-.
  assert (lock_log st1 = lock_log st ∧ fs st1 = fs st) as [Hlog1 Hfs1].
  { apply try_except_Ok in Hprobe as [(a & Hget & ->)%fmap_Ok|(x & s & k & Hx & Hk & Hk')].
    - eapply get_logbook_childless; [exact Hget|].
      rewrite <- Hr in He. simpl in He. by apply lb_add_missing_nil in He as [? _].
    - destruct x; simplify_eq. rewrite run_fmap in Hx.
      destruct (_get_logbook (lb_uuid book) st) as [[a|x] s'] eqn:Hget; simplify_eq.
      pose proof (get_logbook_NotFound _ _ _ Hget) as Hm.
      destruct (get_logbook_missing _ _ Hm) as (? & Hget' & ->).
      rewrite Hget in Hget'. unfold mret, M_ret in *. by simplify_eq. }
  split.
  - apply new_events_nil.
    rewrite (silent_Ok _ _ _ _ (silent_write_to _ _) Hwr).
    by rewrite (silent_Ok _ _ _ _ (silent_ensure_tree _) Hmk).
  - exists (jsonutils_dumps meta). intros p n Hn. rewrite <- Hfs1.
    eapply written_nodes; [|exact Hmk|exact Hwr|exact Hn].
    rewrite Hfs1, Hu. exact Hnl.
Qed.

Lemma save_logbook_with_children book st r st' :
  _save_logbook book st = (Ok r, st') → lb_flows r ≠ [] →
  L_flow ∈ acquired (new_events st st')
  ∧ is_Some (fs st' !! book_index (lb_uuid r)).
Proof.
  intros Hrun He. unfold _save_logbook in Hrun.
  apply bind_Ok in Hrun as (e_lb & st1 & Hprobe & Hrun).
  apply bind_Ok in Hrun as ([] & st2 & Hmk & Hrun).
  apply bind_Ok in Hrun as (meta & st2' & Hfmt & Hrun).
  apply (pure_Ok _ _ _ _ (pure_format_logbook _ _)) in Hfmt as ->.
  apply bind_Ok in Hrun as ([] & st3 & Hwr & Hrun).
  apply bind_Ok in Hrun as ([] & st4 & Hkids & Hrun).
  unfold mret, M_ret in Hrun. injection Hrun as Hr <-.
  rewrite Hr in Hmk, Hwr, Hkids.
  rewrite bool_decide_eq_true_2 in Hkids by by destruct (lb_flows r).
  apply bind_Ok in Hkids as ([] & st5 & Hmk2 & Hkids).
  assert (∃ evs, lock_log st5 = lock_log st ++ evs) as [evs Hlog].
  { assert (disciplined [L_flow; L_task] []
              (try_except (Some <$> _get_logbook (lb_uuid book))
                 (λ e, match e with NotFound => Some (mret None) | _ => None end))) as Hd.
    { apply disciplined_try_except.
      - apply disciplined_fmap. by apply disciplined_get_logbook.
      - intros e k Hk. destruct e; simplify_eq. by apply disciplined_silent. }
    destruct (disciplined_Ok _ _ _ _ _ _ Hd Hprobe) as [evs Hevs].
    exists evs.
    rewrite (silent_Ok _ _ _ _ (silent_ensure_tree _) Hmk2).
    rewrite (silent_Ok _ _ _ _ (silent_write_to _ _) Hwr).
    by rewrite (silent_Ok _ _ _ _ (silent_ensure_tree _) Hmk). }
  split.
  - eapply locked_acquires; [exact Hlog|exact Hkids|].
    assert (disciplined [L_flow; L_task] [L_flow]
              (_save_flows_and_link (lb_flows r)
                 (path_join (path_join _book_path (lb_uuid r)) "flows"))) as Hd
      by by apply disciplined_save_flows_and_link.
    destruct (Hd (locked L_flow st5)) as (evs' & ? & _). eauto.
  - apply ensure_tree_Ok in Hmk2 as [_ [n Hn]].
    apply lock_Ok in Hkids as (st6 & Hkids & ->).
    pose proof (steps_Ok _ _ _ _ _ (save_flows_and_link_keeps_structure _ _) Hkids) as Hks.
    apply (lookup_weaken _ (fs (locked L_flow st5))) in Hn; [|apply locked_subseteq].
    destruct (Hks _ _ Hn) as (n' & Hn' & _). by exists n'.
Qed.

Lemma own_node_not_index dir d c n :
  own_node dir d (dir ++ [c]) n → n ≠ Dir.
Proof.
  intros [[_ Hp]|[_ [m ->]]]; [|done].
  apply prefix_length in Hp. rewrite length_app in Hp. simpl in Hp. lia.
Qed.

(** C9 (amended): what decides is the entity written, which is the
    incoming entity merged with the stored version and has the children
    of both.  Saving a container whose written entity has no children (so
    neither the incoming nor the stored version has any) adds no lock
    event, so the lock of the inner tier is not taken, and adds to the
    file system nothing but the file [metadata] of the entity's own
    directory and that directory: the child-index directory is not
    created.  When the written entity has at least one child the lock of
    the inner tier is taken and the child-index directory is there
    afterwards.  The metadata path is assumed not to be a symbolic
    link. *)
Theorem childless_save_writes_only_metadata (st : state) :
  (∀ fd ign r st',
     link_at (fs st) (flow_metadata (fd_uuid fd)) = false →
     _save_flow_details fd ign st = (Ok r, st') →
     (fd_tasks r = [] →
        fd_tasks fd = []
        ∧ (∀ e s, _get_flow_details (fd_uuid fd) false st = (Ok e, s) →
                  fd_tasks e = [])
        ∧ new_events st st' = []
        ∧ (∀ p n, fs st' !! p = Some n →
             fs st !! p = Some n
             ∨ own_node (path_join _flow_path (fd_uuid fd)) (format_flow_detail r) p n)
        ∧ (fs st' !! flow_index (fd_uuid fd) = Some Dir →
           fs st !! flow_index (fd_uuid fd) = Some Dir))
     ∧ (fd_tasks r ≠ [] →
        L_task ∈ acquired (new_events st st')
        ∧ is_Some (fs st' !! flow_index (fd_uuid fd))))
  ∧ (∀ book r st',
       link_at (fs st) (book_metadata (lb_uuid book)) = false →
       _save_logbook book st = (Ok r, st') →
       (lb_flows r = [] →
          lb_flows book = []
          ∧ (∀ e s, _get_logbook (lb_uuid book) st = (Ok e, s) → lb_flows e = [])
          ∧ new_events st st' = []
          ∧ (∃ d, ∀ p n, fs st' !! p = Some n →
               fs st !! p = Some n
               ∨ own_node (path_join _book_path (lb_uuid book)) d p n)
          ∧ (fs st' !! book_index (lb_uuid book) = Some Dir →
             fs st !! book_index (lb_uuid book) = Some Dir))
       ∧ (lb_flows r ≠ [] →
          L_flow ∈ acquired (new_events st st')
          ∧ is_Some (fs st' !! book_index (lb_uuid book)))).
Proof.
  split.
  - intros fd ign r st' Hnl Hrun.
    pose proof (save_flow_details_uuid _ _ _ _ _ Hrun) as Hu.
    destruct (save_flow_details_children _ _ _ _ _ Hrun) as [Hin Hst]. split.
    + intros He.
      destruct (save_flow_details_childless _ _ _ _ _ Hnl Hrun He) as [Hev Hfs].
      rewrite Hu in Hfs.
      split_and!; [by apply Hin|by eauto|done..|].
      intros Hd. destruct (Hfs _ _ Hd) as [?|Hown]; [done|].
      by apply own_node_not_index in Hown.
    + rewrite <- Hu. by eapply save_flow_details_with_children.
  - intros book r st' Hnl Hrun.
    pose proof (save_logbook_uuid _ _ _ _ Hrun) as Hu.
    destruct (save_logbook_children _ _ _ _ Hrun) as [Hin Hst]. split.
    + intros He.
      destruct (save_logbook_childless _ _ _ _ Hnl Hrun He) as [Hev [d Hfs]].
      rewrite Hu in Hfs.
      split_and!; [by apply Hin|by eauto|done|by exists d|].
      intros Hd. destruct (Hfs _ _ Hd) as [?|Hown]; [done|].
      by apply own_node_not_index in Hown.
    + rewrite <- Hu. by eapply save_logbook_with_children.
Qed.

Lemma childless_save_writes_only_metadata_witness :
  link_at (fs fresh_store) (flow_metadata "F2") = false
  ∧ (_save_flow_details flow_new true fresh_store).1 = Ok flow_new
  ∧ new_events fresh_store (_save_flow_details flow_new true fresh_store).2 = []
  ∧ (fs (_save_flow_details flow_new true fresh_store).2 !! flow_index "F2" = Some Dir →
     fs fresh_store !! flow_index "F2" = Some Dir)
  ∧ fs (_save_flow_details flow_new true fresh_store).2 !! flow_metadata "F2"
    = Some (File 100 (FlowDoc "RUNNING" "")).
Proof.
  assert (link_at (fs fresh_store) (flow_metadata "F2") = false) as Hnl
    by (vm_compute; reflexivity).
  destruct (_save_flow_details flow_new true fresh_store) as [r s] eqn:Hrun.
  assert (r = Ok flow_new) as ->.
  { change r with (r, s).1. rewrite <- Hrun. vm_compute. reflexivity. }
  destruct (proj1 (childless_save_writes_only_metadata fresh_store)
              flow_new true flow_new s Hnl Hrun) as [Hnone _].
  destruct (Hnone eq_refl) as (_ & _ & Hev & _ & Hidx).
  split_and!; [exact Hnl|reflexivity|exact Hev|exact Hidx|].
  change s with (Ok flow_new, s).2. rewrite <- Hrun. vm_compute. reflexivity.
Defined.

(** C9, as stated, fails: a flow without tasks saved over a stored flow
    that has tasks is written with the stored tasks, so the task lock is
    taken (once to load each of the two tasks, once to save them) and the
    documents of the tasks are written again. *)
Lemma childless_save_over_children :
  fd_tasks flow_bare = []
  ∧ (_save_flow_details flow_bare false saved_store).1
    = Ok (mkFlowDetail "F1" "SUCCESS" "" [task "B"; task "A"])
  ∧ acquired (new_events saved_store (_save_flow_details flow_bare false saved_store).2)
    = [L_task; L_task; L_task]
  ∧ fs saved_store !! path_join _task_path "A"
    = Some (File 102 (TaskDoc "PENDING" "" ""))
  ∧ fs (_save_flow_details flow_bare false saved_store).2 !! path_join _task_path "A"
    = Some (File 106 (TaskDoc "PENDING" "" "")).
Proof. split_and!; vm_compute; reflexivity. Qed.


(** ** The child index: one entry per name *)

Lemma child_name_Some d k n : child_name d k = Some n ↔ k = d ++ [n].
Proof.
  unfold child_name. split.
  - destruct (last k) as [x|]; [|done]. case_decide; by intros [= <-].
  - intros ->. rewrite last_snoc. by rewrite decide_True.
Qed.

Lemma elem_of_entries f d n : n ∈ entries f d ↔ is_Some (f !! (d ++ [n])).
Proof.
  unfold entries. rewrite list_elem_of_omap. split.
  - intros ([k x] & Hin & Hk). apply child_name_Some in Hk. simpl in Hk. subst k.
    apply elem_of_map_to_list in Hin. by exists x.
  - intros [x Hx]. exists (d ++ [n], x). split.
    + by apply elem_of_map_to_list.
    + by apply child_name_Some.
Qed.

Lemma NoDup_omap_inj {A B} (f : A → option B) (l : list A) :
  (∀ x y z, x ∈ l → y ∈ l → f x = Some z → f y = Some z → x = y) →
  NoDup l → NoDup (omap f l).
Proof.
  intros Hinj Hnd. induction Hnd as [|x l Hx Hnd IH]; simpl; [constructor|].
  destruct (f x) as [z|] eqn:E.
  - constructor.
    + rewrite list_elem_of_omap. intros (y & Hy & Hfy).
      assert (x = y) as -> by (eapply Hinj; [by left|by right|done..]). done.
    + apply IH. intros a b c Ha Hb. apply Hinj; by right.
  - apply IH. intros a b c Ha Hb. apply Hinj; by right.
Qed.

Lemma NoDup_entries f d : NoDup (entries f d).
Proof.
  unfold entries. apply NoDup_omap_inj; [|apply NoDup_map_to_list].
  intros [k1 x1] [k2 x2] n H1 H2 E1%child_name_Some E2%child_name_Some.
  simpl in *. subst. apply elem_of_map_to_list in H1, H2. congruence.
Qed.

(** ** Attaching a child that is attached already *)







(** ** Getting an identifier that is not stored *)

Lemma read_from_missing p st :
  missing st p → _read_from p st = (Raise (EnvironmentError (Some ENOENT)), st).
Proof.
  intros H. unfold _read_from. rewrite run_bind. unfold os_path_getmtime.
  unfold missing in H. by rewrite H.
Qed.

Lemma get_task_missing u st :
  missing st (metadata_path Task u) →
  _get_task_details u false st = (Raise (EnvironmentError (Some ENOENT)), st).
Proof.
  intros H. unfold _get_task_details. rewrite !run_bind.
  unfold metadata_path in H. by rewrite (read_from_missing _ _ H).
Qed.

Lemma get_flow_missing u st :
  missing st (metadata_path Flow u) →
  _get_flow_details u false st = (Raise (EnvironmentError (Some ENOENT)), st).
Proof.
  intros H. unfold _get_flow_details. rewrite !run_bind.
  unfold metadata_path, flow_metadata in H. by rewrite (read_from_missing _ _ H).
Qed.

Lemma metadata_path_data t u : data_path (metadata_path t u).
Proof.
  destruct t; [left|right; left|right; right]; by eexists.
Qed.

(** C1 (amended): when the metadata file of the identifier is absent,
    [_get_logbook] raises [NotFound]; [_get_flow_details] and
    [_get_task_details] let the ENOENT environment error through when
    called with [lock=False], and raise a [StorageError] wrapping it when
    called with [lock=True].  With [lock=True] the lock file is opened
    first, so the metadata path is assumed not to be a symbolic link
    (which could lead to that lock file). *)
Theorem get_of_missing_metadata (t : tier) (uuid : string) (lock : bool)
    (st : state) :
  missing st (metadata_path t uuid) →
  (lock = true → link_at (fs st) (metadata_path t uuid) = false) →
  get_raises t uuid lock st
  = Some (match t with
          | Book => NotFound
          | Flow | Task =>
              if lock then StorageError (EnvironmentError (Some ENOENT))
              else EnvironmentError (Some ENOENT)
          end).
Proof.
  intros H Hnl. destruct t; simpl.
  - destruct (get_logbook_missing _ _ H) as (? & -> & _). done.
  - destruct lock.
    + unfold _get_flow_details. rewrite run_with_process_lock_eq.
      assert (missing (locked L_flow st) (metadata_path Flow uuid)) as H'.
      { eapply missing_same_data; [apply locked_same_data| |by apply Hnl|done].
        apply metadata_path_data. }
      pose proof (get_flow_missing uuid (locked L_flow st) H') as Hg.
      unfold _get_flow_details in Hg. by rewrite Hg.
    + by rewrite (get_flow_missing _ _ H).
  - destruct lock.
    + unfold _get_task_details. rewrite run_with_process_lock_eq.
      assert (missing (locked L_task st) (metadata_path Task uuid)) as H'.
      { eapply missing_same_data; [apply locked_same_data| |by apply Hnl|done].
        apply metadata_path_data. }
      pose proof (get_task_missing uuid (locked L_task st) H') as Hg.
      unfold _get_task_details in Hg. by rewrite Hg.
    + by rewrite (get_task_missing _ _ H).
Qed.

Lemma get_of_missing_metadata_witness :
  missing fresh_store (metadata_path Flow "F9")
  ∧ link_at (fs fresh_store) (metadata_path Flow "F9") = false
  ∧ get_raises Flow "F9" true fresh_store
    = Some (StorageError (EnvironmentError (Some ENOENT))).
Proof.
  assert (missing fresh_store (metadata_path Flow "F9")) as H
    by (vm_compute; reflexivity).
  assert (link_at (fs fresh_store) (metadata_path Flow "F9") = false) as Hnl
    by (vm_compute; reflexivity).
  split_and!; [exact H|exact Hnl|].
  exact (get_of_missing_metadata Flow "F9" true fresh_store H (λ _, Hnl)).
Defined.

(** C1, as stated, fails: getting a task or a flow that is not stored does
    not end in [NotFound]. *)
Lemma get_of_missing_is_not_NotFound :
  missing fresh_store (metadata_path Task "T9")
  ∧ get_raises Task "T9" true fresh_store
    = Some (StorageError (EnvironmentError (Some ENOENT)))
  ∧ get_raises Task "T9" false fresh_store
    = Some (EnvironmentError (Some ENOENT))
  ∧ get_raises Task "T9" true fresh_store ≠ Some NotFound
  ∧ missing fresh_store (metadata_path Flow "F9")
  ∧ get_raises Flow "F9" true fresh_store ≠ Some NotFound.
Proof. by vm_compute. Qed.

(** Why links are excluded: a metadata path that is a dangling link to
    the lock file of its tier is absent before the lock is taken and an
    empty file, which does not decode, once the lock file is opened. *)
Lemma get_through_lock_file :
  missing dangling_store (metadata_path Task "T9")
  ∧ link_at (fs dangling_store) (metadata_path Task "T9") = true
  ∧ get_raises Task "T9" false dangling_store
    = Some (EnvironmentError (Some ENOENT))
  ∧ get_raises Task "T9" true dangling_store = Some (StorageError ValueError).
Proof. by vm_compute. Qed.

(** The callers turn the environment error into [NotFound]: updating a
    task or a flow that is not stored. *)
Lemma update_of_missing_raises_NotFound (st : state) :
  (∀ td, missing st (metadata_path Task (td_uuid td)) →
         link_at (fs st) (metadata_path Task (td_uuid td)) = false →
         (update_task_details td st).1 = Raise NotFound)
  ∧ (∀ fd, missing st (metadata_path Flow (fd_uuid fd)) →
           link_at (fs st) (metadata_path Flow (fd_uuid fd)) = false →
           (update_flow_details fd st).1 = Raise NotFound).
Proof.
  split.
  - intros td H Hnl. unfold update_task_details. rewrite run_with_process_lock_eq.
    unfold _save_task_details, probe_existing.
    rewrite run_bind, run_try_except, run_fmap.
    rewrite (get_task_missing _ (locked L_task st)); [done|].
    eapply missing_same_data; [apply locked_same_data| |done..].
    apply metadata_path_data.
  - intros fd H Hnl. unfold update_flow_details. rewrite run_with_process_lock_eq.
    unfold _save_flow_details, probe_existing.
    rewrite run_bind, run_try_except, run_fmap.
    rewrite (get_flow_missing _ (locked L_flow st)); [done|].
    eapply missing_same_data; [apply locked_same_data| |done..].
    apply metadata_path_data.
Qed.

(** ** The merge unions the child references *)

(** C2 (amended): when a save of a container succeeds, every child
    reference of the stored version and every direct child of the entity
    passed to the save is a child reference of that container afterwards,
    for flows ([_save_flow_details], [update_flow_details]) and for books
    ([_save_logbook], [save_logbook]).  The union is one level deep: the
    children of a nested container that is already attached are not
    merged. *)
Theorem save_merges_child_references (st : state) (Hl : layout_ok (fs st)) :
  (∀ fd ign r st',
     _save_flow_details fd ign st = (Ok r, st') →
     ∀ c, child_ref st (flow_index (fd_uuid fd)) c ∨ c ∈ map td_uuid (fd_tasks fd) →
          child_ref st' (flow_index (fd_uuid fd)) c)
  ∧ (∀ fd r st',
       update_flow_details fd st = (Ok r, st') →
       ∀ c, child_ref st (flow_index (fd_uuid fd)) c ∨ c ∈ map td_uuid (fd_tasks fd) →
            child_ref st' (flow_index (fd_uuid fd)) c)
  ∧ (∀ book r st',
       _save_logbook book st = (Ok r, st') →
       ∀ c, child_ref st (book_index (lb_uuid book)) c ∨ c ∈ map fd_uuid (lb_flows book) →
            child_ref st' (book_index (lb_uuid book)) c)
  ∧ (∀ book r st',
       save_logbook book st = (Ok r, st') →
       ∀ c, child_ref st (book_index (lb_uuid book)) c ∨ c ∈ map fd_uuid (lb_flows book) →
            child_ref st' (book_index (lb_uuid book)) c).
Proof.
  split_and!.
  - intros fd ign r st' Hrun c Hc.
    by destruct (save_flow_details_refs _ _ _ _ _ Hl Hrun c Hc).
  - intros fd r st' (st1 & Hrun & ->)%lock_Ok c Hc.
    assert (child_ref (locked L_flow st) (flow_index (fd_uuid fd)) c
            ∨ c ∈ map td_uuid (fd_tasks fd)) as Hc'.
    { destruct Hc as [[t Ht]|Hc]; [left|by right].
      exists t. by eapply lookup_weaken; [|apply locked_subseteq]. }
    by destruct (save_flow_details_refs _ _ (locked L_flow st) _ _
                   (layout_locked _ _ Hl) Hrun c Hc').
  - intros book r st' Hrun c Hc.
    by destruct (save_logbook_refs _ _ _ _ Hl Hrun c Hc).
  - intros book r st' (st1 & Hrun & ->)%lock_Ok c Hc.
    assert (child_ref (locked L_book st) (book_index (lb_uuid book)) c
            ∨ c ∈ map fd_uuid (lb_flows book)) as Hc'.
    { destruct Hc as [[t Ht]|Hc]; [left|by right].
      exists t. by eapply lookup_weaken; [|apply locked_subseteq]. }
    by destruct (save_logbook_refs _ (locked L_book st) _ _
                   (layout_locked _ _ Hl) Hrun c Hc').
Qed.

Lemma run_succeeds {A} (m : M A) (st : state) :
  succeeds (m st).1 = true → ∃ a, m st = (Ok a, (m st).2).
Proof. destruct (m st) as [[a|e] st']; [eauto|done]. Qed.

Lemma layout_ok_checked (f : gmap path node) :
  bool_decide (layout_ok f) = true → layout_ok f.
Proof. apply bool_decide_eq_true. Qed.

Lemma save_merges_child_references_witness :
  layout_ok (fs saved_store)
  ∧ ∀ c, c ∈ ["A"; "B"; "C"] →
         child_ref (update_flow_details flow_C saved_store).2 (flow_index "F1") c.
Proof.
  assert (layout_ok (fs saved_store)) as Hl
    by (apply layout_ok_checked; vm_compute; reflexivity).
  split; [exact Hl|]. intros c Hc.
  destruct (run_succeeds (update_flow_details flow_C) saved_store) as [r Hr];
    [vm_compute; reflexivity|].
  destruct (save_merges_child_references saved_store Hl) as (_ & Hupd & _).
  apply (Hupd flow_C r _ Hr c).
  apply elem_of_cons in Hc as [->|Hc].
  { left. exists ["tasks"; "A"]. vm_compute. reflexivity. }
  apply elem_of_cons in Hc as [->|Hc].
  { left. exists ["tasks"; "B"]. vm_compute. reflexivity. }
  apply elem_of_cons in Hc as [->|Hc].
  2:{ apply elem_of_nil in Hc. destruct Hc. }
  right. simpl. left.
Defined.

(** The example of the specification: a flow stored with tasks A and B,
    updated with a payload that names task C only, is stored with exactly
    the tasks A, B and C. *)
Lemma update_flow_unions_tasks :
  (list_links (flow_index "F1") saved_store).1 = Ok ["B"; "A"]
  ∧ (update_flow_details flow_C saved_store).1
    = Ok (mkFlowDetail "F1" "SUCCESS" "" [task "B"; task "A"; task "C"])
  ∧ (list_links (flow_index "F1") (update_flow_details flow_C saved_store).2).1
    = Ok ["C"; "B"; "A"].
Proof. by vm_compute. Qed.

(** C2, as stated, fails for a nested container: saving book [B1] with
    its flow [F1] carrying the new task [C] onto the store that holds
    [B1] with [F1] and the tasks [A] and [B] succeeds, but the flow of the
    incoming book is dropped for the stored one, so task [C] is neither
    written nor linked. *)
Lemma nested_children_are_not_merged :
  let st' := (save_logbook book_1_C saved_store).2 in
  (save_logbook book_1_C saved_store).1
  = Ok (mkLogBook "B1" (Some 100) None ""
          [mkFlowDetail "F1" "RUNNING" "" [task "B"; task "A"]])
  ∧ "C" ∈ map td_uuid (fd_tasks flow_C)
  ∧ ¬ child_ref st' (flow_index "F1") "C"
  ∧ fs st' !! path_join _task_path "C" = None
  ∧ (list_links (flow_index "F1") st').1 = Ok ["B"; "A"].
Proof.
  intros st'. split_and!.
  - vm_compute. reflexivity.
  - simpl. left.
  - intros [t Ht].
    assert (fs st' !! (flow_index "F1" ++ ["C"]) = None) as E
      by (vm_compute; reflexivity).
    rewrite E in Ht. discriminate Ht.
  - vm_compute. reflexivity.
  - vm_compute. reflexivity.
Qed.

(** ** The creation time *)

(** C4: saving a book whose metadata file is stored keeps the stored
    creation time in the metadata written, whatever creation time the
    incoming book carries. *)
Theorem created_at_is_kept (book : LogBook) (st : state)
    (mtime c0 : Z) (up0 : option Z) (meta0 : string) (r : LogBook) (st' : state) :
  store_ok st →
  stat (fs st) (book_metadata (lb_uuid book))
    = inr (File mtime (BookDoc c0 up0 meta0)) →
  save_logbook book st = (Ok r, st') →
  lb_created_at r = Some c0
  ∧ ∃ mtime' up', stat (fs st') (book_metadata (lb_uuid book))
                  = inr (File mtime' (BookDoc c0 up' (lb_meta book))).
Proof.
  intros [Hl Hc] Hst (st1 & Hrun & ->)%lock_Ok.
  assert (data_path (book_metadata (lb_uuid book))) as Hd by (left; by eexists).
  apply (save_logbook_created_at book (locked L_book st) mtime c0 up0 meta0 r st1);
    [by apply layout_locked| | |done].
  - intros m d m' d'. rewrite locked_cache, locked_other by by apply data_path_not_lock.
    apply Hc.
  - rewrite (stat_same_data st); [done|apply locked_same_data|done|].
    apply link_at_layout; [done|]. compute. lia.
Qed.

Lemma saved_store_ok : store_ok saved_store.
Proof.
  split.
  - apply layout_ok_checked. vm_compute. reflexivity.
  - assert (file_cache saved_store = ∅) as E by (vm_compute; reflexivity).
    intros p m d m' d' Hc _. rewrite E, lookup_empty in Hc. discriminate Hc.
Qed.

Lemma created_at_is_kept_witness :
  store_ok saved_store
  ∧ stat (fs saved_store) (book_metadata "B1") = inr (File 100 (BookDoc 100 None ""))
  ∧ lb_created_at book_1_again = Some 5
  ∧ ∃ mtime' up',
      stat (fs (save_logbook book_1_again saved_store).2) (book_metadata "B1")
      = inr (File mtime' (BookDoc 100 up' "again")).
Proof.
  pose proof saved_store_ok as Hok.
  assert (stat (fs saved_store) (book_metadata (lb_uuid book_1_again))
          = inr (File 100 (BookDoc 100 None ""))) as Hst by (vm_compute; reflexivity).
  split_and!; [exact Hok|exact Hst|reflexivity|].
  destruct (run_succeeds (save_logbook book_1_again) saved_store) as [r Hr];
    [vm_compute; reflexivity|].
  exact (proj2 (created_at_is_kept book_1_again saved_store _ _ _ _ r _ Hok Hst Hr)).
Defined.

(** ** Destroying a book *)

(** [destroy_logbook] ends in a [TaskFlowException] when it raises: no raw
    error of the file system leaves the locked region. *)
Lemma destroy_logbook_raises u :
  raises_only (λ e, is_TaskFlowException e = true) (destroy_logbook u).
Proof.
  apply raises_only_lock. intros st e st' _. by destruct e.
Qed.

(** C7 fails on a book with tasks: a task is stored as a regular file,
    [shutil.rmtree] on it fails with ENOTDIR, which [_destroy_tasks] turns
    into a [StorageError]; nothing is removed, and a second call ends the
    same way, neither in [NotFound] nor in success. *)
Lemma destroy_logbook_with_tasks_fails :
  fs saved_store !! ["tasks"; "A"] = Some (File 102 (TaskDoc "PENDING" "" ""))
  ∧ (destroy_logbook "B1" saved_store).1
    = Raise (StorageError (EnvironmentError (Some ENOTDIR)))
  ∧ fs (destroy_logbook "B1" saved_store).2 = fs saved_store
  ∧ (destroy_logbook "B1" (destroy_logbook "B1" saved_store).2).1
    = Raise (StorageError (EnvironmentError (Some ENOTDIR))).
Proof.
  split_and!; [vm_compute; reflexivity..| |vm_compute; reflexivity].
  apply (bool_decide_unpack _). vm_compute. exact I.
Qed.

(** On a book whose flows have no tasks the two calls behave as claimed:
    the first removes the book and its flow, the second reports
    [NotFound]. *)
Lemma destroy_logbook_without_tasks :
  let stored := (save_logbook book_2 fresh_store).2 in
  let destroyed := (destroy_logbook "B2" stored).2 in
  (destroy_logbook "B2" stored).1 = Ok ()
  ∧ fs destroyed !! ["books"; "B2"] = None
  ∧ fs destroyed !! ["flows"; "F2"] = None
  ∧ (destroy_logbook "B2" destroyed).1 = Raise NotFound.
Proof. vm_compute. repeat split. Qed.

(** ** The cache on the stored book *)

Lemma file_cache_read_write_witness :
  let p := book_metadata "B1" in
  let q := path_join _task_path "Z" in
  let st' := (_write_to q (format_task_detail task_Z) saved_store).2 in
  stat (fs saved_store) p = inr (File 100 (BookDoc 100 None ""))
  ∧ _read_from p saved_store
    = (Ok (BookDoc 100 None ""), refreshed p 100 (BookDoc 100 None "") saved_store)
  ∧ stat (fs saved_store) q = inl ENOENT
  ∧ stat (fs st') q = inr (File (clock saved_store) (format_task_detail task_Z))
  ∧ file_cache st' !! q = None
  ∧ _read_from q st'
    = (Ok (format_task_detail task_Z),
       refreshed q (clock saved_store) (format_task_detail task_Z) st').
Proof.
  intros p q st'.
  assert (stat (fs saved_store) p = inr (File 100 (BookDoc 100 None ""))) as Hst
    by (vm_compute; reflexivity).
  split; [exact Hst|]. split.
  { apply (proj1 (file_cache_read_write p saved_store) 100 (BookDoc 100 None "") Hst).
    vm_compute. reflexivity. }
  split; [vm_compute; reflexivity|].
  destruct (run_succeeds (_write_to q (format_task_detail task_Z)) saved_store)
    as [[] Hw]; [vm_compute; reflexivity|].
  exact (proj2 (file_cache_read_write q saved_store) _ _ Hw).
Defined.


(** ** The stores that the operations reach are well-formed *)

Global Instance keeps_ok_preorder : PreOrder keeps_ok.
Proof. split; unfold keeps_ok; [by intros st|]. intros st1 st2 st3 H1 H2 H. eauto. Qed.

Global Instance keeps_coherent_preorder : PreOrder keeps_coherent.
Proof.
  split; unfold keeps_coherent; [by intros st|]. intros st1 st2 st3 H1 H2 H. eauto.
Qed.

Lemma read_from_cache_run p st r st' :
  _read_from p st = (r, st') →
  file_cache st' = file_cache st
  ∨ file_cache st' = <[p := None]> (file_cache st)
  ∨ ∃ m d, stat (fs st) p = inr (File m d)
           ∧ file_cache st' = <[p := Some (m, d)]> (file_cache st).
Proof.
  unfold _read_from. rewrite run_bind. unfold os_path_getmtime.
  destruct (stat (fs st) p) as [c|n] eqn:Hs; [intros [= _ <-]; by left|].
  set (m := match n with File m _ => m | _ => 0 end).
  assert (∀ s, fs s = fs st →
            (file_cache ((open_read p ≫= λ data, cache_fill p m data) s).2 = file_cache s
             ∧ ∀ x s', (open_read p ≫= λ data, cache_fill p m data) s ≠ (Ok x, s'))
            ∨ ∃ d, n = File m d
                   ∧ (open_read p ≫= λ data, cache_fill p m data) s
                     = (Ok (), set_cache (<[p := Some (m, d)]> (file_cache s)) (log_read p s)))
    as Hopen.
  { intros s Hfs. rewrite run_bind. unfold open_read. rewrite Hfs, Hs.
    destruct n as [m' d| |]; [right; by exists d|left; by split..]. }
  assert (∀ s, file_cache (cache_data p s).2 = file_cache s) as Hcd.
  { intros s. unfold cache_data. by repeat case_match. }
  assert (∀ (ci : cache_entry) s, fs s = fs st →
     let run := ((if bool_decide (ci = None) || bool_decide (m > default 0 (fst <$> ci))
                  then open_read p ≫= λ data : doc, cache_fill p m data
                  else mret ()) ≫= λ _ : (), cache_data p) s in
     file_cache run.2 = file_cache s
     ∨ ∃ d, n = File m d ∧ file_cache run.2 = <[p := Some (m, d)]> (file_cache s)) as Hrest.
  { intros ci s Hfs run. subst run. rewrite run_bind.
    destruct (bool_decide (ci = None) || _).
    - destruct (Hopen s Hfs) as [[Hc Hne]|(d & Hn & Ho)].
      + destruct ((open_read p ≫= _) s) as [[[]|e] s1] eqn:Ho; [by destruct (Hne () s1)|].
        by left.
      + right. exists d. split; [done|]. rewrite Ho. by rewrite Hcd.
    - left. simpl. by rewrite Hcd. }
  intros Hrun.
  assert ((cache_setdefault p ≫= λ cache_info : cache_entry,
             (if bool_decide (cache_info = None)
                 || bool_decide (m > default 0 (fst <$> cache_info))
              then open_read p ≫= λ data : doc, cache_fill p m data
              else mret ()) ≫= λ _ : (), cache_data p) st = (r, st')) as Hrun'.
  { subst m. by destruct n. }
  clear Hrun. rewrite run_bind in Hrun'. unfold cache_setdefault in Hrun'.
  destruct (file_cache st !! p) as [ci|] eqn:E.
  - destruct (Hrest ci st eq_refl) as [H|(d & Hn & H)]; rewrite Hrun' in H; simpl in H.
    + by left.
    + right. right. exists m, d. split; [congruence|exact H].
  - destruct (Hrest None (set_cache (<[p:=None]> (file_cache st)) st) eq_refl)
      as [H|(d & Hn & H)]; rewrite Hrun' in H; simpl in H.
    + right. left. exact H.
    + right. right. exists m, d. split; [congruence|].
      rewrite H. by rewrite insert_insert_eq.
Qed.

Lemma read_from_cache p st :
  file_cache (_read_from p st).2 = file_cache st
  ∨ file_cache (_read_from p st).2 = <[p := None]> (file_cache st)
  ∨ ∃ m d, stat (fs st) p = inr (File m d)
           ∧ file_cache (_read_from p st).2 = <[p := Some (m, d)]> (file_cache st).
Proof.
  destruct (_read_from p st) as [r st'] eqn:E. by eapply read_from_cache_run.
Qed.

Lemma stat_of_file f p m d m' d' :
  f !! p = Some (File m' d') → stat f p = inr (File m d) → m' = m ∧ d' = d.
Proof.
  intros Hf. unfold stat. rewrite realpath_of_plain by (intros t; by rewrite Hf).
  intros [_ Hl]%lstat_inr. rewrite Hf in Hl. by simplify_eq.
Qed.

Lemma read_from_coherent_step p q st :
  coherent_at st q → coherent_at (_read_from p st).2 q.
Proof.
  intros Hc m d m' d'. rewrite read_from_same_fs.
  destruct (read_from_cache p st) as [->|[->|(m0 & d0 & Hs & ->)]].
  - apply Hc.
  - destruct (decide (q = p)) as [->|Hne].
    + by rewrite lookup_insert_eq.
    + rewrite lookup_insert_ne by done. apply Hc.
  - destruct (decide (q = p)) as [->|Hne].
    + rewrite lookup_insert_eq. intros [= <- <-] Hf. by eapply stat_of_file.
    + rewrite lookup_insert_ne by done. apply Hc.
Qed.

Lemma write_to_coherent_step p c q st :
  layout_ok (fs st) → (length p ≤ 3)%nat →
  coherent_at st q → coherent_at (_write_to p c st).2 q.
Proof.
  intros Hl Hp Hc.
  destruct (write_to_fs p c st) as [[e ->]|(r & Hr & _ & Hd & ->)]; [done|].
  rewrite realpath_layout in Hr by (done || lia). simplify_eq.
  intros m d m' d'. simpl. destruct (decide (q = r)) as [->|Hne].
  - by rewrite lookup_delete_eq.
  - rewrite lookup_delete_ne, lookup_insert_ne by done. apply Hc.
Qed.

Lemma ensure_tree_coherent_step p q st :
  coherent_at st q → coherent_at (ensure_tree p st).2 q.
Proof.
  intros Hc m d m' d'. rewrite ensure_tree_fs, ensure_tree_cache.
  intros Hq [Hf|(_ & ? & _)]%ensure_dirs_new; [by eapply Hc|done].
Qed.

Lemma symlink_coherent_step s p q st :
  coherent_at st q → coherent_at (os_symlink s p st).2 q.
Proof.
  intros Hc.
  destruct (symlink_fs s p st) as [[e ->]|[Hn ->]]; [done|].
  intros m d m' d'. simpl. destruct (decide (q = p)) as [->|Hne].
  - by rewrite lookup_insert_eq.
  - rewrite lookup_insert_ne by done. apply Hc.
Qed.

Lemma open_lock_coherent_step l q st :
  q ∉ lock_files → coherent_at st q → coherent_at (open_lock (lock_file l) st) q.
Proof.
  intros Hq Hc m d m' d'. rewrite open_lock_cache, open_lock_other; [apply Hc|].
  intros ->. apply Hq, elem_of_lock_files.
Qed.

Global Instance keeps_coherent_frame :
  Frame (λ _, True) (λ p, (length p ≤ 3)%nat) (λ p, length p = 4%nat)
        keeps_coherent.
Proof.
  split; [apply _|..].
  - intros l st [Hl Hc]. split; [by apply layout_locked|].
    intros q Hq. by apply open_lock_coherent_step, Hc.
  - intros e st H. exact H.
  - intros p _ st [Hl Hc]. split; [by rewrite read_from_same_fs|].
    intros q Hq. by apply read_from_coherent_step, Hc.
  - intros p c Hp st [Hl Hc]. split; [by apply write_to_keeps_layout|].
    intros q Hq. by apply write_to_coherent_step; [..|apply Hc].
  - intros p Hp st [Hl Hc]. split; [by apply ensure_tree_keeps_layout|].
    intros q Hq. by apply ensure_tree_coherent_step, Hc.
  - intros s p Hp st [Hl Hc]. split.
    + destruct (symlink_fs s p st) as [[e ->]|[Hn ->]]; [done|].
      simpl. by apply layout_insert.
    + intros q Hq. by apply symlink_coherent_step, Hc.
Qed.

Lemma read_from_cache_keys p q st :
  q ≠ p → file_cache st !! q = None → file_cache (_read_from p st).2 !! q = None.
Proof.
  intros Hne Hq.
  destruct (read_from_cache p st) as [->|[->|(m0 & d0 & Hs & ->)]];
    by rewrite ?lookup_insert_ne.
Qed.

Lemma write_to_cache_keys p c q st :
  file_cache st !! q = None → file_cache (_write_to p c st).2 !! q = None.
Proof.
  intros Hq.
  destruct (write_to_fs p c st) as [[e ->]|(r & Hr & _ & Hd & ->)]; [done|].
  simpl. destruct (decide (q = p)) as [->|Hne].
  - by rewrite lookup_delete_eq.
  - by rewrite lookup_delete_ne.
Qed.

Lemma store_ok_off_locks st :
  store_ok st ∧ cache_off_locks st ↔ coherent_off_locks st ∧ cache_off_locks st.
Proof.
  split; intros [H Hoff]; (split; [|done]).
  - destruct H as [Hl Hc]. split; [done|]. intros p _ m d m' d'. apply Hc.
  - destruct H as [Hl Hc]. split; [done|]. intros p m d m' d' Hp.
    destruct (decide (p ∈ lock_files)) as [Hin|Hout].
    + by rewrite (Hoff _ Hin) in Hp.
    + by apply Hc.
Qed.

Global Instance keeps_ok_frame :
  Frame (λ p, p ∉ lock_files) (λ p, (length p ≤ 3)%nat) (λ p, length p = 4%nat)
        keeps_ok.
Proof.
  split; [apply _|..].
  - intros l st [H Hoff]%store_ok_off_locks. apply store_ok_off_locks. split.
    + by apply (@frame_open _ _ _ _ keeps_coherent_frame).
    + intros q Hq. rewrite open_lock_cache. by apply Hoff.
  - intros e st H. exact H.
  - intros p Hp st [H Hoff]%store_ok_off_locks. apply store_ok_off_locks. split.
    + by apply (@frame_read _ _ _ _ keeps_coherent_frame).
    + intros q Hq. apply read_from_cache_keys; [by intros ->|by apply Hoff].
  - intros p c Hp st [H Hoff]%store_ok_off_locks. apply store_ok_off_locks. split.
    + by apply (@frame_write _ _ _ _ keeps_coherent_frame).
    + intros q Hq. by apply write_to_cache_keys, Hoff.
  - intros p Hp st [H Hoff]%store_ok_off_locks. apply store_ok_off_locks. split.
    + by apply (@frame_mkdir _ _ _ _ keeps_coherent_frame).
    + intros q Hq. rewrite ensure_tree_cache. by apply Hoff.
  - intros s p Hp st [H Hoff]%store_ok_off_locks. apply store_ok_off_locks. split.
    + by apply (@frame_link _ _ _ _ keeps_coherent_frame).
    + intros q Hq.
      destruct (symlink_fs s p st) as [[e ->]|[Hn ->]]; by apply Hoff.
Qed.

Lemma rmtree_keeps_ok p : steps keeps_ok (shutil_rmtree p).
Proof.
  intros st [[Hl Hc] Hoff]. unfold shutil_rmtree.
  destruct (lstat (fs st) p) as [e|[]]; try done. split; [split|]; simpl.
  - intros q n [Hq _]%map_lookup_filter_Some. by apply Hl.
  - intros q m d m' d' Hq [Hf _]%map_lookup_filter_Some. by eapply Hc.
  - exact Hoff.
Qed.

Lemma remove_tree_keeps_ok p : steps keeps_ok (remove_tree p).
Proof.
  apply steps_try_except; [apply _|apply rmtree_keeps_ok|].
  intros e k Hk. destruct e; simplify_eq.
  case_decide; simplify_eq; by apply steps_pure; [apply _|].
Qed.

Lemma canonical_lengths :
  (∀ p, lower_path p → (length p ≤ 3)%nat)
  ∧ (∀ p, lower_link p → length p = 4%nat)
  ∧ (∀ p, book_path p → (length p ≤ 3)%nat)
  ∧ (∀ p, book_link p → length p = 4%nat).
Proof.
  split_and!; intros p; auto using lower_path_length, lower_link_length,
    book_path_length, book_link_length.
Qed.

Lemma lower_path_data p : lower_path p → data_path p.
Proof. destruct 1; [right; right|right; left..]; by eexists. Qed.

Lemma book_path_data p : book_path p → data_path p.
Proof. destruct 1; left; by eexists. Qed.

Lemma canonical_off_locks :
  (∀ p, lower_path p → p ∉ lock_files) ∧ (∀ p, book_path p → p ∉ lock_files).
Proof.
  split; intros p Hp; apply data_path_not_lock;
    auto using lower_path_data, book_path_data.
Qed.

Lemma ensure_tree_guarded_keeps_ok p :
  (length p ≤ 3)%nat → steps keeps_ok (try_except (ensure_tree p) as_storage_error).
Proof.
  intros Hp. apply steps_try_except; [apply _|by apply (frame_mkdir p)|].
  intros e k Hk. unfold as_storage_error in Hk.
  destruct (is_EnvironmentError e); simplify_eq. by apply steps_pure; [apply _|].
Qed.

Lemma operation_keeps_ok op : steps keeps_ok (run_operation op).
Proof.
  destruct canonical_lengths as (H1 & H2 & H3 & H4).
  destruct canonical_off_locks as (H5 & H6).
  assert (∀ {A} (m : M A), steps keeps_ok m → steps keeps_ok (m;; mret ())) as Hdiscard.
  { intros A m Hm. apply steps_bind; [apply _|done|].
    intros _. by apply steps_pure; [apply _|]. }
  destruct op; simpl.
  - apply steps_pure; [apply _|]. 
    assert (∀ ps, pure_run (for_each ps (λ p : path,
              b ← os_path_isdir p; if negb b then raise RuntimeError else mret ()))) as H.
    { induction ps as [|p ps IH]; [done|]. simpl.
      apply pure_bind; [|by intros _].
      apply pure_bind; [apply pure_isdir|]. by intros []. }
    apply H.
  - apply steps_bind; [apply _| |intros _].
    + apply steps_for_each; [apply _|]. intros p Hp.
      apply ensure_tree_guarded_keeps_ok.
      repeat (apply elem_of_cons in Hp as [->|Hp]; [compute; lia|]).
      by apply elem_of_nil in Hp.
    + apply steps_lock; [apply _|apply frame_locks|].
      apply steps_for_each; [apply _|]. intros p Hp.
      apply ensure_tree_guarded_keeps_ok.
      repeat (apply elem_of_cons in Hp as [->|Hp]; [compute; lia|]).
      by apply elem_of_nil in Hp.
  - repeat (apply steps_lock; [apply _|apply frame_locks|]).
    apply steps_for_each; [apply _|]. intros d _.
    apply steps_bind; [apply _|by apply steps_pure; [apply _|apply pure_isdir]|].
    intros []; [apply rmtree_keeps_ok|by apply steps_pure; [apply _|]].
  - apply Hdiscard. eapply steps_get_logbooks; [apply _|done..].
  - apply Hdiscard. eapply steps_get_logbook_locked; [apply _|done..].
  - apply Hdiscard. eapply steps_save_logbook; [apply _|done..].
  - apply Hdiscard. eapply steps_update_flow_details; [apply _|done..].
  - apply Hdiscard. eapply steps_update_task_details; [apply _|done..].
  - apply steps_lock; [apply _|apply frame_locks|].
    apply steps_bind; [apply _| |intros book].
    { eapply steps_get_logbook; [apply _|done..]. }
    apply steps_bind; [apply _| |intros _; apply remove_tree_keeps_ok].
    apply steps_lock; [apply _|apply frame_locks|].
    apply steps_for_each; [apply _|]. intros fd _.
    apply steps_bind; [apply _| |intros _; apply remove_tree_keeps_ok].
    apply steps_lock; [apply _|apply frame_locks|].
    apply steps_for_each; [apply _|]. intros td _. apply remove_tree_keeps_ok.
Qed.

Lemma empty_store_ok : store_ok empty_store.
Proof.
  split.
  - intros p n H. cbn in H. by rewrite lookup_empty in H.
  - intros p m d m' d' H _. cbn in H. by rewrite lookup_empty in H.
Qed.

Lemma reachable_store_ok_off_locks (ops : list operation) :
  store_ok (run_all ops empty_store) ∧ cache_off_locks (run_all ops empty_store).
Proof.
  unfold run_all.
  assert (store_ok empty_store ∧ cache_off_locks empty_store) as H.
  { split; [apply empty_store_ok|]. by intros p _. }
  revert H. generalize empty_store.
  induction ops as [|op ops IH]; intros st Hok; simpl; [done|].
  apply IH. by apply (operation_keeps_ok op st).
Qed.

(** Every store reached from the empty store by a sequence of operations
    has the documented layout and a cache that agrees with the disk. *)
Lemma reachable_store_ok (ops : list operation) :
  store_ok (run_all ops empty_store).
Proof. apply reachable_store_ok_off_locks. Qed.


(** ** Attaching a task twice *)




Lemma get_task_details_uuid u st td st' :
  _get_task_details u false st = (Ok td, st') → td_uuid td = u.
Proof.
  unfold _get_task_details. intros (d & s & _ & Hu)%bind_Ok.
  destruct d; simpl in Hu; unfold mret, M_ret, raise in Hu; by simplify_eq.
Qed.

Lemma write_to_Ok p d st st' :
  _write_to p d st = (Ok (), st') →
  ∃ r, realpath MAXSYMLINKS (fs st) p = inr r ∧ walk (fs st) [] r = None
       ∧ fs st' = <[r := File (clock st) d]> (fs st)
       ∧ cached st' p = None.
Proof.
  rewrite write_to_eq, open_write_eq.
  destruct (realpath _ _ _) as [e|r] eqn:Hr; [done|].
  destruct (walk _ _ _) eqn:Hw; [done|].
  intros H. exists r.
  assert (st' = set_cache (delete p (file_cache st))
                  (set_clock (clock st + 1)
                     (set_fs (<[r := File (clock st) d]> (fs st)) st))) as ->.
  { destruct (fs st !! r) as [[]|]; by simplify_eq. }
  split_and!; [done..|].
  unfold cached. cbn [file_cache set_cache]. by rewrite lookup_delete_eq.
Qed.

(** What a successful save of a task leaves behind. *)
Lemma save_task_details_Ok td ign st r st' :
  _save_task_details td ign st = (Ok r, st') →
  ∃ m, stat (fs st') (path_join _task_path (td_uuid td))
       = inr (File m (format_task_detail td))
       ∧ cached st' (path_join _task_path (td_uuid td)) = None.
Proof.
  unfold _save_task_details. intros (e_td & s0 & Hprobe & Hrun)%bind_Ok.
  apply bind_Ok in Hrun as ([] & s1 & Hwr & Hret).
  unfold mret, M_ret in Hret. injection Hret as _ <-.
  assert (_write_to (path_join _task_path (td_uuid td)) (format_task_detail td) s0
          = (Ok (), s1)) as Hwr'.
  { apply probe_existing_Ok in Hprobe as [(a & Hget & ->)|(-> & _)]; [|exact Hwr].
    apply get_task_details_uuid in Hget. simpl in Hwr. by rewrite Hget in Hwr. }
  apply write_to_Ok in Hwr' as (r0 & Hr & Hw & Hfs & Hc).
  exists (clock s0). split; [|done].
  rewrite Hfs. by apply stat_after_write.
Qed.





(** Attaching the flow of [saved_store] to its book once more, and the
    tasks of that flow to the flow: nothing is raised and the two indexes
    list what they listed. *)
Lemma attach_twice_example :
  (_save_flows_and_link [flow_AB] (book_index "B1") saved_store).1 = Ok ()
  ∧ entries (fs (_save_flows_and_link [flow_AB] (book_index "B1") saved_store).2)
      (book_index "B1") = entries (fs saved_store) (book_index "B1")
  ∧ (_save_tasks_and_link (fd_tasks flow_AB) (flow_index "F1") saved_store).1 = Ok ()
  ∧ entries (fs (_save_tasks_and_link (fd_tasks flow_AB) (flow_index "F1") saved_store).2)
      (flow_index "F1") = entries (fs saved_store) (flow_index "F1").
Proof. split_and!; vm_compute; reflexivity. Qed.


(** * Further properties of the connection *)

(** ** Path resolution in a larger file system *)

Lemma walk_app_one (f : gmap path node) (a b : path) (c : string) :
  walk f a (b ++ [c]) =
  match walk f a b with
  | Some e => Some e
  | None =>
      match f !! (a ++ b) with
      | Some Dir => None
      | Some _ => Some ENOTDIR
      | None => Some ENOENT
      end
  end.
Proof.
  revert a. induction b as [|x b IH]; intros a; simpl.
  - rewrite app_nil_r. by destruct (f !! a) as [[]|].
  - destruct (f !! a) as [[]|]; try done.
    rewrite IH. by rewrite <- app_assoc.
Qed.

Lemma walk_subseteq (f f' : gmap path node) (pre rest : path) :
  f ⊆ f' → walk f pre rest = None → walk f' pre rest = None.
Proof.
  intros Hsub. revert pre. induction rest as [|c rest IH]; intros pre; simpl; [done|].
  destruct (f !! pre) as [n|] eqn:E; [|done].
  rewrite (lookup_weaken _ _ _ _ E Hsub). destruct n; try done. apply IH.
Qed.

Lemma realpath_subseteq (k : nat) (f f' : gmap path node) (p r : path) :
  f ⊆ f' → realpath k f p = inr r → is_Some (f !! r) →
  realpath k f' p = inr r.
Proof.
  intros Hsub Hr [n Hn]. revert p Hr.
  induction k as [|k IH]; intros p; simpl;
    (destruct (f !! p) as [n0|] eqn:E; [|intros [= ->]; congruence]);
    rewrite (lookup_weaken _ _ _ _ E Hsub); destruct n0; try done.
  apply IH.
Qed.

(** What [os.stat] finds stays found when nodes are added. *)
Lemma stat_subseteq (f f' : gmap path node) (p : path) (n : node) :
  f ⊆ f' → stat f p = inr n → stat f' p = inr n.
Proof.
  intros Hsub. unfold stat.
  destruct (realpath MAXSYMLINKS f p) as [e|r] eqn:Hr; [done|].
  intros [Hw Hn]%lstat_inr.
  rewrite (realpath_subseteq _ _ _ _ _ Hsub Hr) by by eexists.
  apply lstat_inr. split; [by eapply walk_subseteq|by eapply lookup_weaken].
Qed.

Lemma stat_root_Dir (f : gmap path node) :
  stat f [] = inr Dir → f !! [] = Some Dir.
Proof.
  unfold stat. destruct (realpath MAXSYMLINKS f []) as [e|r] eqn:Hr; [done|].
  intros [Hw Hn]%lstat_inr.
  destruct r as [|c r]; [done|].
  simpl in Hw. by destruct (f !! []) as [[]|] eqn:E.
Qed.

(** ** [validate] *)

Lemma check_dirs_eq (ps : list path) (st : state) :
  for_each ps (λ p : path,
                 b ← os_path_isdir p;
                 if negb b then raise RuntimeError else mret ()) st
  = (if forallb (λ p, bool_decide (stat (fs st) p = inr Dir)) ps
     then Ok () else Raise RuntimeError, st).
Proof.
  induction ps as [|p ps IH]; [done|].
  cbn [for_each forallb]. rewrite !run_bind. unfold os_path_isdir.
  destruct (stat (fs st) p) as [e|[]] eqn:E; simpl;
    rewrite ?bool_decide_eq_false_2 by congruence; done.
Qed.

(** X1: [validate] succeeds exactly when the storage root and its four
    directories [locks], [flows], [tasks] and [books] are directories;
    otherwise it raises [RuntimeError]; it changes nothing. *)
Theorem validate_outcome (st : state) :
  (validate st).2 = st
  ∧ ((validate st).1 = Ok ()
     ↔ ∀ p, p ∈ [base_path; lock_path; _flow_path; _task_path; _book_path] →
            stat (fs st) p = inr Dir)
  ∧ ((validate st).1 ≠ Ok () → (validate st).1 = Raise RuntimeError).
Proof.
  unfold validate. rewrite check_dirs_eq. cbn [fst snd].
  split; [done|].
  destruct (forallb _ _) eqn:E.
  - split; [|done]. split; [|done]. intros _ p Hp.
    rewrite forallb_forall in E. apply list_elem_of_In in Hp.
    specialize (E _ Hp). by apply bool_decide_eq_true in E.
  - split; [|done]. split; [done|]. intros H. exfalso.
    assert (forallb (λ p, bool_decide (stat (fs st) p = inr Dir))
              [base_path; lock_path; _flow_path; _task_path; _book_path] = true);
      [|congruence].
    apply forallb_forall. intros p Hp. apply bool_decide_eq_true_2, H.
    by apply list_elem_of_In.
Qed.


(** ** [upgrade] *)

Lemma ensure_dirs_subseteq (f : gmap path node) (pre rest : path) :
  f ⊆ (ensure_dirs f pre rest).1.
Proof. apply map_subseteq_spec. intros q n. apply ensure_dirs_grows. Qed.

Lemma ensure_dirs_stat (f f' : gmap path node) (pre rest : path) :
  ensure_dirs f pre rest = (f', None) → walk f [] pre = None →
  stat f' (pre ++ rest) = inr Dir.
Proof.
  revert f pre. induction rest as [|c rest IH]; intros f pre; simpl.
  - rewrite app_nil_r. intros He Hw.
    destruct (f !! pre) as [[]|] eqn:E; simplify_eq.
    + unfold stat. rewrite realpath_of_plain by (intros t; by rewrite E).
      apply lstat_inr. by split.
    + destruct (stat f pre) as [?|[]] eqn:Es; by simplify_eq.
    + unfold stat.
      rewrite realpath_of_plain by (intros t; by rewrite lookup_insert_eq).
      apply lstat_inr. rewrite walk_insert by (simpl; lia).
      by rewrite lookup_insert_eq.
  - intros He Hw.
    replace (pre ++ c :: rest) with ((pre ++ [c]) ++ rest) by by rewrite <- app_assoc.
    destruct (f !! pre) as [[]|] eqn:E; simplify_eq.
    + apply (IH f); [done|]. by rewrite walk_app_one, Hw, app_nil_l, E.
    + apply (IH (<[pre := Dir]> f)); [done|].
      rewrite walk_app_one, walk_insert by (simpl; lia).
      by rewrite Hw, app_nil_l, lookup_insert_eq.
Qed.

Lemma ensure_dirs_noop (f : gmap path node) (pre rest : path) :
  walk f pre rest = None → stat f (pre ++ rest) = inr Dir →
  ensure_dirs f pre rest = (f, None).
Proof.
  revert pre. induction rest as [|c rest IH]; intros pre; simpl.
  - rewrite app_nil_r. intros _ Hs.
    destruct (f !! pre) as [[]|] eqn:E; try done.
    + unfold stat in Hs. rewrite realpath_of_plain in Hs by (intros t; by rewrite E).
      apply lstat_inr in Hs as [_ Hs]. congruence.
    + by rewrite Hs.
    + unfold stat in Hs. rewrite realpath_of_plain in Hs by (intros t; by rewrite E).
      apply lstat_inr in Hs as [_ Hs]. congruence.
  - replace (pre ++ c :: rest) with ((pre ++ [c]) ++ rest) by by rewrite <- app_assoc.
    destruct (f !! pre) as [[]|] eqn:E; try done. apply IH.
Qed.

Lemma ensure_tree_of_directory (p : path) (st : state) :
  walk (fs st) [] p = None → stat (fs st) p = inr Dir →
  ensure_tree p st = (Ok (), st).
Proof.
  intros Hw Hs. unfold ensure_tree. rewrite ensure_dirs_noop by done.
  by destruct st.
Qed.

(** The loops of [upgrade] over the directories to create. *)
Lemma ensure_all_Ok (ps : list path) (st st' : state) :
  for_each ps (λ p, try_except (ensure_tree p) as_storage_error) st = (Ok (), st') →
  fs st ⊆ fs st' ∧ ∀ p, p ∈ ps → stat (fs st') p = inr Dir.
Proof.
  revert st. induction ps as [|p ps IH]; intros st; simpl.
  - intros [= <-]. split; [done|]. by intros p ?%elem_of_nil.
  - intros ([] & s1 & Hmk & Hrest)%bind_Ok.
    apply try_except_Ok in Hmk as [Hmk|(e & s2 & k & _ & Hk & Hr)].
    + destruct (IH _ Hrest) as [Hsub Hall].
      unfold ensure_tree in Hmk.
      destruct (ensure_dirs (fs st) [] p) as [f' [e|]] eqn:E; [done|].
      injection Hmk as <-. cbn [fs set_fs] in *.
      split.
      * etrans; [|exact Hsub].
        pose proof (ensure_dirs_subseteq (fs st) [] p) as H. by rewrite E in H.
      * intros q [->|Hq]%elem_of_cons; [|by apply Hall].
        eapply stat_subseteq; [exact Hsub|].
        by apply (ensure_dirs_stat (fs st) _ [] p).
    + unfold as_storage_error in Hk. destruct (is_EnvironmentError e); [|done].
      by simplify_eq.
Qed.


Lemma walk_fails_subseteq (f f' : gmap path node) (pre rest : path) (e : errno) :
  f ⊆ f' → (∀ q, q `prefix_of` pre ++ rest → q ≠ pre ++ rest → is_Some (f !! q)) →
  walk f pre rest = Some e → walk f' pre rest = Some e.
Proof.
  intros Hsub. revert pre. induction rest as [|c rest IH]; intros pre Hq; [done|].
  cbn [walk]. destruct (Hq pre) as [n Hn].
  { by apply prefix_app_r. }
  { intros E. apply (f_equal length) in E. rewrite length_app in E. simpl in E. lia. }
  rewrite Hn, (lookup_weaken _ _ _ _ Hn Hsub). destruct n; try done.
  apply IH. intros q. rewrite <- app_assoc. apply Hq.
Qed.

(** Once a lock file has been opened below directories that are there,
    opening it again changes nothing, whatever has been added since. *)
Lemma open_lock_settled (p : path) (s s' : state) :
  (∀ q, q `prefix_of` p → q ≠ p → is_Some (fs s !! q)) →
  fs (open_lock p s) ⊆ fs s' → open_lock p s' = s'.
Proof.
  intros Hq Hsub.
  destruct (open_lock_cases p s) as [E|(_ & _ & E)]; rewrite E in Hsub.
  - unfold open_lock in E |- *.
    destruct (walk (fs s) [] p) as [e|] eqn:Hw.
    + by rewrite (walk_fails_subseteq (fs s) (fs s') [] p e Hsub Hq Hw).
    + destruct (fs s !! p) as [n|] eqn:Hn.
      * fold (open_lock p s'). apply open_lock_there.
        exists n. by eapply lookup_weaken.
      * apply (f_equal fs) in E. cbn [fs set_fs] in E.
        assert (fs s !! p = Some (File (clock s) (Garbage ""))) as Hp
          by by rewrite <- E, lookup_insert_eq.
        congruence.
  - apply open_lock_there. cbn [fs set_fs] in Hsub.
    eexists. eapply lookup_weaken; [|exact Hsub]. apply lookup_insert_eq.
Qed.

Lemma open_lock_log_lock (p : path) (e : lock_event) (s : state) :
  open_lock p (log_lock e s) = log_lock e (open_lock p s).
Proof.
  unfold open_lock. cbn [fs log_lock clock].
  destruct (walk (fs s) [] p); [done|]. by destruct (fs s !! p).
Qed.

Lemma stat_Dir_is_Some (f : gmap path node) (p : path) :
  stat f p = inr Dir → is_Some (f !! p).
Proof.
  unfold stat. destruct (f !! p) as [n|] eqn:E; [by eexists|].
  rewrite realpath_of_plain by (intros t; by rewrite E).
  intros [_ H]%lstat_inr. congruence.
Qed.

Lemma upgrade_Ok (st st' : state) :
  upgrade st = (Ok (), st') →
  fs st ⊆ fs st'
  ∧ (∀ p, p ∈ [base_path; lock_path; _flow_path; _task_path; _book_path] →
          stat (fs st') p = inr Dir)
  ∧ open_lock (lock_file L_init) st' = st'.
Proof.
  unfold upgrade. intros ([] & s1 & H1 & H2)%bind_Ok.
  apply lock_Ok in H2 as (s2 & H2 & ->).
  apply ensure_all_Ok in H1 as [Hsub1 Hall1].
  apply ensure_all_Ok in H2 as [Hsub2 Hall2].
  pose proof (locked_subseteq L_init s1) as Hsub.
  assert (fs s1 ⊆ fs s2) as Hsub12 by by etrans.
  split_and!.
  - cbn [fs log_lock]. by etrans.
  - cbn [fs log_lock]. intros p Hp. rewrite !elem_of_cons in Hp.
    destruct Hp as [->|[->|[->|[->|[->|[]%elem_of_nil]]]]];
      first [solve [apply Hall2; repeat constructor]
            |eapply stat_subseteq; [exact Hsub12|]; apply Hall1; repeat constructor].
  - assert (open_lock (lock_file L_init) s2 = s2) as E.
    { apply (open_lock_settled _ s1); [|exact Hsub2].
      intros q [k Hk] Hne.
      destruct q as [|a [|b q]].
      - apply stat_Dir_is_Some, (Hall1 base_path). repeat constructor.
      - injection Hk as <- _. apply stat_Dir_is_Some, (Hall1 lock_path).
        repeat constructor.
      - exfalso. apply Hne. cbn in Hk. injection Hk as <- <- Hq.
        by destruct q. }
    by rewrite open_lock_log_lock, E.
Qed.

Lemma ensure_all_noop (ps : list path) (st : state) :
  (∀ p, p ∈ ps → walk (fs st) [] p = None ∧ stat (fs st) p = inr Dir) →
  for_each ps (λ p, try_except (ensure_tree p) as_storage_error) st = (Ok (), st).
Proof.
  induction ps as [|p ps IH]; intros H; [done|].
  cbn [for_each]. rewrite run_bind, run_try_except.
  destruct (H p) as [Hw Hs]; [constructor|].
  rewrite ensure_tree_of_directory by done.
  apply IH. intros q Hq. apply H. by constructor.
Qed.

Lemma upgrade_of_valid (st : state) :
  (∀ p, p ∈ [base_path; lock_path; _flow_path; _task_path; _book_path] →
        stat (fs st) p = inr Dir) →
  upgrade st = (Ok (), log_lock (Release L_init) (locked L_init st)).
Proof.
  intros H.
  assert (fs st !! [] = Some Dir) as Hroot.
  { apply stat_root_Dir, (H base_path). constructor. }
  assert (∀ p, p ∈ [base_path; lock_path; _flow_path; _task_path; _book_path] →
               walk (fs st) [] p = None ∧ stat (fs st) p = inr Dir) as H'.
  { intros p Hp. split; [|by apply H].
    rewrite !elem_of_cons in Hp.
    destruct Hp as [->|[->|[->|[->|[->|[]%elem_of_nil]]]]]; simpl; by rewrite ?Hroot. }
  unfold upgrade. rewrite run_bind, ensure_all_noop.
  - rewrite run_with_process_lock_eq, ensure_all_noop; [done|].
    intros p Hp.
    assert (walk (fs st) [] p = None ∧ stat (fs st) p = inr Dir) as [Hw Hs].
    { apply H'. rewrite !elem_of_cons in Hp.
      destruct Hp as [->|[->|[->|[]%elem_of_nil]]]; repeat constructor. }
    split.
    + eapply walk_subseteq; [apply locked_subseteq|done].
    + eapply stat_subseteq; [apply locked_subseteq|done].
  - intros p Hp. apply H'. rewrite !elem_of_cons in Hp.
    destruct Hp as [->|[->|[]%elem_of_nil]]; repeat constructor.
Qed.

(** X2: after a successful [upgrade] the store passes [validate]; nothing
    that was there before is changed, and upgrading once more succeeds and
    leaves the file system as it is. *)
Theorem upgrade_then_validate (st st' : state) :
  upgrade st = (Ok (), st') →
  validate st' = (Ok (), st')
  ∧ fs st ⊆ fs st'
  ∧ ∃ st'', upgrade st' = (Ok (), st'') ∧ fs st'' = fs st'.
Proof.
  intros (Hsub & Hall & Hopen)%upgrade_Ok. split_and!; [|done|].
  - unfold validate. rewrite check_dirs_eq.
    replace (forallb _ _) with true; [done|]. symmetry.
    apply forallb_forall. intros p Hp. apply bool_decide_eq_true_2, Hall.
    by apply list_elem_of_In.
  - eexists. split; [by apply upgrade_of_valid|].
    unfold locked. cbn [fs log_lock]. by rewrite Hopen.
Qed.

Lemma upgrade_then_validate_witness :
  upgrade empty_store = (Ok (), fresh_store)
  ∧ validate fresh_store = (Ok (), fresh_store)
  ∧ fs empty_store ⊆ fs fresh_store
  ∧ ∃ st'', upgrade fresh_store = (Ok (), st'') ∧ fs st'' = fs fresh_store.
Proof.
  assert (upgrade empty_store = (Ok (), fresh_store)) as H by (vm_compute; reflexivity).
  split; [exact H|]. exact (upgrade_then_validate empty_store fresh_store H).
Defined.

(** ** What [upgrade] raises *)

Lemma raises_only_for_each {A} (P : exn → Prop) (xs : list A) (body : A → M unit) :
  (∀ x, raises_only P (body x)) → raises_only P (for_each xs body).
Proof.
  intros Hb. induction xs as [|x xs IH]; simpl.
  - apply raises_only_ret.
  - apply raises_only_bind; [apply Hb|by intros].
Qed.

Lemma raises_ensure_tree (p : path) :
  raises_only (λ e, ∃ c, e = EnvironmentError (Some c)) (ensure_tree p).
Proof.
  intros st e st'. unfold ensure_tree.
  destruct (ensure_dirs _ _ _) as [f' [c|]]; intros; simplify_eq; eauto.
Qed.

Lemma raises_ensure_all (ps : list path) :
  raises_only (λ e, ∃ c, e = StorageError (EnvironmentError (Some c)))
    (for_each ps (λ p, try_except (ensure_tree p) as_storage_error)).
Proof.
  apply raises_only_for_each. intros p.
  eapply raises_only_try_except; [apply raises_ensure_tree|..].
  - intros e [c ->]. done.
  - intros e k [c ->] [= <-]. apply raises_only_raise. eauto.
Qed.

(** X3: whatever goes wrong in [upgrade] reaches the caller as a
    [StorageError] that wraps the environment error of the directory
    creation. *)
Theorem upgrade_failure_is_StorageError (st st' : state) (e : exn) :
  upgrade st = (Raise e, st') →
  ∃ c, e = StorageError (EnvironmentError (Some c)).
Proof.
  revert st e st'.
  change (raises_only (λ e, ∃ c, e = StorageError (EnvironmentError (Some c))) upgrade).
  unfold upgrade. apply raises_only_bind; [apply raises_ensure_all|]. intros [].
  apply raises_only_lock.
  eapply raises_only_weaken; [|apply raises_ensure_all].
  intros e [c ->]. simpl. eauto.
Qed.

Lemma upgrade_failure_is_StorageError_witness :
  upgrade blocked_store
  = (Raise (StorageError (EnvironmentError (Some EEXIST))), blocked_store)
  ∧ ∃ c, StorageError (EnvironmentError (Some EEXIST))
         = StorageError (EnvironmentError (Some c)).
Proof.
  assert (upgrade blocked_store
          = (Raise (StorageError (EnvironmentError (Some EEXIST))), blocked_store)) as H
    by (vm_compute; reflexivity).
  split; [exact H|]. exact (upgrade_failure_is_StorageError _ _ _ H).
Defined.


(** ** [clear_all] *)

Lemma lookup_filter_below (d p : path) (f : gmap path node) :
  filter (below d) f !! p = if decide (d `prefix_of` p) then None else f !! p.
Proof.
  destruct (decide (d `prefix_of` p)) as [Hp|Hp].
  - apply map_lookup_filter_None_2. right. intros n _ Hb. by apply Hb.
  - destruct (f !! p) as [n|] eqn:E.
    + by apply map_lookup_filter_Some_2.
    + apply map_lookup_filter_None_2. by left.
Qed.




Lemma clear_all_eq (st : state) :
  clear_all st =
  let inside := locked L_task (locked L_flow (locked L_book (locked L_init st))) in
  let released s := log_lock (Release L_init) (log_lock (Release L_book)
                      (log_lock (Release L_flow) (log_lock (Release L_task) s))) in
  match for_each [_book_path; _flow_path; _task_path]
          (λ d : path,
             b ← os_path_isdir d;
             if b : bool then shutil_rmtree d else mret ()) inside with
  | (Ok a, s) => (Ok a, released s)
  | (Raise e, s) =>
      (Raise (if is_TaskFlowException e then e else StorageError e), released s)
  end.
Proof.
  unfold clear_all. rewrite !run_with_process_lock_eq. cbv zeta.
  destruct (for_each _ _ _) as [[a|e] s]; [done|].
  by destruct e.
Qed.

Lemma all_locked_same_data (st : state) :
  same_data st (locked L_task (locked L_flow (locked L_book (locked L_init st)))).
Proof. repeat (etrans; [|apply locked_same_data]). reflexivity. Qed.


(** What is there after lock files were opened was there before, or is a
    lock file that was not. *)
Lemma same_data_new st st' p n :
  same_data st st' → fs st' !! p = Some n →
  fs st !! p = Some n ∨ new_lock_file st p.
Proof.
  intros [Hsub Hsd] Hn. destruct (decide (p ∈ lock_files)) as [Hin|Hout].
  - destruct (fs st !! p) as [n'|] eqn:E; [|by right].
    left. rewrite (lookup_weaken _ _ _ _ E Hsub) in Hn. done.
  - left. by rewrite <- Hsd.
Qed.



Lemma walk_filter_below (d : path) (f : gmap path node) (pre rest : path) :
  walk f pre rest = None → ¬ d `prefix_of` pre ++ rest →
  walk (filter (below d) f) pre rest = None.
Proof.
  revert pre. induction rest as [|c rest IH]; intros pre; simpl; [done|].
  intros Hw Hd. rewrite lookup_filter_below, decide_False.
  - destruct (f !! pre) as [[]|]; try done. apply IH; [done|].
    by rewrite <- app_assoc.
  - intros Hp. apply Hd. by apply prefix_app_r.
Qed.

Lemma lstat_filter_below (d q : path) (f : gmap path node) (n : node) :
  lstat f q = inr n → ¬ d `prefix_of` q → lstat (filter (below d) f) q = inr n.
Proof.
  intros [Hw Hn]%lstat_inr Hd. apply lstat_inr. split.
  - by apply walk_filter_below.
  - by rewrite lookup_filter_below, decide_False.
Qed.

Lemma clear_dir_of_directory (d : path) (st : state) :
  lstat (fs st) d = inr Dir →
  (b ← os_path_isdir d; if b : bool then shutil_rmtree d else mret ()) st
  = (Ok (), set_fs (filter (below d) (fs st)) st).
Proof.
  intros Hl. rewrite run_bind. unfold os_path_isdir, shutil_rmtree, stat.
  pose proof Hl as [_ Hd]%lstat_inr.
  rewrite realpath_of_plain by (intros t; by rewrite Hd).
  rewrite Hl. cbv beta iota. by rewrite Hl.
Qed.

Lemma missing_of_removed (f : gmap path node) (c : string) :
  f !! [] = Some Dir → f !! [c] = None → stat f [c] = inl ENOENT.
Proof.
  intros Hr Hc. unfold stat.
  rewrite realpath_of_plain by (intros t; by rewrite Hc).
  unfold lstat. simpl. by rewrite Hr, Hc.
Qed.

(** X5: when [books], [flows] and [tasks] are directories, [clear_all]
    succeeds and removes the three with everything below them; every
    other node that was there stays as it was, and nothing is new but
    lock files that were not there; a listing of the logbooks is then
    empty. *)
Theorem clear_all_removes_everything (st : state) :
  lstat (fs st) _book_path = inr Dir →
  lstat (fs st) _flow_path = inr Dir →
  lstat (fs st) _task_path = inr Dir →
  ∃ st', clear_all st = (Ok (), st')
         ∧ (∀ p, data_path p → fs st' !! p = None)
         ∧ (∀ p n, ¬ data_path p → fs st !! p = Some n → fs st' !! p = Some n)
         ∧ (∀ p n, fs st' !! p = Some n → fs st !! p = Some n ∨ new_lock_file st p)
         ∧ get_logbooks st' = (Ok [], st').
Proof.
  intros Hb Hf Ht. rewrite clear_all_eq. cbv zeta. cbn [for_each].
  pose proof (all_locked_same_data st) as Hsd.
  set (inside := locked L_task _) in *.
  assert (∀ d, data_path d → lstat (fs st) d = inr Dir → lstat (fs inside) d = inr Dir)
    as Hin.
  { intros d Hd Hl. by rewrite (lstat_same_data st). }
  assert (lstat (fs inside) _book_path = inr Dir) as Hb'
    by (apply Hin; [left|]; done).
  assert (lstat (fs inside) _flow_path = inr Dir) as Hf'
    by (apply Hin; [right; left|]; done).
  assert (lstat (fs inside) _task_path = inr Dir) as Ht'
    by (apply Hin; [right; right|]; done).
  rewrite run_bind, clear_dir_of_directory by done.
  rewrite run_bind, clear_dir_of_directory
    by (cbn [fs set_fs]; by apply lstat_filter_below; [|compute; intros [? [=]]]).
  rewrite run_bind, clear_dir_of_directory
    by (cbn [fs set_fs];
        by repeat (apply lstat_filter_below; [|compute; intros [? [=]]])).
  eexists. split; [reflexivity|]. cbn [fs set_fs log_lock].
  assert (∀ p, filter (below _task_path) (filter (below _flow_path)
                 (filter (below _book_path) (fs inside))) !! p
               = if decide (data_path p) then None else fs inside !! p) as Hlook.
  { intros p. rewrite !lookup_filter_below. unfold data_path.
    destruct (decide (_task_path `prefix_of` p)); [by rewrite decide_True by tauto|].
    destruct (decide (_flow_path `prefix_of` p)); [by rewrite decide_True by tauto|].
    destruct (decide (_book_path `prefix_of` p)); [by rewrite decide_True by tauto|].
    by rewrite decide_False by tauto. }
  split_and!.
  - intros p Hp. by rewrite Hlook, decide_True.
  - intros p n Hp Hn. rewrite Hlook, decide_False by done.
    eapply lookup_weaken; [exact Hn|apply Hsd].
  - intros p n. rewrite Hlook. case_decide; [done|].
    by apply same_data_new.
  - rewrite get_logbooks_eq. unfold _get_logbooks.
    rewrite run_bind, run_try_except, list_dirs_of_missing; [done|].
    unfold missing. cbn [fs set_fs log_lock].
    apply missing_of_removed.
    + rewrite Hlook, decide_False.
      * apply lstat_inr in Hb' as [Hw _].
        unfold _book_path, path_join, base_path in Hw. cbn [app walk] in Hw.
        by destruct (fs inside !! []) as [[]|].
      * unfold data_path. compute. intros [[? [=]]|[[? [=]]|[? [=]]]].
    + rewrite Hlook, decide_True; [done|]. by left.
Qed.

(** On a freshly upgraded store, where only the lock file of the init
    lock is there, [clear_all] leaves the three other lock files behind. *)
Lemma clear_all_removes_everything_witness :
  lstat (fs fresh_store) _book_path = inr Dir
  ∧ lstat (fs fresh_store) _flow_path = inr Dir
  ∧ lstat (fs fresh_store) _task_path = inr Dir
  ∧ fs fresh_store !! lock_file L_book = None
  ∧ fs (clear_all fresh_store).2 !! lock_file L_book
    = Some (File 100 (Garbage ""))
  ∧ ∃ st', clear_all fresh_store = (Ok (), st')
           ∧ (∀ p, data_path p → fs st' !! p = None)
           ∧ (∀ p n, ¬ data_path p → fs fresh_store !! p = Some n →
                     fs st' !! p = Some n)
           ∧ (∀ p n, fs st' !! p = Some n →
                     fs fresh_store !! p = Some n ∨ new_lock_file fresh_store p)
           ∧ get_logbooks st' = (Ok [], st').
Proof.
  assert (lstat (fs fresh_store) _book_path = inr Dir) as Hb by (vm_compute; reflexivity).
  assert (lstat (fs fresh_store) _flow_path = inr Dir) as Hf by (vm_compute; reflexivity).
  assert (lstat (fs fresh_store) _task_path = inr Dir) as Ht by (vm_compute; reflexivity).
  split_and!; [exact Hb|exact Hf|exact Ht|vm_compute; reflexivity..|].
  exact (clear_all_removes_everything fresh_store Hb Hf Ht).
Defined.


(** ** Saving and reading back a task *)

Lemma save_task_details_result td ign st r st' :
  _save_task_details td ign st = (Ok r, st') → r = td.
Proof.
  unfold _save_task_details. intros (e_td & s0 & Hprobe & Hrun)%bind_Ok.
  apply bind_Ok in Hrun as ([] & s1 & _ & Hret).
  unfold mret, M_ret in Hret. injection Hret as <- _.
  apply probe_existing_Ok in Hprobe as [(a & Hget & ->)|(-> & _)]; [|done].
  apply get_task_details_uuid in Hget. unfold task_details_merge.
  rewrite Hget. by destruct td.
Qed.

Lemma get_task_of_stored (td : TaskDetail) (st : state) (m : Z) (lock : bool) :
  stat (fs st) (path_join _task_path (td_uuid td)) = inr (File m (format_task_detail td)) →
  cached st (path_join _task_path (td_uuid td)) = None →
  (_get_task_details (td_uuid td) lock st).1 = Ok td.
Proof.
  intros Hst Hc.
  assert (∀ s, fs st ⊆ fs s → file_cache s = file_cache st →
               (_get_task_details (td_uuid td) false s).1 = Ok td) as Hget.
  { intros s Hfs Hcache. unfold _get_task_details. rewrite !run_bind.
    rewrite (read_from_reread _ s m (format_task_detail td)).
    - by destruct td.
    - by eapply stat_subseteq.
    - unfold must_reread, cached in *. by rewrite Hcache, Hc. }
  destruct lock; [|by apply Hget].
  change (_get_task_details (td_uuid td) true)
    with (_run_with_process_lock L_task (_get_task_details (td_uuid td) false)).
  rewrite run_with_process_lock_eq.
  specialize (Hget (locked L_task st) (locked_subseteq _ _) (locked_cache _ _)).
  destruct (_get_task_details _ _ _) as [[a|e] s]; simpl in *; congruence.
Qed.

(** X6: a task detail that [update_task_details] has stored is returned as
    it was given, and reading the task afterwards returns that same task
    detail, with or without the task lock: the write drops the cache entry
    of the file, so the read goes to the disk. *)
Theorem updated_task_reads_back (td r : TaskDetail) (st st' : state) (lock : bool) :
  update_task_details td st = (Ok r, st') →
  r = td ∧ (_get_task_details (td_uuid td) lock st').1 = Ok td.
Proof.
  unfold update_task_details. intros (s1 & Hsave & ->)%lock_Ok.
  split; [by eapply save_task_details_result|].
  apply save_task_details_Ok in Hsave as (m & Hst & Hc).
  by apply (get_task_of_stored td _ m).
Qed.

Lemma updated_task_reads_back_witness :
  (update_task_details task_A_done saved_store).1 = Ok task_A_done
  ∧ (_get_task_details "A" true (update_task_details task_A_done saved_store).2).1
    = Ok task_A_done.
Proof.
  destruct (run_succeeds (update_task_details task_A_done) saved_store) as [r Hr];
    [vm_compute; reflexivity|].
  destruct (updated_task_reads_back task_A_done r saved_store _ true Hr) as [-> Hget].
  split; [|exact Hget]. rewrite Hr. reflexivity.
Defined.

(** ** A task update that fails *)

Lemma get_task_unlocked_same_fs u : steps same_fs (_get_task_details u false).
Proof.
  apply steps_bind; [apply _|apply read_decode_same_fs|].
  intros d. apply steps_pure; [apply _|apply pure_unformat_task].
Qed.





(** ** Updating what is not stored *)



(** ** Operations that only read *)

(** X9: [validate] leaves the file system as it is; [get_logbook],
    [get_logbooks] and the loading of a flow or a task, locked or not,
    leave every file, directory and link that was there as it is,
    whatever they return or raise, and add nothing but the lock files of
    the locks they take, where these were not there. *)
Theorem reads_leave_the_files (st : state) :
  fs (validate st).2 = fs st
  ∧ (∀ u, same_data st (get_logbook u st).2)
  ∧ same_data st (get_logbooks st).2
  ∧ (∀ u lock, same_data st (_get_flow_details u lock st).2)
  ∧ (∀ u lock, same_data st (_get_task_details u lock st).2)
  ∧ (∀ u, fs (_get_task_details u false st).2 = fs st)
  ∧ fs fresh_store !! lock_file L_book = None
  ∧ fs (get_logbook "B1" fresh_store).2 !! lock_file L_book
    = Some (File 100 (Garbage "")).
Proof.
  split_and!.
  - unfold validate. by rewrite check_dirs_eq.
  - intros u. eapply @steps_get_logbook_locked; [apply same_data_frame|done..].
  - eapply @steps_get_logbooks; [apply same_data_frame|done..].
  - intros u lock. eapply @steps_get_flow_details; [apply same_data_frame|done..].
  - intros u lock. eapply @steps_get_task_details; [apply same_data_frame|done..].
  - intros u. apply get_task_unlocked_same_fs.
  - vm_compute. reflexivity.
  - vm_compute. reflexivity.
Qed.

(** ** Operations that save *)

(** X10: [save_logbook], [update_flow_details] and [update_task_details]
    never remove anything, whether they succeed or fail: every node that
    was there is still there, a file as a file, a directory as a directory
    and a link with the target it had. *)
Theorem saves_never_remove (st : state) :
  (∀ book, keeps_structure st (save_logbook book st).2)
  ∧ (∀ fd, keeps_structure st (update_flow_details fd st).2)
  ∧ (∀ td, keeps_structure st (update_task_details td st).2).
Proof.
  split_and!.
  - intros book. eapply @steps_save_logbook; [apply keeps_structure_frame|done..].
  - intros fd. eapply @steps_update_flow_details; [apply keeps_structure_frame|done..].
  - intros td. eapply @steps_update_task_details; [apply keeps_structure_frame|done..].
Qed.

(** ** The cache in the stores that the operations produce *)

(** X11: in every store that a sequence of operations produces from the
    empty one, whatever their outcomes, reading the metadata file of a
    book, a flow or a task returns the content that is on disk: the cache
    is never stale. *)
Theorem reachable_reads_are_fresh (ops : list operation) (t : tier) (uuid : string)
    (m : Z) (d : doc) :
  stat (fs (run_all ops empty_store)) (metadata_path t uuid) = inr (File m d) →
  ∃ st1, _read_from (metadata_path t uuid) (run_all ops empty_store) = (Ok d, st1).
Proof.
  intros Hst. eapply read_from_coherent; [apply reachable_store_ok| |exact Hst].
  by destruct t.
Qed.

Lemma reachable_reads_are_fresh_witness :
  let ops := [Op_upgrade; Op_save_logbook book_1; Op_get_logbook "B1";
              Op_update_task_details task_A_done] in
  stat (fs (run_all ops empty_store)) (metadata_path Task "A")
  = inr (File 104 (TaskDoc "DONE" "42" ""))
  ∧ ∃ st1, _read_from (metadata_path Task "A") (run_all ops empty_store)
           = (Ok (TaskDoc "DONE" "42" ""), st1).
Proof.
  intros ops.
  assert (stat (fs (run_all ops empty_store)) (metadata_path Task "A")
          = inr (File 104 (TaskDoc "DONE" "42" ""))) as Hst by (vm_compute; reflexivity).
  split; [exact Hst|].
  exact (reachable_reads_are_fresh ops Task "A" 104 (TaskDoc "DONE" "42" "") Hst).
Defined.


(** ** [destroy_logbook] *)

Global Instance only_removes_preorder K : PreOrder (only_removes K).
Proof.
  split.
  - intros st. split; eauto.
  - intros s1 s2 s3 [Hs1 Hk1] [Hs2 Hk2]. split.
    + intros p n [H2|[Hin H2]]%Hs2; [by apply Hs1|].
      destruct (fs s1 !! p) as [n'|] eqn:E; [|by right].
      rewrite (Hk1 p n') in H2 by auto. done.
    + intros p n Hp Hn. by apply Hk2, Hk1.
Qed.

Global Instance only_removes_frame K :
  Frame (λ _, True) (λ _, False) (λ _, False) (only_removes K).
Proof.
  split; [apply _| | | |done..].
  - intros l st. split.
    + intros p n. apply same_data_new, open_lock_same_data.
    + intros p n _ Hn. by eapply lookup_weaken; [|apply open_lock_subseteq].
  - intros e st. split; eauto.
  - intros p _ st. unfold only_removes. rewrite read_from_same_fs. split; eauto.
Qed.

Lemma data_path_below (p q : path) : data_path p → p `prefix_of` q → data_path q.
Proof.
  intros [H|[H|H]] Hq; [left|right; left|right; right]; by etrans.
Qed.

Lemma rmtree_only_removes K p :
  data_path p → (∀ q, K q → ¬ p `prefix_of` q) →
  steps (only_removes K) (shutil_rmtree p).
Proof.
  intros Hp HK st. unfold shutil_rmtree.
  destruct (lstat (fs st) p) as [e|[]]; try (split; by eauto).
  split; cbn [fs set_fs snd].
  - intros q n [Hq _]%map_lookup_filter_Some. by left.
  - intros q n Hq Hn. rewrite lookup_filter_below, decide_False; [done|].
    destruct Hq as [Hq|Hq]; [by apply HK|].
    intros Hpre. by apply (data_path_not_lock q); [eapply data_path_below|].
Qed.

Lemma remove_tree_only_removes K p :
  data_path p → (∀ q, K q → ¬ p `prefix_of` q) →
  steps (only_removes K) (remove_tree p).
Proof.
  intros Hp HK. apply steps_try_except; [apply _|by apply rmtree_only_removes|].
  intros e k Hk. destruct e; simplify_eq.
  case_decide; simplify_eq; by apply steps_pure; [apply _|].
Qed.

Lemma prefix_of_child (d : path) (c : string) (q : path) :
  path_join d c `prefix_of` q → d `prefix_of` q.
Proof. intros H. etrans; [|exact H]. by apply prefix_app_r. Qed.

(** The loop of [_destroy_flows] with the loop of [_destroy_tasks] in it. *)
Lemma destroy_flows_only_removes K (fds : list FlowDetail) :
  (∀ q, K q → ¬ _flow_path `prefix_of` q ∧ ¬ _task_path `prefix_of` q) →
  steps (only_removes K)
    (_run_with_process_lock L_flow
       (for_each fds (λ flow_detail,
          let flow_path := path_join _flow_path (fd_uuid flow_detail) in
          _run_with_process_lock L_task
            (for_each (fd_tasks flow_detail) (λ task_detail,
               let task_path := path_join _task_path (td_uuid task_detail) in
               remove_tree task_path));;
          remove_tree flow_path))).
Proof.
  intros HK.
  apply steps_lock; [apply _|apply (@frame_locks _ _ _ _ (only_removes_frame K))|].
  apply steps_for_each; [apply _|]. intros fd _.
  apply steps_bind; [apply _| |intros _].
  - apply steps_lock; [apply _|apply (@frame_locks _ _ _ _ (only_removes_frame K))|].
    apply steps_for_each; [apply _|]. intros td _.
    apply remove_tree_only_removes; [right; right; by eexists|].
    intros q Hq Hp%prefix_of_child. by destruct (HK q Hq).
  - apply remove_tree_only_removes; [right; left; by eexists|].
    intros q Hq Hp%prefix_of_child. by destruct (HK q Hq).
Qed.

Lemma destroy_logbook_only_removes u :
  steps (only_removes (outside_book u)) (destroy_logbook u).
Proof.
  unfold destroy_logbook. cbv zeta.
  apply steps_lock; [apply _|apply (@frame_locks _ _ _ _ (only_removes_frame _))|].
  intros st. rewrite run_bind.
  pose proof (@steps_get_logbook _ _ _ _ (only_removes_frame (outside_book u))
                (λ _ _, I) (λ _ _, I) u st) as Hget.
  destruct (_get_logbook u st) as [[book|e] s1] eqn:Hg; [|exact Hget].
  apply get_logbook_fields in Hg as [Hu _]. etrans; [exact Hget|].
  clear Hget. cbn [snd]. revert s1.
  assert (∀ m : M unit, steps (only_removes (outside_book u)) m →
                        ∀ s, only_removes (outside_book u) s (m s).2) as Happ
    by (intros m Hm s; apply Hm).
  apply Happ.
  apply steps_bind; [apply _| |intros _].
  - apply destroy_flows_only_removes. intros q (_ & ? & ?). done.
  - apply remove_tree_only_removes; [left; by eexists|].
    rewrite Hu. by intros q (? & _).
Qed.

(** X12: [destroy_logbook] changes no node and adds none but lock files
    that were not there, and whatever it removes lies in the directory of
    the book, in [flows] or in [tasks]: other books, the lock files and the
    storage root stay as they are, also when the operation fails. *)
Theorem destroy_logbook_frame (u : string) (st : state) :
  let st' := (destroy_logbook u st).2 in
  (∀ p n, fs st' !! p = Some n → fs st !! p = Some n ∨ new_lock_file st p)
  ∧ (∀ p n, outside_book u p → fs st !! p = Some n → fs st' !! p = Some n).
Proof.
  destruct (destroy_logbook_only_removes u st) as [Hnew Hkeep].
  split; [exact Hnew|]. intros p n Hp. apply Hkeep. by left.
Qed.

Lemma destroy_logbook_missing (u : string) (st : state) :
  missing st (book_metadata u) →
  link_at (fs st) (book_metadata u) = false →
  destroy_logbook u st
  = (Raise NotFound, log_lock (Release L_book) (locked L_book st)).
Proof.
  intros H Hnl. unfold destroy_logbook. cbv zeta. rewrite run_with_process_lock_eq.
  rewrite run_bind.
  destruct (get_logbook_missing u (locked L_book st)) as (s & -> & ->); [|done].
  eapply missing_same_data; [apply locked_same_data|apply book_metadata_data|done..].
Qed.




(** ** Loading the children of a container *)

Lemma link_at_child_ref st index c :
  link_at (fs st) (index ++ [c]) = true ↔ child_ref st index c.
Proof.
  unfold link_at, child_ref. split.
  - destruct (fs st !! (index ++ [c])) as [[]|]; try done. eauto.
  - by intros [t ->].
Qed.

Lemma filter_M_islink (d : path) (names : list string) (st : state) :
  lstat (fs st) d = inr Dir →
  filter_M (λ f, os_path_islink (path_join d f)) names st
  = (Ok (filter (λ n, link_at (fs st) (path_join d n)) names), st).
Proof.
  intros [Hw Hd]%lstat_inr.
  induction names as [|x names IH]; [done|].
  cbn [filter_M]. rewrite run_bind. unfold os_path_islink at 1.
  assert (lstat (fs st) (path_join d x)
          = match fs st !! path_join d x with
            | Some n => inr n
            | None => inl ENOENT
            end) as ->.
  { unfold lstat, path_join. by rewrite walk_app_one, Hw, app_nil_l, Hd. }
  destruct (fs st !! path_join d x) as [[]|] eqn:E; rewrite run_bind, IH;
    rewrite filter_cons;
    (destruct (decide _) as [H|H]; unfold link_at in H; rewrite E in H; try done);
    exfalso; by apply H.
Qed.

Lemma list_links_of_directory (d : path) (st : state) :
  lstat (fs st) d = inr Dir →
  list_links d st
  = (Ok (filter (λ n, link_at (fs st) (path_join d n)) (entries (fs st) d)), st).
Proof.
  intros Hl. unfold list_links. rewrite run_bind. unfold os_listdir.
  pose proof Hl as [_ Hd]%lstat_inr.
  rewrite realpath_of_plain by (intros t; by rewrite Hd).
  rewrite Hl. by apply filter_M_islink.
Qed.

(** The names that the guarded listing of a child index yields. *)
Lemma index_listing (d : path) (st : state) (names : list string) (st' : state) :
  link_at (fs st) d = false →
  try_except (list_links d) (unless_errno ENOENT (mret [])) st = (Ok names, st') →
  NoDup names
  ∧ ∀ c, c ∈ names ↔ lstat (fs st) d = inr Dir ∧ child_ref st d c.
Proof.
  intros Hnl Hrun.
  assert (realpath MAXSYMLINKS (fs st) d = inr d) as Hreal.
  { apply realpath_of_plain. intros t Ht. unfold link_at in Hnl. by rewrite Ht in Hnl. }
  destruct (decide (lstat (fs st) d = inr Dir)) as [Hl|Hl].
  - rewrite run_try_except, list_links_of_directory in Hrun by done.
    injection Hrun as <- _. split.
    + apply NoDup_filter, NoDup_entries.
    + intros c. rewrite list_elem_of_filter, elem_of_entries. split.
      * intros [Hc%Is_true_true _]. split; [done|]. by apply link_at_child_ref.
      * intros [_ Hc]. split; [by apply Is_true_true, link_at_child_ref|].
        destruct Hc as [t Ht]. by eexists.
  - assert (names = []) as ->.
    { apply try_except_Ok in Hrun as [Hrun|(e & s1 & k & Hrun & Hk & Hr)].
      - exfalso. apply Hl. unfold list_links in Hrun.
        apply bind_Ok in Hrun as (ns & s & Hls & _).
        unfold os_listdir in Hls. rewrite Hreal in Hls.
        by destruct (lstat (fs st) d) as [?|[]].
      - apply unless_errno_Some in Hk as [->| ->].
        + unfold mret, M_ret in Hr. by simplify_eq.
        + by unfold raise in Hr. }
    split; [apply NoDup_nil_2|]. intros c. split; [by intros ?%elem_of_nil|].
    by intros [? _].
Qed.

Lemma get_task_locked_uuid u st td st' :
  _get_task_details u true st = (Ok td, st') → td_uuid td = u.
Proof.
  change (_get_task_details u true)
    with (_run_with_process_lock L_task (_get_task_details u false)).
  intros (s & H & _)%lock_Ok. by eapply get_task_details_uuid.
Qed.

Lemma load_tasks_uuids xs fd0 st r st' :
  fold_M (λ fd t_uuid, td ← _get_task_details t_uuid true; mret (fd_add fd td))
         xs fd0 st = (Ok r, st') →
  map td_uuid (fd_tasks r) = map td_uuid (fd_tasks fd0) ++ xs.
Proof.
  revert fd0 st. induction xs as [|x xs IH]; intros fd0 st; cbn [fold_M].
  - intros [= <- _]. by rewrite app_nil_r.
  - intros (fd1 & s1 & (td & s2 & Hget & Hr)%bind_Ok & Hrest)%bind_Ok.
    unfold mret, M_ret in Hr. simplify_eq.
    apply get_task_locked_uuid in Hget.
    apply IH in Hrest. rewrite Hrest. simpl. rewrite map_app. simpl.
    rewrite Hget. by rewrite <- app_assoc.
Qed.

Lemma load_flows_uuids xs lb0 st r st' :
  fold_M (λ lb fd_uuid, fd ← _get_flow_details fd_uuid true; mret (lb_add lb fd))
         xs lb0 st = (Ok r, st') →
  map fd_uuid (lb_flows r) = map fd_uuid (lb_flows lb0) ++ xs.
Proof.
  revert lb0 st. induction xs as [|x xs IH]; intros lb0 st; cbn [fold_M].
  - intros [= <- _]. by rewrite app_nil_r.
  - intros (lb1 & s1 & (fd & s2 & Hget & Hr)%bind_Ok & Hrest)%bind_Ok.
    unfold mret, M_ret in Hr. simplify_eq.
    apply get_flow_details_uuid in Hget.
    apply IH in Hrest. rewrite Hrest. simpl. rewrite map_app. simpl.
    rewrite Hget. by rewrite <- app_assoc.
Qed.

Lemma get_flow_unlocked_tasks u st fd st' :
  link_at (fs st) (flow_index u) = false →
  _get_flow_details u false st = (Ok fd, st') →
  NoDup (map td_uuid (fd_tasks fd))
  ∧ ∀ c, c ∈ map td_uuid (fd_tasks fd)
         ↔ lstat (fs st) (flow_index u) = inr Dir ∧ child_ref st (flow_index u) c.
Proof.
  intros Hlay. unfold _get_flow_details. intros Hg.
  apply bind_Ok in Hg as (meta & s1 & Hrd & Hg).
  apply bind_Ok in Hg as (fd0 & s2 & (-> & sx & m & -> & ->)%unformat_flow_Ok & Hg).
  apply bind_Ok in Hg as (tds & s3 & Hl & Hg).
  pose proof (steps_Ok _ _ _ _ _ (read_decode_same_fs _) Hrd) as Hfs.
  apply load_tasks_uuids in Hg. simpl in Hg. rewrite Hg.
  apply index_listing in Hl as [Hnd Hin]; [|by rewrite Hfs].
  split; [done|]. intros c. rewrite Hin. unfold child_ref. by rewrite Hfs.
Qed.


Lemma get_logbook_flows u st lb st' :
  link_at (fs st) (book_index u) = false →
  _get_logbook u st = (Ok lb, st') →
  NoDup (map fd_uuid (lb_flows lb))
  ∧ ∀ c, c ∈ map fd_uuid (lb_flows lb)
         ↔ lstat (fs st) (book_index u) = inr Dir ∧ child_ref st (book_index u) c.
Proof.
  intros Hlay. unfold _get_logbook. intros Hg.
  apply bind_Ok in Hg as (meta & s1 & Hrd & Hg).
  apply bind_Ok in Hg as (lb0 & s2 & (-> & c0 & up & m & -> & ->)%unformat_logbook_Ok & Hg).
  apply bind_Ok in Hg as (fds & s3 & Hl & Hg).
  assert (fs s1 = fs st) as Hfs.
  { apply try_except_Ok in Hrd as [Hrd|(e & s & k & _ & Hk & Hr)].
    - exact (steps_Ok _ _ _ _ _ (read_decode_same_fs _) Hrd).
    - destruct e; simplify_eq. case_decide; by simplify_eq. }
  apply load_flows_uuids in Hg. simpl in Hg. rewrite Hg.
  apply index_listing in Hl as [Hnd Hin]; [|by rewrite Hfs].
  split; [done|]. intros c. rewrite Hin. unfold child_ref. by rewrite Hfs.
Qed.

Lemma flow_index_data u : data_path (flow_index u).
Proof. right; left. by eexists. Qed.

Lemma book_index_data u : data_path (book_index u).
Proof. left. by eexists. Qed.

Lemma child_ref_same_data st st' index c :
  same_data st st' → data_path index →
  child_ref st' index c ↔ child_ref st index c.
Proof.
  intros [_ Hsd] Hd. unfold child_ref. rewrite Hsd; [done|].
  apply data_path_not_lock. eapply data_path_below; [exact Hd|].
  by apply prefix_app_r.
Qed.

(** X14: when the index directory of a container is not itself a
    symbolic link, the tasks of a loaded flow are exactly the links of the
    flow's [tasks] directory, and the flows of a loaded book exactly the
    links of the book's [flows] directory, each once; entries that are not
    links are passed over, and a missing directory means no children. *)
Theorem loaded_children_are_the_links (st : state) :
  (∀ u lock fd st',
     link_at (fs st) (flow_index u) = false →
     _get_flow_details u lock st = (Ok fd, st') →
     NoDup (map td_uuid (fd_tasks fd))
     ∧ ∀ c, c ∈ map td_uuid (fd_tasks fd)
            ↔ lstat (fs st) (flow_index u) = inr Dir ∧ child_ref st (flow_index u) c)
  ∧ (∀ u lb st',
       link_at (fs st) (book_index u) = false →
       get_logbook u st = (Ok lb, st') →
       NoDup (map fd_uuid (lb_flows lb))
       ∧ ∀ c, c ∈ map fd_uuid (lb_flows lb)
              ↔ lstat (fs st) (book_index u) = inr Dir ∧ child_ref st (book_index u) c).
Proof.
  split.
  - intros u [] fd st' Hnl Hg.
    + change (_get_flow_details u true)
        with (_run_with_process_lock L_flow (_get_flow_details u false)) in Hg.
      apply lock_Ok in Hg as (s1 & Hg & _).
      pose proof (locked_same_data L_flow st) as Hsd.
      apply get_flow_unlocked_tasks in Hg as [Hnd Hin].
      2:{ by rewrite (link_at_same_data st) by (done || apply flow_index_data). }
      split; [done|]. intros c. rewrite Hin.
      rewrite (lstat_same_data st) by (done || apply flow_index_data).
      by rewrite (child_ref_same_data st) by (done || apply flow_index_data).
    + by eapply get_flow_unlocked_tasks.
  - intros u lb st' Hnl (s1 & Hg & _)%lock_Ok.
    pose proof (locked_same_data L_book st) as Hsd.
    apply get_logbook_flows in Hg as [Hnd Hin].
    2:{ by rewrite (link_at_same_data st) by (done || apply book_index_data). }
    split; [done|]. intros c. rewrite Hin.
    rewrite (lstat_same_data st) by (done || apply book_index_data).
    by rewrite (child_ref_same_data st) by (done || apply book_index_data).
Qed.

(** A regular file among the links of the index directory is listed by
    the directory and passed over by the load, although a task of its
    name is stored and loads. *)
Lemma loaded_children_are_the_links_witness :
  link_at (fs cluttered_store) (flow_index "F1") = false
  ∧ "notes" ∈ entries (fs cluttered_store) (flow_index "F1")
  ∧ (_get_task_details "notes" true cluttered_store).1 = Ok (task "notes")
  ∧ ∃ fd, (_get_flow_details "F1" true cluttered_store).1 = Ok fd
          ∧ ("notes" ∉ map td_uuid (fd_tasks fd))
          ∧ NoDup (map td_uuid (fd_tasks fd))
          ∧ ∀ c, c ∈ map td_uuid (fd_tasks fd)
                 ↔ lstat (fs cluttered_store) (flow_index "F1") = inr Dir
                   ∧ child_ref cluttered_store (flow_index "F1") c.
Proof.
  assert (link_at (fs cluttered_store) (flow_index "F1") = false) as Hnl
    by (vm_compute; reflexivity).
  split; [exact Hnl|]. split.
  { apply elem_of_entries. exists (File 0 (Garbage "")). vm_compute. reflexivity. }
  split; [vm_compute; reflexivity|].
  destruct (run_succeeds (_get_flow_details "F1" true) cluttered_store) as [fd Hfd];
    [vm_compute; reflexivity|].
  destruct (proj1 (loaded_children_are_the_links cluttered_store) "F1" true fd _ Hnl Hfd)
    as [Hnd Hin].
  exists fd. split; [by rewrite Hfd|]. split; [|by split].
  intros [_ [t Ht]]%Hin.
  assert (fs cluttered_store !! (flow_index "F1" ++ ["notes"])
          = Some (File 0 (Garbage ""))) as E by (vm_compute; reflexivity).
  rewrite E in Ht. discriminate Ht.
Defined.


(** ** What a successful [destroy_logbook] leaves *)

Lemma read_decode_Ok_stat p st d st' :
  (_read_from p ≫= decode_json) st = (Ok d, st') → ∃ n, stat (fs st) p = inr n.
Proof.
  intros (d0 & s1 & Hrd & _)%bind_Ok. unfold _read_from in Hrd.
  apply bind_Ok in Hrd as (m & s2 & Hm & _). unfold os_path_getmtime in Hm.
  destruct (stat (fs st) p) as [e|n]; [done|]. by exists n.
Qed.

(** A metadata file that can be read lies in a directory. *)
Lemma read_decode_Ok_dir (dir : path) st d st' :
  layout_ok (fs st) → length dir = 2%nat →
  (_read_from (path_join dir "metadata") ≫= decode_json) st = (Ok d, st') →
  lstat (fs st) dir = inr Dir.
Proof.
  intros Hlay Hlen [n Hst]%read_decode_Ok_stat.
  rewrite stat_plain in Hst by (done || (unfold path_join; rewrite length_app; simpl; lia)).
  apply lstat_inr in Hst as [Hw _]. unfold path_join in Hw.
  rewrite walk_app_one, app_nil_l in Hw. apply lstat_inr.
  destruct (walk (fs st) [] dir); [done|].
  by destruct (fs st !! dir) as [[]|].
Qed.

Lemma get_flow_Ok_dir u lock st fd st' :
  layout_ok (fs st) →
  _get_flow_details u lock st = (Ok fd, st') →
  lstat (fs st) (path_join _flow_path u) = inr Dir.
Proof.
  intros Hlay Hg.
  assert (∃ s s', same_data st s ∧ layout_ok (fs s)
                  ∧ _get_flow_details u false s = (Ok fd, s'))
    as (s & s' & Hsd & Hlay' & Hg').
  { destruct lock; [|by exists st, st'].
    change (_get_flow_details u true)
      with (_run_with_process_lock L_flow (_get_flow_details u false)) in Hg.
    apply lock_Ok in Hg as (s1 & Hg & _).
    exists (locked L_flow st), s1.
    split_and!; [apply locked_same_data|by apply layout_locked|done]. }
  unfold _get_flow_details in Hg'.
  apply bind_Ok in Hg' as (meta & s1 & Hrd & _).
  rewrite <- (lstat_same_data st s) by (done || (right; left; by eexists)).
  eapply read_decode_Ok_dir; [done|done|exact Hrd].
Qed.

Lemma get_logbook_Ok_dir u st lb st' :
  layout_ok (fs st) →
  _get_logbook u st = (Ok lb, st') →
  lstat (fs st) (path_join _book_path u) = inr Dir.
Proof.
  intros Hlay (_ & d & s1 & Hrd & _)%get_logbook_fields.
  by eapply read_decode_Ok_dir.
Qed.

(** Every flow that a loaded book holds has its directory. *)
Lemma load_flows_dirs xs lb0 st r st' :
  layout_ok (fs st) →
  fold_M (λ lb fd_uuid, fd ← _get_flow_details fd_uuid true; mret (lb_add lb fd))
         xs lb0 st = (Ok r, st') →
  ∀ x, x ∈ xs → lstat (fs st) (path_join _flow_path x) = inr Dir.
Proof.
  intros Hlay. revert lb0 st Hlay.
  induction xs as [|x xs IH]; intros lb0 st Hlay; cbn [fold_M].
  - by intros _ y ?%elem_of_nil.
  - intros (lb1 & s1 & (fd & s2 & Hget & Hr)%bind_Ok & Hrest)%bind_Ok.
    unfold mret, M_ret in Hr. simplify_eq.
    assert (same_data st s1) as Hsd.
    { eapply (steps_Ok same_data); [|exact Hget].
      eapply @steps_get_flow_details; [apply same_data_frame|done]. }
    assert (layout_ok (fs s1)) as Hlay1.
    { eapply keeps_layout_Ok; [|exact Hlay|exact Hget].
      apply get_flow_keeps_layout. }
    intros y [->|Hy]%elem_of_cons.
    + by eapply get_flow_Ok_dir.
    + rewrite <- (lstat_same_data st s1) by (done || (right; left; by eexists)).
      eapply IH; [done|exact Hrest|done].
Qed.

Lemma lstat_only_removes K st st' q n :
  only_removes K st st' → (∀ p, p `prefix_of` q → K p) →
  lstat (fs st) q = inr n → lstat (fs st') q = inr n.
Proof.
  intros [_ Hk] Hq [Hw Hn]%lstat_inr. apply lstat_inr. split.
  - assert (∀ pre rest, pre ++ rest = q → walk (fs st) pre rest = None →
                        walk (fs st') pre rest = None) as Hwalk.
    { intros pre rest. revert pre. induction rest as [|c rest IH]; intros pre Hpre; [done|].
      simpl. destruct (fs st !! pre) as [x|] eqn:E; [|done].
      rewrite (Hk pre x) by (try done; left; apply Hq; rewrite <- Hpre;
                             by apply prefix_app_r).
      destruct x; try done. apply IH.
      by rewrite <- app_assoc. }
    by apply (Hwalk [] q).
  - apply Hk; [left; by apply Hq|done].
Qed.

Lemma gone_only_removes K d st st' :
  data_path d → only_removes K st st' → gone d st → gone d st'.
Proof.
  intros Hd [Hnew _] Hg p Hp. specialize (Hg p Hp).
  destruct (fs st' !! p) as [n|] eqn:E; [|done].
  destruct (Hnew _ _ E) as [Hn|[Hin _]]; [congruence|].
  exfalso. by apply (data_path_not_lock p); [eapply data_path_below|].
Qed.

Lemma remove_tree_Ok p st st' :
  remove_tree p st = (Ok (), st') →
  (st' = set_fs (filter (below p) (fs st)) st ∧ lstat (fs st) p = inr Dir)
  ∨ (st' = st ∧ lstat (fs st) p = inl ENOENT).
Proof.
  intros H. unfold remove_tree in H. rewrite run_try_except in H.
  unfold shutil_rmtree in H.
  destruct (lstat (fs st) p) as [e|[]] eqn:El.
  - right. destruct (decide (e = ENOENT)) as [->|Hne].
    + cbv beta iota in H. rewrite decide_False in H by (intros Hc; by apply Hc).
      unfold mret, M_ret in H. by simplify_eq.
    + exfalso. cbv beta iota in H.
      rewrite decide_True in H by congruence. by unfold raise in H.
  - exfalso. cbv beta iota in H.
    rewrite decide_True in H by congruence. by unfold raise in H.
  - left. by simplify_eq.
  - exfalso. cbv beta iota in H.
    rewrite decide_True in H by congruence. by unfold raise in H.
Qed.

Lemma remove_tree_gone p st st' :
  remove_tree p st = (Ok (), st') →
  lstat (fs st) p = inr Dir ∨ gone p st → gone p st'.
Proof.
  intros [[-> _]|[-> Hl]]%remove_tree_Ok Hcase.
  - intros q Hq. cbn [fs set_fs]. by rewrite lookup_filter_below, decide_True.
  - destruct Hcase as [Hd|Hg]; [congruence|done].
Qed.


Lemma get_logbook_flow_dirs u st lb st' :
  layout_ok (fs st) →
  _get_logbook u st = (Ok lb, st') →
  ∀ fd, fd ∈ lb_flows lb → lstat (fs st) (path_join _flow_path (fd_uuid fd)) = inr Dir.
Proof.
  intros Hlay. unfold _get_logbook. intros Hg.
  apply bind_Ok in Hg as (meta & s1 & Hrd & Hg).
  apply bind_Ok in Hg as (lb0 & s2 & (-> & c0 & up & m & -> & ->)%unformat_logbook_Ok & Hg).
  apply bind_Ok in Hg as (fds & s3 & Hl & Hg).
  assert (fs s1 = fs st) as Hfs.
  { apply try_except_Ok in Hrd as [Hrd|(e & s & k & _ & Hk & Hr)].
    - exact (steps_Ok _ _ _ _ _ (read_decode_same_fs _) Hrd).
    - destruct e; simplify_eq. case_decide; by simplify_eq. }
  apply (pure_Ok _ _ _ _ (pure_list_links_guarded _)) in Hl as ->.
  pose proof (load_flows_uuids _ _ _ _ _ Hg) as Hu. simpl in Hu.
  intros fd Hfd. rewrite <- Hfs.
  eapply load_flows_dirs; [by rewrite Hfs|exact Hg|].
  rewrite <- Hu. apply list_elem_of_In, in_map. by apply list_elem_of_In.
Qed.

Lemma destroy_tasks_only_removes (tds : list TaskDetail) :
  steps (only_removes (λ q, ¬ _task_path `prefix_of` q))
    (_run_with_process_lock L_task
       (for_each tds (λ task_detail,
          let task_path := path_join _task_path (td_uuid task_detail) in
          remove_tree task_path))).
Proof.
  apply steps_lock; [apply _|apply (@frame_locks _ _ _ _ (only_removes_frame _))|].
  apply steps_for_each; [apply _|]. intros td _.
  apply remove_tree_only_removes; [right; right; by eexists|].
  by intros q Hq Hp%prefix_of_child.
Qed.

Lemma flow_dir_not_in_tasks (f : string) (p : path) :
  p `prefix_of` path_join _flow_path f → ¬ _task_path `prefix_of` p.
Proof.
  intros Hp Ht. assert (_task_path `prefix_of` path_join _flow_path f) as [k Hk]
    by by etrans.
  compute in Hk. congruence.
Qed.

Lemma book_dir_not_in_flows (u : string) (p : path) :
  p `prefix_of` path_join _book_path u →
  ¬ _flow_path `prefix_of` p ∧ ¬ _task_path `prefix_of` p.
Proof.
  intros Hp. split; intros Ht.
  - assert (_flow_path `prefix_of` path_join _book_path u) as [k Hk] by by etrans.
    compute in Hk. congruence.
  - assert (_task_path `prefix_of` path_join _book_path u) as [k Hk] by by etrans.
    compute in Hk. congruence.
Qed.

Lemma walk_filter_short (d : path) (f : gmap path node) (pre rest : path) :
  (length pre + length rest ≤ length d)%nat →
  walk f pre rest = None → walk (filter (below d) f) pre rest = None.
Proof.
  revert pre. induction rest as [|c rest IH]; intros pre Hlen; simpl; [done|].
  simpl in Hlen. rewrite lookup_filter_below, decide_False.
  - destruct (f !! pre) as [[]|]; try done. apply IH.
    rewrite length_app. simpl. lia.
  - intros Hp%prefix_length. lia.
Qed.

Lemma flow_dirs_apart (f f' : string) :
  f ≠ f' → ¬ path_join _flow_path f `prefix_of` path_join _flow_path f'.
Proof. intros Hne [k Hk]. compute in Hk. congruence. Qed.

(** The loop of [_destroy_flows]: when it comes to its end, nothing is
    left of the directories of the flows it went through. *)
Lemma destroy_flows_loop (fds : list FlowDetail) (s s' : state) :
  for_each fds (λ flow_detail,
    let flow_path := path_join _flow_path (fd_uuid flow_detail) in
    _run_with_process_lock L_task
      (for_each (fd_tasks flow_detail) (λ task_detail,
         let task_path := path_join _task_path (td_uuid task_detail) in
         remove_tree task_path));;
    remove_tree flow_path) s = (Ok (), s') →
  (∀ fd, fd ∈ fds →
         lstat (fs s) (path_join _flow_path (fd_uuid fd)) = inr Dir
         ∨ gone (path_join _flow_path (fd_uuid fd)) s) →
  ∀ fd, fd ∈ fds → gone (path_join _flow_path (fd_uuid fd)) s'.
Proof.
  revert s. induction fds as [|fd0 fds IH]; intros s; cbn [for_each].
  - by intros _ _ fd ?%elem_of_nil.
  - intros ([] & s1 & Hbody & Hrest)%bind_Ok Hinv. cbv zeta in Hbody.
    apply bind_Ok in Hbody as ([] & sa & Htasks & Hrm).
    pose proof (steps_Ok _ _ _ _ _ (destroy_tasks_only_removes _) Htasks) as Hsa.
    assert (∀ fd, fd ∈ fd0 :: fds →
                  lstat (fs sa) (path_join _flow_path (fd_uuid fd)) = inr Dir
                  ∨ gone (path_join _flow_path (fd_uuid fd)) sa) as Hinv_a.
    { intros fd [Hd|Hg]%Hinv.
      - left. eapply lstat_only_removes; [exact Hsa| |exact Hd].
        intros p. apply flow_dir_not_in_tasks.
      - right. eapply gone_only_removes; [|exact Hsa|exact Hg].
        right; left. by eexists. }
    assert (gone (path_join _flow_path (fd_uuid fd0)) s1) as Hgone0.
    { eapply remove_tree_gone; [exact Hrm|]. apply Hinv_a. constructor. }
    assert (∀ fd, fd ∈ fds →
                  lstat (fs s1) (path_join _flow_path (fd_uuid fd)) = inr Dir
                  ∨ gone (path_join _flow_path (fd_uuid fd)) s1) as Hinv_1.
    { intros fd Hfd.
      destruct (decide (fd_uuid fd = fd_uuid fd0)) as [->|Hne]; [by right|].
      apply remove_tree_Ok in Hrm as [[-> _]|[-> _]].
      - destruct (Hinv_a fd) as [Hd|Hg]; [by constructor| |].
        + left. cbn [fs set_fs]. apply lstat_filter_below; [done|].
          apply flow_dirs_apart. congruence.
        + right. intros p Hp. cbn [fs set_fs].
          rewrite lookup_filter_below. case_decide; [done|by apply Hg].
      - apply Hinv_a. by constructor. }
    intros fd [->|Hfd]%elem_of_cons.
    + eapply (gone_only_removes (λ _, False)); [right; left; by eexists| |exact Hgone0].
      assert (steps (only_removes (λ _, False))
                (for_each fds (λ flow_detail,
                   let flow_path := path_join _flow_path (fd_uuid flow_detail) in
                   _run_with_process_lock L_task
                     (for_each (fd_tasks flow_detail) (λ task_detail,
                        let task_path := path_join _task_path (td_uuid task_detail) in
                        remove_tree task_path));;
                   remove_tree flow_path))) as Hsteps.
      { apply steps_for_each; [apply _|]. intros fd _.
        apply steps_bind; [apply _| |intros _].
        - apply steps_lock; [apply _|apply (@frame_locks _ _ _ _ (only_removes_frame _))|].
          apply steps_for_each; [apply _|]. intros td _.
          apply remove_tree_only_removes; [right; right; by eexists|done].
        - apply remove_tree_only_removes; [right; left; by eexists|done]. }
      exact (steps_Ok _ _ _ _ _ Hsteps Hrest).
    + by eapply IH.
Qed.

(** X15: in a store with the documented layout, after a successful
    [destroy_logbook] nothing is left of the book's directory nor of the
    directory of any flow that the book's [flows] directory linked to;
    getting the book, or destroying it once more, raises [NotFound]. *)
Theorem destroyed_book_is_gone (u : string) (st st' : state) :
  layout_ok (fs st) →
  destroy_logbook u st = (Ok (), st') →
  gone (path_join _book_path u) st'
  ∧ (∀ f, lstat (fs st) (book_index u) = inr Dir →
          child_ref st (book_index u) f →
          gone (path_join _flow_path f) st')
  ∧ (get_logbook u st').1 = Raise NotFound
  ∧ (destroy_logbook u st').1 = Raise NotFound.
Proof.
  intros Hlay Hrun. unfold destroy_logbook in Hrun. cbv zeta in Hrun.
  apply lock_Ok in Hrun as (s3 & Hbody & ->).
  apply bind_Ok in Hbody as (book & s1 & Hget & Hrest).
  apply bind_Ok in Hrest as ([] & s2 & Hflows & Hrm).
  set (s0 := locked L_book st) in *.
  assert (layout_ok (fs s0)) as Hlay0 by by apply layout_locked.
  assert (same_data st s0) as Hsd0 by apply locked_same_data.
  pose proof (get_logbook_fields _ _ _ _ Hget) as [Hu _]. rewrite Hu in Hrm.
  pose proof (get_logbook_Ok_dir _ _ _ _ Hlay0 Hget) as Hdir.
  pose proof (get_logbook_flow_dirs _ _ _ _ Hlay0 Hget) as Hfdirs.
  assert (link_at (fs s0) (book_index u) = false) as Hnl0.
  { apply link_at_layout; [done|]. compute. lia. }
  pose proof (get_logbook_flows _ _ _ _ Hnl0 Hget) as [_ Hlinks].
  pose proof (steps_Ok _ _ _ _ _ (get_logbook_same_data u) Hget) as Hsd1.
  assert (data_path (path_join _book_path u)) as Hbd by (left; by eexists).
  pose proof (steps_Ok _ _ _ _ _
                (destroy_flows_only_removes
                   (λ q, ¬ _flow_path `prefix_of` q ∧ ¬ _task_path `prefix_of` q)
                   (lb_flows book) (λ _ H, H)) Hflows) as Hs2.
  assert (lstat (fs s2) (path_join _book_path u) = inr Dir) as Hdir2.
  { eapply lstat_only_removes; [exact Hs2| |].
    - intros p. apply book_dir_not_in_flows.
    - by rewrite (lstat_same_data s0 s1). }
  apply remove_tree_Ok in Hrm as [[-> _]|[_ Hl]]; [|congruence].
  set (final := log_lock (Release L_book)
                  (set_fs (filter (below (path_join _book_path u)) (fs s2)) s2)).
  assert (gone (path_join _book_path u) final) as Hgone.
  { intros p Hp. unfold final. cbn [fs set_fs log_lock].
    by rewrite lookup_filter_below, decide_True. }
  assert (link_at (fs final) (book_metadata u) = false) as Hnlf.
  { unfold link_at. rewrite Hgone; [done|by apply prefix_app_r]. }
  assert (missing final (book_metadata u)) as Hmiss.
  { unfold missing, stat.
    rewrite realpath_of_plain
      by (intros t; rewrite Hgone; [done|by apply prefix_app_r]).
    unfold lstat, book_metadata, path_join.
    rewrite walk_app_one, app_nil_l.
    unfold final. cbn [fs set_fs log_lock].
    rewrite walk_filter_short.
    - rewrite lookup_filter_below, decide_True; done.
    - simpl. lia.
    - by apply lstat_inr in Hdir2 as [? _]. }
  split_and!.
  - exact Hgone.
  - intros f Hidx Hf.
    assert (f ∈ map fd_uuid (lb_flows book)) as Hin.
    { apply Hlinks. split.
      - by rewrite (lstat_same_data st s0) by (done || apply book_index_data).
      - by apply (child_ref_same_data st s0); [|apply book_index_data|]. }
    apply elem_of_map_uuid in Hin as (fd & Hfd & <-).
    apply lock_Ok in Hflows as (s2' & Hloop & ->).
    assert (gone (path_join _flow_path (fd_uuid fd)) s2') as Hg.
    { eapply destroy_flows_loop; [exact Hloop| |exact Hfd].
      intros fd' Hfd'. left.
      assert (data_path (path_join _flow_path (fd_uuid fd'))) as Hfdp
        by (right; left; by eexists).
      rewrite (lstat_same_data s1) by (done || apply locked_same_data).
      rewrite (lstat_same_data s0 s1) by done. by apply Hfdirs. }
    intros p Hp. unfold final. cbn [fs set_fs log_lock].
    rewrite lookup_filter_below.
    case_decide; [done|]. by apply Hg.
  - unfold get_logbook. rewrite run_with_process_lock_eq.
    destruct (get_logbook_missing u (locked L_book final)) as (s & -> & ->); [|done].
    eapply missing_same_data;
      [apply locked_same_data|apply book_metadata_data|done..].
  - by rewrite destroy_logbook_missing.
Qed.

Lemma destroyed_book_is_gone_witness :
  layout_ok (fs stored_book_2)
  ∧ (destroy_logbook "B2" stored_book_2).1 = Ok ()
  ∧ gone (path_join _book_path "B2") (destroy_logbook "B2" stored_book_2).2
  ∧ gone (path_join _flow_path "F2") (destroy_logbook "B2" stored_book_2).2
  ∧ (get_logbook "B2" (destroy_logbook "B2" stored_book_2).2).1 = Raise NotFound.
Proof.
  assert (layout_ok (fs stored_book_2)) as Hl
    by (apply layout_ok_checked; vm_compute; reflexivity).
  destruct (run_succeeds (destroy_logbook "B2") stored_book_2) as [[] Hr];
    [vm_compute; reflexivity|].
  destruct (destroyed_book_is_gone "B2" stored_book_2 _ Hl Hr) as (H1 & H2 & H3 & _).
  split_and!; [exact Hl|rewrite Hr; reflexivity|exact H1| |exact H3].
  apply H2; [vm_compute; reflexivity|].
  exists ["flows"; "F2"]. vm_compute. reflexivity.
Defined.


(** ** What a merge keeps of the stored version *)

Lemma find_app_None {A} (f : A → bool) (l k : list A) :
  List.find f (l ++ k) = None → List.find f l = None.
Proof. induction l as [|x l IH]; simpl; [done|]. by destruct (f x). Qed.

Lemma find_app_Some {A} (f : A → bool) (l k : list A) (x : A) :
  List.find f l = Some x → List.find f (l ++ k) = Some x.
Proof. induction l as [|y l IH]; simpl; [done|]. by destruct (f y). Qed.

Lemma fd_add_missing_state e tds : fd_state (fd_add_missing e tds) = fd_state e.
Proof.
  unfold fd_add_missing. revert e. induction tds as [|td tds IH]; intros e; simpl; [done|].
  rewrite IH. by destruct (fd_find e (td_uuid td)).
Qed.

Lemma fd_add_missing_meta e tds : fd_meta (fd_add_missing e tds) = fd_meta e.
Proof.
  unfold fd_add_missing. revert e. induction tds as [|td tds IH]; intros e; simpl; [done|].
  rewrite IH. by destruct (fd_find e (td_uuid td)).
Qed.

Lemma fd_add_missing_prefix e tds :
  fd_tasks e `prefix_of` fd_tasks (fd_add_missing e tds).
Proof.
  unfold fd_add_missing. revert e.
  induction tds as [|td tds IH]; intros e; simpl; [done|].
  etrans; [|apply IH]. destruct (fd_find e (td_uuid td)); [done|].
  simpl. by apply prefix_app_r.
Qed.

Lemma fd_find_None_prefix e e' u :
  fd_tasks e `prefix_of` fd_tasks e' → fd_find e' u = None → fd_find e u = None.
Proof.
  unfold fd_find. intros [k ->]. apply find_app_None.
Qed.

Lemma fd_find_Some_prefix e e' u td :
  fd_tasks e `prefix_of` fd_tasks e' → fd_find e u = Some td → fd_find e' u = Some td.
Proof.
  unfold fd_find. intros [k ->]. apply find_app_Some.
Qed.

Lemma fd_add_missing_from e tds td :
  td ∈ fd_tasks (fd_add_missing e tds) →
  td ∈ fd_tasks e ∨ (td ∈ tds ∧ fd_find e (td_uuid td) = None).
Proof.
  unfold fd_add_missing. revert e.
  induction tds as [|x tds IH]; intros e; simpl; [by left|].
  intros [H|[H Hnone]]%IH.
  - destruct (fd_find e (td_uuid x)) eqn:E; [by left|].
    simpl in H. apply elem_of_app in H as [H|H]; [by left|].
    apply list_elem_of_singleton in H as ->. right. split; [constructor|done].
  - right. split; [by constructor|].
    eapply fd_find_None_prefix; [|exact Hnone].
    destruct (fd_find e (td_uuid x)); [done|]. simpl. by apply prefix_app_r.
Qed.

Lemma lb_add_missing_prefix e fds :
  lb_flows e `prefix_of` lb_flows (lb_add_missing e fds).
Proof.
  unfold lb_add_missing. revert e.
  induction fds as [|fd fds IH]; intros e; simpl; [done|].
  etrans; [|apply IH]. destruct (lb_find e (fd_uuid fd)); [done|].
  simpl. by apply prefix_app_r.
Qed.

Lemma lb_find_None_prefix e e' u :
  lb_flows e `prefix_of` lb_flows e' → lb_find e' u = None → lb_find e u = None.
Proof.
  unfold lb_find. intros [k ->]. apply find_app_None.
Qed.

Lemma lb_find_Some_prefix e e' u fd :
  lb_flows e `prefix_of` lb_flows e' → lb_find e u = Some fd → lb_find e' u = Some fd.
Proof.
  unfold lb_find. intros [k ->]. apply find_app_Some.
Qed.

Lemma lb_add_missing_from e fds fd :
  fd ∈ lb_flows (lb_add_missing e fds) →
  fd ∈ lb_flows e ∨ (fd ∈ fds ∧ lb_find e (fd_uuid fd) = None).
Proof.
  unfold lb_add_missing. revert e.
  induction fds as [|x fds IH]; intros e; simpl; [by left|].
  intros [H|[H Hnone]]%IH.
  - destruct (lb_find e (fd_uuid x)) eqn:E; [by left|].
    simpl in H. apply elem_of_app in H as [H|H]; [by left|].
    apply list_elem_of_singleton in H as ->. right. split; [constructor|done].
  - right. split; [by constructor|].
    eapply lb_find_None_prefix; [|exact Hnone].
    destruct (lb_find e (fd_uuid x)); [done|]. simpl. by apply prefix_app_r.
Qed.

(** X16: the flow that [update_flow_details] returns has the incoming
    state and meta and, first and in their order, the tasks of the flow as
    it was stored; an incoming task is added only when no stored task has
    its identifier, so that for an identifier that is already attached the
    stored task detail stays and the incoming one is ignored. *)
Theorem update_flow_keeps_stored_tasks (fd r : FlowDetail) (st st' : state) :
  update_flow_details fd st = (Ok r, st') →
  ∃ e, (_get_flow_details (fd_uuid fd) true st).1 = Ok e
       ∧ fd_uuid r = fd_uuid fd ∧ fd_state r = fd_state fd ∧ fd_meta r = fd_meta fd
       ∧ fd_tasks e `prefix_of` fd_tasks r
       ∧ (∀ td, td ∈ fd_tasks r →
                td ∈ fd_tasks e ∨ (td ∈ fd_tasks fd ∧ fd_find e (td_uuid td) = None))
       ∧ (∀ td, td ∈ fd_tasks fd → td_uuid td ∈ map td_uuid (fd_tasks r))
       ∧ (∀ u td, fd_find e u = Some td → fd_find r u = Some td).
Proof.
  unfold update_flow_details. intros (s3 & Hsave & ->)%lock_Ok.
  unfold _save_flow_details in Hsave.
  apply bind_Ok in Hsave as (e_fd & s1 & Hprobe & Hrun).
  apply probe_existing_Ok in Hprobe as [(e & Hget & ->)|(_ & [=] & _)].
  exists e.
  assert (r = fd_add_missing (flow_details_merge e fd) (fd_tasks fd)) as ->.
  { apply bind_Ok in Hrun as ([] & s2 & _ & Hrun).
    apply bind_Ok in Hrun as ([] & s4 & _ & Hrun).
    apply bind_Ok in Hrun as ([] & s5 & _ & Hrun).
    unfold mret, M_ret in Hrun. by simplify_eq. }
  pose proof (get_flow_details_uuid _ _ _ _ _ Hget) as Hu.
  pose proof (fd_add_missing_prefix (flow_details_merge e fd) (fd_tasks fd)) as Hpre.
  split_and!.
  - change (_get_flow_details (fd_uuid fd) true)
      with (_run_with_process_lock L_flow (_get_flow_details (fd_uuid fd) false)).
    by rewrite run_with_process_lock_eq, Hget.
  - by rewrite fd_add_missing_uuid.
  - by rewrite fd_add_missing_state.
  - by rewrite fd_add_missing_meta.
  - exact Hpre.
  - intros td Htd. by apply fd_add_missing_from in Htd.
  - intros td Htd. by apply fd_add_missing_adds.
  - intros u td Hf. by eapply fd_find_Some_prefix.
Qed.

Lemma update_flow_keeps_stored_tasks_witness :
  ∃ r, (update_flow_details flow_AC saved_store).1 = Ok r
       ∧ fd_state r = "SUCCESS"
       ∧ fd_find r "A" = Some (task "A")
       ∧ "C" ∈ map td_uuid (fd_tasks r).
Proof.
  destruct (run_succeeds (update_flow_details flow_AC) saved_store) as [r Hr];
    [vm_compute; reflexivity|].
  exists r. split; [rewrite Hr; reflexivity|].
  destruct (update_flow_keeps_stored_tasks flow_AC r saved_store _ Hr)
    as (e & He & _ & Hstate & _ & _ & _ & Hadds & Hfind).
  assert ((_get_flow_details "F1" true saved_store).1
          = Ok (mkFlowDetail "F1" "RUNNING" "" [task "B"; task "A"])) as Hstored
    by (vm_compute; reflexivity).
  change (fd_uuid flow_AC) with "F1" in He.
  rewrite Hstored in He. injection He as <-.
  split_and!; [exact Hstate| |].
  - apply Hfind. reflexivity.
  - apply (Hadds (task "C")). apply list_elem_of_further, list_elem_of_here.
Defined.

(** X17: the book that [save_logbook] returns is the incoming book when
    none was stored; otherwise it has the incoming meta, the stored
    creation time and, first and in their order, the flows of the stored
    book, an incoming flow being added only when no stored flow has its
    identifier. *)
Theorem save_logbook_keeps_stored_flows (book r : LogBook) (st st' : state) :
  save_logbook book st = (Ok r, st') →
  ((get_logbook (lb_uuid book) st).1 = Raise NotFound ∧ r = book)
  ∨ ∃ e, (get_logbook (lb_uuid book) st).1 = Ok e
         ∧ lb_uuid r = lb_uuid book ∧ lb_meta r = lb_meta book
         ∧ lb_created_at r = lb_created_at e
         ∧ lb_flows e `prefix_of` lb_flows r
         ∧ (∀ fd, fd ∈ lb_flows r →
                  fd ∈ lb_flows e
                  ∨ (fd ∈ lb_flows book ∧ lb_find e (fd_uuid fd) = None))
         ∧ (∀ fd, fd ∈ lb_flows book → fd_uuid fd ∈ map fd_uuid (lb_flows r))
         ∧ (∀ u fd, lb_find e u = Some fd → lb_find r u = Some fd).
Proof.
  unfold save_logbook. intros (s3 & Hsave & ->)%lock_Ok.
  unfold _save_logbook in Hsave.
  apply bind_Ok in Hsave as (e_lb & s1 & Hprobe & Hrun).
  assert (r = default book
                (match e_lb with
                 | Some e => Some (lb_add_missing (logbook_merge e book) (lb_flows book))
                 | None => None
                 end)) as ->.
  { apply bind_Ok in Hrun as ([] & s2 & _ & Hrun).
    apply bind_Ok in Hrun as (meta & s4 & _ & Hrun).
    apply bind_Ok in Hrun as ([] & s5 & _ & Hrun).
    apply bind_Ok in Hrun as ([] & s6 & _ & Hrun).
    unfold mret, M_ret in Hrun. by simplify_eq. }
  unfold get_logbook. rewrite run_with_process_lock_eq.
  apply try_except_Ok in Hprobe as [(e & Hget & ->)%fmap_Ok|(x & s & k & Hget & Hk & Hr)].
  - right. exists e. rewrite Hget. cbn [default from_option id fst].
    pose proof (get_logbook_fields _ _ _ _ Hget) as [Hu _].
    pose proof (lb_add_missing_prefix (logbook_merge e book) (lb_flows book)) as Hpre.
    split_and!.
    + done.
    + by rewrite lb_add_missing_uuid.
    + by rewrite lb_add_missing_meta.
    + by rewrite lb_add_missing_created_at.
    + exact Hpre.
    + intros fd Hfd. by apply lb_add_missing_from in Hfd.
    + intros fd Hfd. by apply lb_add_missing_adds.
    + intros u fd Hf. by eapply lb_find_Some_prefix.
  - left. rewrite run_fmap in Hget.
    destruct (_get_logbook (lb_uuid book) _) as [[a|x'] sx] eqn:Hg; [done|].
    injection Hget as -> ->. destruct x; simplify_eq.
    unfold mret, M_ret in Hr. by simplify_eq.
Qed.

Lemma save_logbook_keeps_stored_flows_witness :
  ∃ r, (save_logbook book_1_again saved_store).1 = Ok r
       ∧ lb_meta r = "again"
       ∧ lb_created_at r = Some 100
       ∧ lb_find r "F1" = Some (mkFlowDetail "F1" "RUNNING" "" [task "B"; task "A"]).
Proof.
  destruct (run_succeeds (save_logbook book_1_again) saved_store) as [r Hr];
    [vm_compute; reflexivity|].
  exists r. split; [rewrite Hr; reflexivity|].
  assert ((get_logbook "B1" saved_store).1
          = Ok (mkLogBook "B1" (Some 100) None ""
                  [mkFlowDetail "F1" "RUNNING" "" [task "B"; task "A"]])) as Hstored
    by (vm_compute; reflexivity).
  destruct (save_logbook_keeps_stored_flows book_1_again r saved_store _ Hr)
    as [[Hnf _]|(e & He & _ & Hmeta & Hc & _ & _ & _ & Hfind)].
  - change (lb_uuid book_1_again) with "B1" in Hnf. rewrite Hstored in Hnf.
    discriminate Hnf.
  - change (lb_uuid book_1_again) with "B1" in He.
    rewrite Hstored in He. injection He as <-.
    split_and!; [exact Hmeta|exact Hc|]. apply Hfind. reflexivity.
Defined.


(** ** What a save leaves in the metadata file *)

Section task_writes.
Context (Wr Ww Wl : path → Prop) (R : relation state) `{!Frame Wr Ww Wl R}.
Hypothesis lower_Wr : ∀ p, lower_path p → Wr p.
Hypothesis task_Ww : ∀ u, Ww (path_join _task_path u).

Lemma steps_save_task_only td ignore_missing :
  steps R (_save_task_details td ignore_missing).
Proof.
  unfold _save_task_details.
  apply steps_bind; [apply _| |intros e_td].
  { eapply steps_probe_existing; [done|]. by eapply steps_get_task_details. }
  apply steps_bind; [apply _| |intros _; by apply steps_pure; [apply _|]].
  apply frame_write, task_Ww.
Qed.

Lemma steps_save_tasks_only tds dir :
  (∀ u, Wl (dir ++ [u])) → steps R (_save_tasks_and_link tds dir).
Proof.
  intros Hd. apply steps_for_each; [apply _|]. intros td _.
  apply steps_bind; [apply _|apply steps_save_task_only|intros _].
  eapply steps_link_child; [done|]. apply Hd.
Qed.
End task_writes.

Lemma save_flow_meta_written fd ign st r st' :
  layout_ok (fs st) →
  _save_flow_details fd ign st = (Ok r, st') →
  ∃ m, lstat (fs st') (flow_metadata (fd_uuid fd))
       = inr (File m (FlowDoc (fd_state fd) (fd_meta fd))).
Proof.
  intros Hl Hrun. set (q := flow_metadata (fd_uuid fd)).
  unfold _save_flow_details in Hrun.
  apply bind_Ok in Hrun as (e_fd & st1 & Hprobe & Hrun).
  set (merged := match e_fd with
                 | Some e => fd_add_missing (flow_details_merge e fd) (fd_tasks fd)
                 | None => fd end) in *.
  assert (fd_uuid merged = fd_uuid fd) as Hu.
  { subst merged. destruct e_fd as [e|]; [|done].
    rewrite fd_add_missing_uuid. simpl.
    apply probe_existing_Ok in Hprobe as [(a & Hget & [= <-])|(? & _)]; [|done].
    by eapply get_flow_details_uuid. }
  assert (format_flow_detail merged = FlowDoc (fd_state fd) (fd_meta fd)) as Hdoc.
  { subst merged. unfold format_flow_detail. destruct e_fd as [e|]; [|done].
    by rewrite fd_add_missing_state, fd_add_missing_meta. }
  assert (layout_ok (fs st1)) as Hl1.
  { eapply keeps_layout_Ok; [|exact Hl|exact Hprobe].
    eapply @steps_probe_existing; [apply (keeps_layout_frame (λ _, False))|].
    apply get_flow_keeps_layout. }
  rewrite Hu in Hrun. fold q in Hrun.
  apply bind_Ok in Hrun as ([] & st2 & Hmk & Hrun).
  apply bind_Ok in Hrun as ([] & st3 & Hwr & Hrun).
  apply bind_Ok in Hrun as ([] & st4 & Hkids & Hrun).
  unfold mret, M_ret in Hrun. injection Hrun as _ <-.
  unfold jsonutils_dumps in Hwr. rewrite Hdoc in Hwr.
  assert (layout_ok (fs st2)) as Hl2.
  { rewrite <- (Ok_snd _ _ _ _ Hmk). apply ensure_tree_keeps_layout; [compute; lia|done]. }
  assert (length q ≠ 4%nat) as Hq by (compute; lia).
  destruct (write_to_fs (path_join (path_join _flow_path (fd_uuid fd)) "metadata")
              (FlowDoc (fd_state fd) (fd_meta fd)) st2)
    as [[x Hx]|(p & Hp & Hw & _ & Hx)]; rewrite Hx in Hwr; [done|].
  change (path_join (path_join _flow_path (fd_uuid fd)) "metadata") with q in *.
  rewrite realpath_layout in Hp by done.
  assert (p = q) as -> by congruence. clear Hp.
  injection Hwr as <-.
  match type of Hkids with ?m _ = _ =>
    assert (steps (keeps_layout (λ p, p = q)) m ∧ steps keeps_structure m) as [HK HS] end.
  { case_bool_decide.
    - split.
      + apply steps_bind; [apply _| |intros _].
        * apply (@frame_mkdir _ _ _ _ (keeps_layout_frame (λ p, p = q))).
          split; [compute; lia|]. by intros [=].
        * apply steps_lock; [apply _|apply frame_locks|].
          eapply @steps_save_tasks_only;
            [apply (keeps_layout_frame (λ p, p = q))|done| |].
          -- intros u. split; [compute; lia|]. by intros [=].
          -- intros u. reflexivity.
      + apply steps_bind; [apply _| |intros _].
        * by apply (@frame_mkdir _ _ _ _ keeps_structure_frame).
        * apply steps_lock; [apply _|apply frame_locks|].
          apply save_tasks_and_link_keeps_structure.
    - split; by apply steps_pure; [apply _|]. }
  pose proof (steps_Ok _ _ _ _ _ HK Hkids) as HK'.
  pose proof (steps_Ok _ _ _ _ _ HS Hkids) as HS'.
  destruct HK' as [Hl4 Hkeep].
  { simpl. apply layout_insert; [done|]. simpl. split; [done|]. intros. lia. }
  exists (clock st2). apply lstat_inr. split.
  - eapply walk_kept; [exact HS'|]. cbn [fs set_cache set_clock set_fs].
    by rewrite walk_insert by (simpl; lia).
  - apply Hkeep; [done|]. cbn [fs set_cache set_clock set_fs].
    by rewrite lookup_insert_eq.
Qed.


Lemma save_logbook_meta_written book st r st' :
  layout_ok (fs st) →
  _save_logbook book st = (Ok r, st') →
  ∃ m c up, lstat (fs st') (book_metadata (lb_uuid book))
            = inr (File m (BookDoc c up (lb_meta book))).
Proof.
  intros Hl Hrun. set (q := book_metadata (lb_uuid book)).
  unfold _save_logbook in Hrun.
  apply bind_Ok in Hrun as (e_lb & st1 & Hprobe & Hrun).
  set (e_merged := match e_lb with
                   | Some e => Some (lb_add_missing (logbook_merge e book) (lb_flows book))
                   | None => None
                   end) in *.
  set (merged := default book e_merged) in *.
  assert (lb_uuid merged = lb_uuid book ∧ lb_meta merged = lb_meta book) as [Hu Hm].
  { subst merged e_merged. destruct e_lb as [e|]; [|done]. simpl.
    rewrite lb_add_missing_uuid, lb_add_missing_meta. simpl. split; [|done].
    apply try_except_Ok in Hprobe as [(a & Hget & [= <-])%fmap_Ok|(x & s & k & _ & Hk & Hr)].
    - by apply get_logbook_fields in Hget as [? _].
    - destruct x; simplify_eq. }
  assert (layout_ok (fs st1)) as Hl1.
  { eapply keeps_layout_Ok; [|exact Hl|exact Hprobe].
    apply steps_try_except; [apply _| |].
    - apply steps_fmap. apply get_logbook_keeps_layout.
    - intros e k Hk. destruct e; simplify_eq. by apply steps_pure; [apply _|]. }
  rewrite Hu in Hrun. fold q in Hrun.
  apply bind_Ok in Hrun as ([] & st2x & Hmk & Hrun).
  apply bind_Ok in Hrun as (meta & st2 & Hfmt & Hrun).
  assert (st2 = st2x ∧ ∃ c up, meta = BookDoc c up (lb_meta book)) as [-> (c & up & ->)].
  { unfold format_logbook, utcnow in Hfmt. rewrite run_bind in Hfmt.
    unfold mret, M_ret in Hfmt. injection Hfmt as <- <-. rewrite Hm.
    split; [done|]. destruct (e_merged ≫= lb_created_at); eauto. }
  apply bind_Ok in Hrun as ([] & st3 & Hwr & Hrun).
  apply bind_Ok in Hrun as ([] & st4 & Hkids & Hrun).
  unfold mret, M_ret in Hrun. injection Hrun as _ <-.
  unfold jsonutils_dumps in Hwr.
  assert (layout_ok (fs st2x)) as Hl2.
  { rewrite <- (Ok_snd _ _ _ _ Hmk). apply ensure_tree_keeps_layout; [compute; lia|done]. }
  assert (length q ≠ 4%nat) as Hq by (compute; lia).
  destruct (write_to_fs (path_join (path_join _book_path (lb_uuid book)) "metadata")
              (BookDoc c up (lb_meta book)) st2x)
    as [[x Hx]|(p & Hp & Hw & _ & Hx)]; rewrite Hx in Hwr; [done|].
  change (path_join (path_join _book_path (lb_uuid book)) "metadata") with q in *.
  rewrite realpath_layout in Hp by done.
  assert (p = q) as -> by congruence. clear Hp.
  injection Hwr as <-.
  match type of Hkids with ?m _ = _ =>
    assert (steps (keeps_layout (λ p, p = q)) m ∧ steps keeps_structure m) as [HK HS] end.
  { case_bool_decide.
    - split.
      + apply steps_bind; [apply _| |intros _].
        * apply (@frame_mkdir _ _ _ _ (keeps_layout_frame (λ p, p = q))).
          split; [compute; lia|]. by intros [=].
        * apply steps_lock; [apply _|apply frame_locks|].
          apply save_flows_and_link_keeps_layout; [|done].
          intros p Hp ->. inversion Hp.
      + apply steps_bind; [apply _| |intros _].
        * by apply (@frame_mkdir _ _ _ _ keeps_structure_frame).
        * apply steps_lock; [apply _|apply frame_locks|].
          apply save_flows_and_link_keeps_structure.
    - split; by apply steps_pure; [apply _|]. }
  pose proof (steps_Ok _ _ _ _ _ HK Hkids) as HK'.
  pose proof (steps_Ok _ _ _ _ _ HS Hkids) as HS'.
  destruct HK' as [Hl4 Hkeep].
  { simpl. apply layout_insert; [done|]. simpl. split; [done|]. intros. lia. }
  exists (clock st2x), c, up. apply lstat_inr. split.
  - eapply walk_kept; [exact HS'|]. cbn [fs set_cache set_clock set_fs].
    by rewrite walk_insert by (simpl; lia).
  - apply Hkeep; [done|]. cbn [fs set_cache set_clock set_fs].
    by rewrite lookup_insert_eq.
Qed.

Lemma get_flow_scalars u st fd st' :
  _get_flow_details u false st = (Ok fd, st') →
  ∃ s m s1, (_read_from (flow_metadata u) ≫= decode_json) st = (Ok (FlowDoc s m), s1)
            ∧ fd_state fd = s ∧ fd_meta fd = m.
Proof.
  unfold _get_flow_details. intros Hg.
  apply bind_Ok in Hg as (meta & s1 & Hrd & Hg).
  apply bind_Ok in Hg as (fd0 & s2 & (-> & sx & m & -> & ->)%unformat_flow_Ok & Hg).
  apply bind_Ok in Hg as (tds & s3 & _ & Hg).
  exists sx, m, s1. split; [exact Hrd|].
  refine (fold_M_Ok_inv (λ fd, fd_state fd = sx ∧ fd_meta fd = m) _ _ _ _ _ _ _ _ Hg);
    [|done].
  intros b x s0 b' s0' Hb (td & s4 & _ & Hr)%bind_Ok.
  unfold mret, M_ret in Hr. by simplify_eq.
Qed.

Lemma get_logbook_scalars u st lb st' :
  _get_logbook u st = (Ok lb, st') →
  ∃ c up m s1,
    (_read_from (book_metadata u) ≫= decode_json) st = (Ok (BookDoc c up m), s1)
    ∧ lb_meta lb = m.
Proof.
  unfold _get_logbook. intros Hg.
  apply bind_Ok in Hg as (meta & s1 & Hmeta & Hg).
  apply bind_Ok in Hg as (lb0 & s2 & (-> & c & up & m & -> & ->)%unformat_logbook_Ok & Hg).
  apply bind_Ok in Hg as (fds & s3 & _ & Hg).
  exists c, up, m, s1. split.
  - apply try_except_Ok in Hmeta as [?|(e & s5 & k & _ & Hk & Hr)]; [done|].
    destruct e; simplify_eq. case_decide; by simplify_eq.
  - refine (fold_M_Ok_inv (λ lb, lb_meta lb = m) _ _ _ _ _ _ _ _ Hg); [|done].
    intros b x s0 b' s0' Hb (fd & s4 & _ & Hr)%bind_Ok.
    unfold mret, M_ret in Hr. by simplify_eq.
Qed.

(** Reading and decoding a metadata file of a well-formed store yields the
    document on disk. *)
Lemma read_decode_coherent q st m d d' s1 :
  layout_ok (fs st) → coherent_at st q → length q ≠ 4%nat →
  lstat (fs st) q = inr (File m d) →
  (_read_from q ≫= decode_json) st = (Ok d', s1) → d' = d.
Proof.
  intros Hlay Hc Hq Hl Hrd.
  assert (stat (fs st) q = inr (File m d)) as Hst
    by (rewrite stat_plain; done).
  destruct (read_from_coherent_at q st m d Hlay Hc Hq Hst) as [s Hread].
  rewrite run_bind, Hread in Hrd.
  destruct d; simpl in Hrd; unfold mret, M_ret, raise in Hrd; by simplify_eq.
Qed.

Lemma store_ok_coherent st : store_ok st → coherent_off_locks st.
Proof. intros [Hl Hc]. split; [done|]. intros p _ m d m' d'. apply Hc. Qed.

Lemma coherent_off_locks_locked l st :
  coherent_off_locks st → coherent_off_locks (locked l st).
Proof. intros H. exact (@frame_open _ _ _ _ keeps_coherent_frame l st H). Qed.

(** X18: in a well-formed store, a successful [update_flow_details] leaves
    the incoming state and meta in the flow's metadata file, and a
    successful [save_logbook] the incoming meta in the book's metadata
    file, whatever was stored before; a flow or book loaded afterwards
    carries these fields. *)
Theorem saved_fields_read_back (st : state) :
  store_ok st →
  (∀ fd r st',
     update_flow_details fd st = (Ok r, st') →
     (∃ m, lstat (fs st') (flow_metadata (fd_uuid fd))
           = inr (File m (FlowDoc (fd_state fd) (fd_meta fd))))
     ∧ ∀ lock e st'',
         _get_flow_details (fd_uuid fd) lock st' = (Ok e, st'') →
         fd_state e = fd_state fd ∧ fd_meta e = fd_meta fd)
  ∧ (∀ book r st',
       save_logbook book st = (Ok r, st') →
       (∃ m c up, lstat (fs st') (book_metadata (lb_uuid book))
                  = inr (File m (BookDoc c up (lb_meta book))))
       ∧ ∀ lb st'',
           get_logbook (lb_uuid book) st' = (Ok lb, st'') →
           lb_meta lb = lb_meta book).
Proof.
  intros Hok. destruct canonical_lengths as (H1 & H2 & H3 & H4).
  pose proof (store_ok_coherent _ Hok) as Hco. split.
  - intros fd r st' Hrun.
    assert (coherent_off_locks st') as Hco'.
    { pose proof (@steps_update_flow_details _ _ _ _ keeps_coherent_frame
                    (λ _ _, I) H1 H2 fd st) as H.
      rewrite Hrun in H. by apply H. }
    unfold update_flow_details in Hrun.
    apply lock_Ok in Hrun as (s1 & Hrun & ->).
    destruct (save_flow_meta_written _ _ (locked L_flow st) _ _
                (layout_locked _ _ (proj1 Hok)) Hrun) as [m Hm].
    split; [by exists m|].
    intros lock e st'' Hget.
    set (st' := log_lock (Release L_flow) s1) in *.
    assert (∃ s s', same_data st' s ∧ coherent_off_locks s
                    ∧ _get_flow_details (fd_uuid fd) false s = (Ok e, s'))
      as (s & s' & Hsd & [Hls Hcs] & Hg).
    { destruct lock.
      - change (_get_flow_details (fd_uuid fd) true)
          with (_run_with_process_lock L_flow (_get_flow_details (fd_uuid fd) false))
          in Hget.
        apply lock_Ok in Hget as (s' & Hg & _).
        exists (locked L_flow st'), s'.
        split_and!; [apply locked_same_data|by apply coherent_off_locks_locked|exact Hg].
      - by exists st', st''. }
    assert (data_path (flow_metadata (fd_uuid fd))) as Hd by (right; left; by eexists).
    apply get_flow_scalars in Hg as (sx & mx & s2 & Hrd & -> & ->).
    eapply read_decode_coherent in Hrd;
      [|done|by apply Hcs, data_path_not_lock|compute; lia
       |rewrite (lstat_same_data st' s) by done; exact Hm].
    by injection Hrd as -> ->.
  - intros book r st' Hrun.
    assert (coherent_off_locks st') as Hco'.
    { pose proof (@steps_save_logbook _ _ _ _ keeps_coherent_frame
                    (λ _ _, I) H1 H2 (λ _ _, I) H3 H4 book st) as H.
      rewrite Hrun in H. by apply H. }
    unfold save_logbook in Hrun.
    apply lock_Ok in Hrun as (s1 & Hrun & ->).
    destruct (save_logbook_meta_written _ (locked L_book st) _ _
                (layout_locked _ _ (proj1 Hok)) Hrun) as (m & c & up & Hm).
    split; [by exists m, c, up|].
    set (st' := log_lock (Release L_book) s1) in *.
    intros lb st'' (s' & Hg & _)%lock_Ok.
    assert (data_path (book_metadata (lb_uuid book))) as Hd by (left; by eexists).
    destruct (coherent_off_locks_locked L_book _ Hco') as [Hls Hcs].
    apply get_logbook_scalars in Hg as (cx & upx & mx & s2 & Hrd & <-).
    eapply read_decode_coherent in Hrd;
      [|done|by apply Hcs, data_path_not_lock|compute; lia
       |rewrite (lstat_same_data st') by (done || apply locked_same_data); exact Hm].
    by injection Hrd as _ _ ->.
Qed.

Lemma saved_fields_read_back_witness :
  store_ok saved_store
  ∧ (∃ m, lstat (fs (update_flow_details flow_C saved_store).2) (flow_metadata "F1")
          = inr (File m (FlowDoc "SUCCESS" "")))
  ∧ ∃ m c up, lstat (fs (save_logbook book_1_again saved_store).2) (book_metadata "B1")
              = inr (File m (BookDoc c up "again")).
Proof.
  pose proof saved_store_ok as Hok.
  destruct (saved_fields_read_back saved_store Hok) as [Hflow Hbook].
  split_and!; [exact Hok| |].
  - destruct (run_succeeds (update_flow_details flow_C) saved_store) as [r Hr];
      [vm_compute; reflexivity|].
    exact (proj1 (Hflow flow_C r _ Hr)).
  - destruct (run_succeeds (save_logbook book_1_again) saved_store) as [r Hr];
      [vm_compute; reflexivity|].
    exact (proj1 (Hbook book_1_again r _ Hr)).
Defined.


(** ** What a listing of the books raises *)

Lemma raises_get_flow_locked u :
  raises_only (λ e, ∃ c, e = StorageError c) (_get_flow_details u true).
Proof.
  change (_get_flow_details u true)
    with (_run_with_process_lock L_flow (_get_flow_details u false)).
  apply raises_only_lock.
  eapply raises_only_weaken; [|apply (raises_get_flow u false)].
  intros e He. destruct e; simpl; eauto. by destruct He.
Qed.

Lemma raises_get_logbook u :
  raises_only (λ e, e = NotFound ∨ low_level e ∨ ∃ c, e = StorageError c)
    (_get_logbook u).
Proof.
  unfold _get_logbook.
  apply raises_only_bind; [|intros meta].
  { eapply (raises_only_try_except _ low_level).
    - apply raises_only_bind; [apply raises_read_from|apply raises_decode_json].
    - intros e He _. eauto.
    - intros e k He Hk. destruct e; simplify_eq.
      case_decide; simplify_eq; apply raises_only_raise; eauto. }
  apply raises_only_bind; [|intros lb].
  { eapply raises_only_weaken; [|apply raises_unformat_logbook]. eauto. }
  apply raises_only_bind; [|intros fds].
  { eapply raises_only_weaken; [|apply raises_list_links_guarded]. eauto. }
  apply raises_only_fold_M. intros b x.
  apply raises_only_bind; [|intros fd; apply raises_only_ret].
  eapply raises_only_weaken; [|apply raises_get_flow_locked]. eauto.
Qed.

Lemma raises_get_logbooks_unwrapped :
  raises_only (λ e, low_level e ∨ ∃ c, e = StorageError c) _get_logbooks.
Proof.
  unfold _get_logbooks.
  apply raises_only_bind; [|intros uuids].
  - eapply raises_only_weaken; [intros e He; left; exact He|].
    eapply raises_only_try_except; [apply raises_list_dirs|by intros|].
    intros e k He [->| ->]%unless_errno_Some;
      [apply raises_only_ret|by apply raises_only_raise].
  - apply raises_only_fold_M. intros acc u.
    eapply raises_only_try_except.
    + apply raises_only_bind; [apply raises_get_logbook|intros lb; apply raises_only_ret].
    + intros e [->|He] Hk; [done|exact He].
    + intros e k _ Hk. destruct e; simplify_eq. apply raises_only_ret.
Qed.

(** X19: [get_logbooks] wraps environment errors only: when it fails, the
    caller sees a [StorageError], or else the bare [ValueError] or
    [KeyError] of a book's metadata that does not decode. *)
Theorem get_logbooks_raises (st st' : state) (e : exn) :
  get_logbooks st = (Raise e, st') → decoding_or_storage e.
Proof.
  rewrite get_logbooks_eq.
  destruct (_get_logbooks st) as [[books|e0] s] eqn:Hrun; [done|].
  intros [= <- <-].
  destruct (raises_get_logbooks_unwrapped _ _ _ Hrun) as [Hlow|[c ->]].
  - unfold decoding_or_storage. destruct e0; simpl in *; eauto; by destruct Hlow.
  - unfold decoding_or_storage. simpl. eauto.
Qed.

Lemma get_logbooks_raises_witness :
  (get_logbooks garbled_store).1 = Raise ValueError
  ∧ decoding_or_storage ValueError.
Proof.
  destruct (get_logbooks garbled_store) as [r s] eqn:Hr.
  assert (r = Raise ValueError) as ->.
  { change r with (r, s).1. rewrite <- Hr. vm_compute. reflexivity. }
  split; [reflexivity|]. exact (get_logbooks_raises garbled_store s ValueError Hr).
Defined.
